(** * NordPass Raycast extension: export parser, cache encryption, cache manager

    A shallow embedding of [src/lib/parser.ts], [src/lib/encryption.ts] and
    [src/lib/storage.ts], and of the functions of [src/lib/preferences.ts]
    and of the three search commands that compute something.

    - JavaScript strings are sequences of UTF-16 code units ([list Z]).
    - Buffers and file contents are sequences of bytes ([list byte]).
    - A CSV record ([Record<string, string>]) is a finite map from column
      name to value.
    - Functions that touch the file system, the clock, the random source or
      that throw are written in a state-and-exception monad over [World].
    - The runtime services the code calls but does not define (PBKDF2,
      AES-256-GCM, JSON, csv-parse) are the fields of the class [Runtime],
      with the laws the proofs rely on.

    The program comes first, then the definitions the statements are written
    with, then the lemmas, a reference runtime with concrete worlds, and last
    the properties of the specification, numbered as its claims are, and
    further properties of the code. *)

From Stdlib Require Import ZArith Lia ZifyBool Bool List.
From Stdlib Require Import Strings.Byte.
From stdpp Require Import gmap strings list.

Local Open Scope Z_scope.

(** ** JavaScript strings *)

Abbreviation jsstring := (list Z).

(** A string literal of the source, as code units (ASCII literals only). *)
Definition js (s : string) : jsstring :=
  map (fun b => Z.of_N (Byte.to_N b)) (String.list_byte_of_string s).

(** [String.prototype.toLowerCase] on the ASCII range.  The only non-ASCII
    code unit whose lower case is an ASCII letter is U+212A (to [k]), and no
    type name compared against below contains [k], so the comparisons in
    [parseExportFile] are not affected by leaving other code units as they
    are. *)
Definition toLowerCase (s : jsstring) : jsstring :=
  map (fun c => if (65 <=? c) && (c <=? 90) then c + 32 else c) s.

(** ** Values of type [string | undefined] and the [||] operator *)

(** [undefined] is [None]; the empty string and [undefined] are the falsy
    values of this type. *)
Definition truthy (v : option jsstring) : bool :=
  match v with
  | Some (_ :: _) => true
  | _ => false
  end.

(** [a || b] *)
Definition js_or (a b : option jsstring) : option jsstring :=
  if truthy a then a else b.

(** [a || ""]: the result is always a string. *)
Definition js_or_str (a : option jsstring) (d : jsstring) : jsstring :=
  match a with
  | Some (c :: s) => c :: s
  | _ => d
  end.

Infix "|||" := js_or (at level 50, left associativity).

(** ** types.ts *)

Record Password := {
  pw_name : jsstring;
  pw_url : option jsstring;
  pw_username : option jsstring;
  pw_password : jsstring;
  pw_note : option jsstring;
  pw_folder : option jsstring
}.

Record CreditCard := {
  cc_name : jsstring;
  cc_cardholderName : option jsstring;
  cc_cardNumber : option jsstring;
  cc_expiryDate : option jsstring;
  cc_cvv : option jsstring;
  cc_note : option jsstring;
  cc_folder : option jsstring
}.

Record SecureNote := {
  sn_name : jsstring;
  sn_note : jsstring;
  sn_folder : option jsstring
}.

(** [NordPassItem = Password | CreditCard | SecureNote] *)
Inductive NordPassItem :=
  | ItemPassword (p : Password)
  | ItemCreditCard (c : CreditCard)
  | ItemSecureNote (n : SecureNote).

(** ** parser.ts: classification and field extraction *)

(** One row of the export: [record.k] is [record !! js "k"]. *)
Abbreviation record := (gmap jsstring jsstring).

Definition prop (r : record) (k : string) : option jsstring := r !! js k.

Definition hasPasswordFields (r : record) : bool :=
  truthy (prop r "password" ||| prop r "username" ||| prop r "url").

Definition hasCreditCardFields (r : record) : bool :=
  truthy (prop r "cardNumber" ||| prop r "card_number" ||| prop r "expiryDate"
          ||| prop r "expiry_date" ||| prop r "cvv" ||| prop r "cardholderName"
          ||| prop r "cardholder_name").

Definition hasSecureNoteFields (r : record) : bool :=
  truthy (prop r "note") && negb (truthy (prop r "password"))
  && negb (truthy (prop r "username")).

Definition inferItemType (r : record) : jsstring :=
  if hasCreditCardFields r then js "creditcard"
  else if hasPasswordFields r then js "password"
  else if hasSecureNoteFields r then js "note"
  else js "password".

Definition parsePassword (r : record) : Password :=
  {| pw_name := js_or_str (prop r "name" ||| prop r "title") [];
     pw_url := prop r "url" ||| prop r "website" ||| None;
     pw_username := prop r "username" ||| prop r "login" ||| None;
     pw_password := js_or_str (prop r "password") [];
     pw_note := prop r "note" ||| prop r "notes" ||| None;
     pw_folder := prop r "folder" ||| prop r "category" ||| None |}.

Definition parseCreditCard (r : record) : CreditCard :=
  {| cc_name := js_or_str (prop r "name" ||| prop r "title") [];
     cc_cardholderName :=
       prop r "cardholderName" ||| prop r "cardholder_name"
       ||| prop r "cardholder" ||| None;
     cc_cardNumber :=
       prop r "cardNumber" ||| prop r "card_number" ||| prop r "number" ||| None;
     cc_expiryDate :=
       prop r "expiryDate" ||| prop r "expiry_date" ||| prop r "expiry" ||| None;
     cc_cvv := prop r "cvv" ||| prop r "cvc" ||| prop r "securityCode" ||| None;
     cc_note := prop r "note" ||| prop r "notes" ||| None;
     cc_folder := prop r "folder" ||| prop r "category" ||| None |}.

Definition parseSecureNote (r : record) : SecureNote :=
  {| sn_name := js_or_str (prop r "name" ||| prop r "title") [];
     sn_note := js_or_str (prop r "note" ||| prop r "notes") [];
     sn_folder := prop r "folder" ||| prop r "category" ||| None |}.

(** [record.type?.toLowerCase() || inferItemType(record)] *)
Definition itemType (r : record) : jsstring :=
  js_or_str (toLowerCase <$> prop r "type") (inferItemType r).

Definition is_one_of (s : jsstring) (names : list string) : bool :=
  existsb (fun n => bool_decide (s = js n)) names.

(** The [switch] of [parseExportFile]: the item a row contributes, or [None]
    when the row is pushed to none of the three arrays. *)
Definition classify (r : record) : option NordPassItem :=
  let t := itemType r in
  if is_one_of t ["password"; "login"]%string then
    Some (ItemPassword (parsePassword r))
  else if is_one_of t ["creditcard"; "credit_card"; "card"]%string then
    Some (ItemCreditCard (parseCreditCard r))
  else if is_one_of t ["note"; "securenote"; "secure_note"]%string then
    Some (ItemSecureNote (parseSecureNote r))
  else if hasPasswordFields r then Some (ItemPassword (parsePassword r))
  else if hasCreditCardFields r then Some (ItemCreditCard (parseCreditCard r))
  else if hasSecureNoteFields r then Some (ItemSecureNote (parseSecureNote r))
  else None.

(** The three arrays [parseExportFile] returns. *)
Record Parsed := {
  passwords : list Password;
  creditCards : list CreditCard;
  secureNotes : list SecureNote
}.

Definition push (acc : Parsed) (r : record) : Parsed :=
  match classify r with
  | Some (ItemPassword p) =>
      {| passwords := passwords acc ++ [p];
         creditCards := creditCards acc;
         secureNotes := secureNotes acc |}
  | Some (ItemCreditCard c) =>
      {| passwords := passwords acc;
         creditCards := creditCards acc ++ [c];
         secureNotes := secureNotes acc |}
  | Some (ItemSecureNote n) =>
      {| passwords := passwords acc;
         creditCards := creditCards acc;
         secureNotes := secureNotes acc ++ [n] |}
  | None => acc
  end.

(** The [for (const record of records)] loop. *)
Definition parseRecords (records : list record) : Parsed :=
  fold_left push records
    {| passwords := []; creditCards := []; secureNotes := [] |}.

(** ** parser.ts: calculateFileHash *)

(** [ToInt32]: the value of a number as a signed 32-bit integer. *)
Definition to_int32 (z : Z) : Z := (z + 2 ^ 31) mod 2 ^ 32 - 2 ^ 31.

(** [a << n] and [a & b] on numbers. *)
Definition js_shl (a n : Z) : Z := to_int32 (Z.shiftl (to_int32 a) (n mod 32)).
Definition js_and (a b : Z) : Z := Z.land (to_int32 a) (to_int32 b).

(** The body of the loop: [hash = (hash << 5) - hash + char; hash = hash & hash]. *)
Definition hash_step (hash char : Z) : Z :=
  let hash := js_shl hash 5 - hash + char in
  js_and hash hash.

(** The loop over [content.charCodeAt(i)], from [hash = 0]. *)
Definition hash_loop (content : jsstring) : Z := fold_left hash_step content 0.

(** [Number.prototype.toString(36)] on integers: digits [0-9a-z], most
    significant first, after a minus sign for a negative number. *)
Definition digit36 (d : Z) : Z := if d <? 10 then 48 + d else 87 + d.

Fixpoint digits36 (fuel : nat) (n : Z) (acc : jsstring) : jsstring :=
  match fuel with
  | O => acc
  | S fuel' =>
      if n <? 36 then digit36 n :: acc
      else digits36 fuel' (n / 36) (digit36 (n mod 36) :: acc)
  end.

(** [n < 2 ^ (1 + log2 n)], and every step divides by 36: the fuel never runs
    out ([digits36_value] below). *)
Definition toString36 (n : Z) : jsstring :=
  if n <? 0 then 45 :: digits36 (S (Z.to_nat (Z.log2 (- n)))) (- n) []
  else digits36 (S (Z.to_nat (Z.log2 n))) n [].

(** [calculateFileHash], given the text [readFileSync(filePath, "utf-8")]
    returned. *)
Definition hash_of_text (content : jsstring) : jsstring :=
  toString36 (hash_loop content).

(** ** Buffers *)

Abbreviation bytes := (list byte).

Definition byte_to_Z (b : byte) : Z := Z.of_N (Byte.to_N b).
Definition byte_of_Z (z : Z) : byte :=
  default x00 (Byte.of_N (Z.to_N (z mod 256))).

(** *** The "hex" encoding of [Buffer] *)

Definition hex_digit (n : Z) : Z := if n <? 10 then 48 + n else 87 + n.

(** The value of a hexadecimal digit, in either case.  The decoder of Node
    looks at the low byte of a code unit only: U+0161 counts as ["a"]. *)
Definition hex_value (c : Z) : option Z :=
  let c := c mod 256 in
  if (48 <=? c) && (c <=? 57) then Some (c - 48)
  else if (97 <=? c) && (c <=? 102) then Some (c - 87)
  else if (65 <=? c) && (c <=? 70) then Some (c - 55)
  else None.

(** [buf.toString("hex")] *)
Fixpoint hex_encode (b : bytes) : jsstring :=
  match b with
  | [] => []
  | x :: b' =>
      hex_digit (byte_to_Z x / 16) :: hex_digit (byte_to_Z x mod 16)
      :: hex_encode b'
  end.

(** [Buffer.from(s, "hex")]: decoding stops at the first pair that is not two
    hexadecimal digits; a trailing single digit is dropped. *)
Fixpoint hex_decode (s : jsstring) : bytes :=
  match s with
  | c1 :: c2 :: s' =>
      match hex_value c1, hex_value c2 with
      | Some h, Some l => byte_of_Z (16 * h + l) :: hex_decode s'
      | _, _ => []
      end
  | _ => []
  end.

(** *** The "utf8" encoding *)

Definition is_high_surrogate (c : Z) : bool := (0xD800 <=? c) && (c <=? 0xDBFF).
Definition is_low_surrogate (c : Z) : bool := (0xDC00 <=? c) && (c <=? 0xDFFF).

(** U+FFFD, which replaces what cannot be encoded or decoded. *)
Definition replacement : bytes := [xef; xbf; xbd].

Definition utf8_2 (c : Z) : bytes :=
  [byte_of_Z (0xC0 + c / 64); byte_of_Z (0x80 + c mod 64)].
Definition utf8_3 (c : Z) : bytes :=
  [byte_of_Z (0xE0 + c / 4096); byte_of_Z (0x80 + c / 64 mod 64);
   byte_of_Z (0x80 + c mod 64)].
Definition utf8_4 (cp : Z) : bytes :=
  [byte_of_Z (0xF0 + cp / 262144); byte_of_Z (0x80 + cp / 4096 mod 64);
   byte_of_Z (0x80 + cp / 64 mod 64); byte_of_Z (0x80 + cp mod 64)].

(** The code point of a surrogate pair. *)
Definition pair_code_point (hi lo : Z) : Z :=
  0x10000 + (hi - 0xD800) * 1024 + (lo - 0xDC00).

(** A string written out as UTF-8 ([Buffer.from(s, "utf8")], the [utf8] input
    encoding of a cipher, [writeFileSync(_, s, "utf-8")]): a surrogate that is
    not half of a pair is written as U+FFFD. *)
Fixpoint utf8_encode (s : jsstring) : bytes :=
  match s with
  | [] => []
  | c :: rest =>
      if c <? 0x80 then byte_of_Z c :: utf8_encode rest
      else if c <? 0x800 then utf8_2 c ++ utf8_encode rest
      else if is_high_surrogate c then
        match rest with
        | c2 :: rest' =>
            if is_low_surrogate c2
            then utf8_4 (pair_code_point c c2) ++ utf8_encode rest'
            else replacement ++ utf8_encode rest
        | [] => replacement
        end
      else if is_low_surrogate c then replacement ++ utf8_encode rest
      else utf8_3 c ++ utf8_encode rest
  end.

Definition in_range (lo hi : Z) (b : byte) : bool :=
  (lo <=? byte_to_Z b) && (byte_to_Z b <=? hi).

(** The six low bits of a continuation byte. *)
Definition low6 (b : byte) : Z := byte_to_Z b - 0x80.

(** The two code units of a code point above U+FFFF. *)
Definition surrogates (cp : Z) : jsstring :=
  [0xD800 + (cp - 0x10000) / 1024; 0xDC00 + (cp - 0x10000) mod 1024].

(** Bytes read as UTF-8 ([buf.toString("utf8")], the [utf8] output encoding of
    a decipher, [readFileSync(_, "utf-8")]): every maximal ill-formed prefix
    of a sequence is read as one U+FFFD. *)
Fixpoint utf8_decode (b : bytes) : jsstring :=
  match b with
  | [] => []
  | b0 :: r0 =>
      let x0 := byte_to_Z b0 in
      if x0 <? 0x80 then x0 :: utf8_decode r0
      else if (0xC2 <=? x0) && (x0 <=? 0xDF) then
        match r0 with
        | b1 :: r1 =>
            if in_range 0x80 0xBF b1
            then ((x0 - 0xC0) * 64 + low6 b1) :: utf8_decode r1
            else 0xFFFD :: utf8_decode r0
        | [] => [0xFFFD]
        end
      else if (0xE0 <=? x0) && (x0 <=? 0xEF) then
        match r0 with
        | b1 :: r1 =>
            if in_range (if x0 =? 0xE0 then 0xA0 else 0x80)
                        (if x0 =? 0xED then 0x9F else 0xBF) b1
            then
              match r1 with
              | b2 :: r2 =>
                  if in_range 0x80 0xBF b2
                  then ((x0 - 0xE0) * 4096 + low6 b1 * 64 + low6 b2)
                       :: utf8_decode r2
                  else 0xFFFD :: utf8_decode r1
              | [] => [0xFFFD]
              end
            else 0xFFFD :: utf8_decode r0
        | [] => [0xFFFD]
        end
      else if (0xF0 <=? x0) && (x0 <=? 0xF4) then
        match r0 with
        | b1 :: r1 =>
            if in_range (if x0 =? 0xF0 then 0x90 else 0x80)
                        (if x0 =? 0xF4 then 0x8F else 0xBF) b1
            then
              match r1 with
              | b2 :: r2 =>
                  if in_range 0x80 0xBF b2
                  then
                    match r2 with
                    | b3 :: r3 =>
                        if in_range 0x80 0xBF b3
                        then surrogates ((x0 - 0xF0) * 262144 + low6 b1 * 4096
                                         + low6 b2 * 64 + low6 b3)
                             ++ utf8_decode r3
                        else 0xFFFD :: utf8_decode r2
                    | [] => [0xFFFD]
                    end
                  else 0xFFFD :: utf8_decode r1
              | [] => [0xFFFD]
              end
            else 0xFFFD :: utf8_decode r0
        | [] => [0xFFFD]
        end
      else 0xFFFD :: utf8_decode r0
  end.

(** [String.prototype.isWellFormed]: code units in range and no surrogate
    outside a pair. *)
Fixpoint isWellFormed (s : jsstring) : bool :=
  match s with
  | [] => true
  | c :: rest =>
      if is_high_surrogate c then
        match rest with
        | c2 :: rest' => is_low_surrogate c2 && isWellFormed rest'
        | [] => false
        end
      else (0 <=? c) && (c <? 0x10000) && negb (is_low_surrogate c)
           && isWellFormed rest
  end.

(** ** JavaScript values that JSON can carry *)

#[warnings="-register-all"]
Inductive json :=
  | JNull
  | JBool (b : bool)
  | JNum (n : Z)
  | JStr (s : jsstring)
  | JArr (items : list json)
  | JObj (fields : list (jsstring * json)).

(** The value of an expression that may be [undefined] ([None]). *)
Definition js_truthy (v : option json) : bool :=
  match v with
  | None | Some JNull => false
  | Some (JBool b) => b
  | Some (JNum n) => negb (n =? 0)
  | Some (JStr s) => negb (bool_decide (s = []))
  | Some (JArr _) | Some (JObj _) => true
  end.

Fixpoint assoc (k : jsstring) (fields : list (jsstring * json)) : option json :=
  match fields with
  | [] => None
  | (k', v) :: fields' => if bool_decide (k = k') then Some v else assoc k fields'
  end.

(** [v.k] for one of the property names the code reads ([iv], [authTag],
    [encrypted], [exportFileHash]): a [TypeError] (outer [None]) on [null],
    [undefined] (inner [None]) on a value that has no such property. *)
Definition get_prop (v : json) (k : string) : option (option json) :=
  match v with
  | JNull => None
  | JObj fields => Some (assoc (js k) fields)
  | _ => Some None
  end.

(** A string of code units. *)
Definition str_ok (s : jsstring) : Prop := Forall (fun c => 0 <= c < 65536) s.

(** A property name that is not an array index (those are enumerated first,
    whatever the insertion order). *)
Definition key_ok (k : jsstring) : Prop :=
  str_ok k /\ match k with c :: _ => ~ (48 <= c <= 57) | [] => True end.

(** The values of [json] that are JavaScript values: numbers are safe
    integers, strings are strings, and the keys of an object are distinct
    and in insertion order. *)
Fixpoint json_ok (v : json) : Prop :=
  match v with
  | JNull | JBool _ => True
  | JNum n => - 2 ^ 53 < n < 2 ^ 53
  | JStr s => str_ok s
  | JArr items => foldr (fun x acc => json_ok x /\ acc) True items
  | JObj fields =>
      NoDup (map fst fields)
      /\ foldr (fun kv acc => key_ok (fst kv) /\ json_ok (snd kv) /\ acc) True fields
  end.

(** ** The runtime

    What Node.js and csv-parse provide.  The laws are those of the real
    services: PBKDF2 returns [keylen] bytes; AES-256-GCM with a 32-byte key
    and a 16-byte nonce decrypts what it encrypted, keeps the length of the
    plaintext and produces a 16-byte tag; [JSON.parse] inverts
    [JSON.stringify], whose output is a non-empty well-formed string; the
    records of csv-parse hold strings. *)
Class Runtime := {
  (** [crypto.pbkdf2Sync(password, salt, iterations, keylen, "sha256")] *)
  pbkdf2Sync : jsstring -> jsstring -> Z -> Z -> bytes;
  pbkdf2Sync_length : forall password salt iterations keylen,
    0 <= keylen ->
    length (pbkdf2Sync password salt iterations keylen) = Z.to_nat keylen;
  (** [createCipheriv("aes-256-gcm", key, iv)], [update], [final],
      [getAuthTag]: the ciphertext and the tag. *)
  gcm_encrypt : bytes -> bytes -> bytes -> bytes * bytes;
  (** [createDecipheriv("aes-256-gcm", key, iv)], [setAuthTag(tag)],
      [update(ciphertext)], [final]: the plaintext, or [None] when any of
      them throws (tag of a length GCM does not allow, tag that does not
      verify). *)
  gcm_decrypt : bytes -> bytes -> bytes -> bytes -> option bytes;
  gcm_correct : forall key iv plaintext,
    length key = 32%nat -> length iv = 16%nat ->
    gcm_decrypt key iv (gcm_encrypt key iv plaintext).2
      (gcm_encrypt key iv plaintext).1 = Some plaintext;
  gcm_length : forall key iv plaintext,
    length key = 32%nat -> length iv = 16%nat ->
    length (gcm_encrypt key iv plaintext).1 = length plaintext;
  gcm_tag_length : forall key iv plaintext,
    length key = 32%nat -> length iv = 16%nat ->
    length (gcm_encrypt key iv plaintext).2 = 16%nat;
  (** [Buffer.from(v, "hex")] for a [v] that is not a string: some objects
      and arrays are accepted, other values throw ([None]). *)
  Buffer_from_value : json -> option bytes;
  (** [JSON.stringify(v, null, indent)] and [JSON.parse(text)] ([None] for a
      [SyntaxError]). *)
  JSON_stringify : Z -> json -> jsstring;
  JSON_parse : jsstring -> option json;
  JSON_roundtrip : forall indent v,
    json_ok v -> JSON_parse (JSON_stringify indent v) = Some v;
  JSON_wellformed : forall indent v,
    json_ok v -> isWellFormed (JSON_stringify indent v) = true;
  JSON_nonempty : forall indent v, JSON_stringify indent v <> [];
  (** [parse(fileContent, {columns: true, ...})] of csv-parse/sync: the
      message of the error it throws, or the records. *)
  csv_parse : jsstring -> jsstring + list record;
  csv_parse_ok : forall text records,
    str_ok text -> csv_parse text = inr records ->
    Forall (map_Forall (fun k v => str_ok k /\ str_ok v)) records
}.

(** ** The world the program runs in *)

(** [os.hostname()], [os.userInfo().username], [os.platform()], [os.arch()]. *)
Record Identity := {
  hostname : jsstring;
  username : jsstring;
  platform : jsstring;
  arch : jsstring
}.

Record World := {
  (** Regular files: path to content. *)
  w_files : gmap jsstring bytes;
  (** The mode last given to a path by [chmodSync]. *)
  w_modes : gmap jsstring Z;
  (** [Date.now()] *)
  w_now : Z;
  (** The random source: an infinite stream and how much of it was used. *)
  w_random : nat -> byte;
  w_random_used : nat;
  w_identity : Identity;
  (** The one place where [getExportFilePath()] of preferences.ts can find
      an export on this machine (the preference, or else what the default
      locations and the directory scan come to), and what
      [getCacheFilePath()] resolves to. *)
  w_export_path : option jsstring;
  w_cache_path : jsstring;
  (** Ghost: how many times the ingestion ran ([parseExportFile] entered). *)
  w_ingestions : nat
}.

Definition set_files (f : gmap jsstring bytes -> gmap jsstring bytes) (w : World) : World :=
  {| w_files := f (w_files w); w_modes := w_modes w; w_now := w_now w;
     w_random := w_random w; w_random_used := w_random_used w;
     w_identity := w_identity w; w_export_path := w_export_path w;
     w_cache_path := w_cache_path w; w_ingestions := w_ingestions w |}.

Definition set_modes (f : gmap jsstring Z -> gmap jsstring Z) (w : World) : World :=
  {| w_files := w_files w; w_modes := f (w_modes w); w_now := w_now w;
     w_random := w_random w; w_random_used := w_random_used w;
     w_identity := w_identity w; w_export_path := w_export_path w;
     w_cache_path := w_cache_path w; w_ingestions := w_ingestions w |}.

Definition set_now (t : Z) (w : World) : World :=
  {| w_files := w_files w; w_modes := w_modes w; w_now := t;
     w_random := w_random w; w_random_used := w_random_used w;
     w_identity := w_identity w; w_export_path := w_export_path w;
     w_cache_path := w_cache_path w; w_ingestions := w_ingestions w |}.

Definition set_identity (i : Identity) (w : World) : World :=
  {| w_files := w_files w; w_modes := w_modes w; w_now := w_now w;
     w_random := w_random w; w_random_used := w_random_used w;
     w_identity := i; w_export_path := w_export_path w;
     w_cache_path := w_cache_path w; w_ingestions := w_ingestions w |}.

Definition use_random (n : nat) (w : World) : World :=
  {| w_files := w_files w; w_modes := w_modes w; w_now := w_now w;
     w_random := w_random w; w_random_used := (w_random_used w + n)%nat;
     w_identity := w_identity w; w_export_path := w_export_path w;
     w_cache_path := w_cache_path w; w_ingestions := w_ingestions w |}.

Definition count_ingestion (w : World) : World :=
  {| w_files := w_files w; w_modes := w_modes w; w_now := w_now w;
     w_random := w_random w; w_random_used := w_random_used w;
     w_identity := w_identity w; w_export_path := w_export_path w;
     w_cache_path := w_cache_path w; w_ingestions := S (w_ingestions w) |}.

(** What is thrown. *)
Inductive exn :=
  (** "Export file not found. Please set the export file path in preferences." *)
  | ExportNotConfigured
  (** "Export file not found at: " followed by the path *)
  | ExportNotFoundAt (path : jsstring)
  (** "Failed to parse CSV file: " followed by the parser's message *)
  | CsvParseFailed (message : jsstring)
  (** "Failed to decrypt cache. The cache may be corrupted or from a
      different system." *)
  | DecryptionError
  (** Thrown by the runtime: no such file, [JSON.parse] on malformed text. *)
  | ENOENT (path : jsstring)
  | SyntaxError.

Inductive outcome (A : Type) :=
  | Return (a : A)
  | Throw (e : exn).
Arguments Return {A} a.
Arguments Throw {A} e.

(** A computation: from the world before to what it returns or throws and
    the world after. *)
Definition M (A : Type) : Type := World -> outcome A * World.

Definition ret {A} (a : A) : M A := fun w => (Return a, w).
Definition throw {A} (e : exn) : M A := fun w => (Throw e, w).
Definition bind {A B} (m : M A) (k : A -> M B) : M B :=
  fun w => match m w with
           | (Return a, w') => k a w'
           | (Throw e, w') => (Throw e, w')
           end.
(** [try { m } catch (e) { h e }] *)
Definition try_catch {A} (m : M A) (h : exn -> M A) : M A :=
  fun w => match m w with
           | (Return a, w') => (Return a, w')
           | (Throw e, w') => h e w'
           end.
Definition get_world : M World := fun w => (Return w, w).
Definition modify (f : World -> World) : M unit := fun w => (Return tt, f w).

Notation "'let!' x := m 'in' k" := (bind m (fun x => k))
  (at level 10, x name, m at level 100, k at level 200).
Notation "'run' m 'then' k" := (bind m (fun _ => k))
  (at level 10, m at level 100, k at level 200).

(** *** fs, os, Date, crypto.randomBytes *)

Definition existsSync (path : jsstring) : M bool :=
  let! w := get_world in ret (bool_decide (is_Some (w_files w !! path))).

(** [fs.readFileSync(path, "utf-8")] *)
Definition readFileSync (path : jsstring) : M jsstring :=
  let! w := get_world in
  match w_files w !! path with
  | Some content => ret (utf8_decode content)
  | None => throw (ENOENT path)
  end.

(** [fs.writeFileSync(path, content, "utf-8")].  Directories and access
    rights are not part of [World]: the write itself does not fail. *)
Definition writeFileSync (path content : jsstring) : M unit :=
  modify (set_files <[path := utf8_encode content]>).

Definition unlinkSync (path : jsstring) : M unit :=
  let! w := get_world in
  match w_files w !! path with
  | Some _ => modify (set_files (delete path))
  | None => throw (ENOENT path)
  end.

(** [fs.chmodSync]: it throws on a path that does not exist.  A system that
    refuses to change the mode of a file that exists is not part of
    [World]. *)
Definition chmodSync (path : jsstring) (mode : Z) : M unit :=
  let! w := get_world in
  match w_files w !! path with
  | Some _ => modify (set_modes <[path := mode]>)
  | None => throw (ENOENT path)
  end.

Definition Date_now : M Z := let! w := get_world in ret (w_now w).

Definition randomBytes (n : nat) : M bytes :=
  let! w := get_world in
  run modify (use_random n) then
  ret (map (w_random w) (seq (w_random_used w) n)).

(** [getExportFilePath()] of preferences.ts as the cache manager sees it.
    Every candidate is tested with [existsSync] before it is returned: the
    answer is the place of the export when the file is there, and [null]
    otherwise. *)
Definition getExportFilePath : M (option jsstring) :=
  let! w := get_world in
  ret (match w_export_path w with
       | Some p => if bool_decide (is_Some (w_files w !! p)) then Some p else None
       | None => None
       end).
Definition getCacheFilePath : M jsstring :=
  let! w := get_world in ret (w_cache_path w).

Section Program.
Context `{RT : Runtime}.

(** ** parser.ts: reading the export *)

Definition parseExportFile (filePath : jsstring) : M Parsed :=
  run modify count_ingestion then
  let! fileContent := readFileSync filePath in
  match csv_parse fileContent with
  | inl errorMessage => throw (CsvParseFailed errorMessage)
  | inr records => ret (parseRecords records)
  end.

Definition calculateFileHash (filePath : jsstring) : M jsstring :=
  let! content := readFileSync filePath in
  ret (hash_of_text content).

(** ** encryption.ts *)

(** [[hostname, username, platform, arch].join("|")] *)
Definition systemInfo (i : Identity) : jsstring :=
  hostname i ++ js "|" ++ username i ++ js "|" ++ platform i ++ js "|" ++ arch i.

Definition salt : jsstring := js "nordpass-raycast-extension-v1".

Definition deriveEncryptionKey : M bytes :=
  let! w := get_world in
  ret (pbkdf2Sync (systemInfo (w_identity w)) salt 100000 32).

(** The object [{ iv, authTag, encrypted }]. *)
Definition token (iv authTag encrypted : jsstring) : json :=
  JObj [(js "iv", JStr iv); (js "authTag", JStr authTag);
        (js "encrypted", JStr encrypted)].

Definition encryptData (data : jsstring) : M jsstring :=
  let! key := deriveEncryptionKey in
  let! iv := randomBytes 16 in
  let c := gcm_encrypt key iv (utf8_encode data) in
  let encrypted := hex_encode c.1 in
  let authTag := c.2 in
  ret (JSON_stringify 0 (token (hex_encode iv) (hex_encode authTag) encrypted)).

(** [Buffer.from(v, "hex")]; [None] when it throws. *)
Definition Buffer_from (v : option json) : option bytes :=
  match v with
  | Some (JStr s) => Some (hex_decode s)
  | Some v => Buffer_from_value v
  | None => None
  end.

(** The input of [decipher.update(encrypted, "hex", "utf8")]: a string of
    even length, decoded as [Buffer.from] does ([None]: it throws on a string
    of odd length and on any other JSON value). *)
Definition update_input (v : option json) : option bytes :=
  match v with
  | Some (JStr s) => if Nat.even (length s) then Some (hex_decode s) else None
  | _ => None
  end.

(** The body of the [try] of [decryptData]; [None] when a step throws. *)
Definition decrypt_with (key : bytes) (encryptedData : jsstring) : option jsstring :=
  data ← JSON_parse encryptedData;
  data_iv ← get_prop data "iv";
  iv ← Buffer_from data_iv;
  data_authTag ← get_prop data "authTag";
  authTag ← Buffer_from data_authTag;
  encrypted ← get_prop data "encrypted";
  ciphertext ← update_input encrypted;
  decrypted ← gcm_decrypt key iv authTag ciphertext;
  Some (utf8_decode decrypted).

Definition decryptData (encryptedData : jsstring) : M jsstring :=
  let! key := deriveEncryptionKey in
  match decrypt_with key encryptedData with
  | Some decrypted => ret decrypted
  | None => throw DecryptionError
  end.

(** [parsed.iv && parsed.authTag && parsed.encrypted], as the condition of
    an [if]; [false] when [JSON.parse] or a property read throws. *)
Definition isEncrypted (data : jsstring) : bool :=
  match JSON_parse data with
  | None => false
  | Some parsed =>
      match get_prop parsed "iv", get_prop parsed "authTag",
            get_prop parsed "encrypted" with
      | Some iv, Some authTag, Some encrypted =>
          js_truthy iv && js_truthy authTag && js_truthy encrypted
      | _, _, _ => false
      end
  end.

(** The failure of [chmodSync] is logged, not thrown. *)
Definition setSecureFilePermissions (filePath : jsstring) : M unit :=
  try_catch (chmodSync filePath 384 (* 0o600 *)) (fun _ => ret tt).

Definition readSecureFile (filePath : jsstring) : M jsstring :=
  let! content := readFileSync filePath in
  if isEncrypted content then decryptData content else ret content.

Definition writeSecureFile (filePath data : jsstring) (encrypt : bool) : M unit :=
  let! content := (if encrypt then encryptData data else ret data) in
  run writeFileSync filePath content then
  setSecureFilePermissions filePath.

(** ** preferences.ts: secureExportFile *)

Definition secureExportFile (filePath : jsstring) : M unit :=
  try_catch
    (let! present := existsSync filePath in
     if present then chmodSync filePath 384 (* 0o600 *) else ret tt)
    (fun _ => ret tt).

(** ** storage.ts *)

Record CachedData := {
  cd_passwords : list Password;
  cd_creditCards : list CreditCard;
  cd_secureNotes : list SecureNote;
  cd_lastUpdated : Z;
  cd_exportFileHash : option jsstring
}.

(** The properties of an object as [JSON.stringify] sees them: a property
    whose value is [undefined] is left out. *)
Definition field (k : string) (v : jsstring) : list (jsstring * json) :=
  [(js k, JStr v)].
Definition optional (k : string) (v : option jsstring) : list (jsstring * json) :=
  match v with
  | Some s => [(js k, JStr s)]
  | None => []
  end.

Definition Password_json (p : Password) : json :=
  JObj (field "type" (js "password") ++ field "name" (pw_name p)
        ++ optional "url" (pw_url p) ++ optional "username" (pw_username p)
        ++ field "password" (pw_password p) ++ optional "note" (pw_note p)
        ++ optional "folder" (pw_folder p)).

Definition CreditCard_json (c : CreditCard) : json :=
  JObj (field "type" (js "creditCard") ++ field "name" (cc_name c)
        ++ optional "cardholderName" (cc_cardholderName c)
        ++ optional "cardNumber" (cc_cardNumber c)
        ++ optional "expiryDate" (cc_expiryDate c) ++ optional "cvv" (cc_cvv c)
        ++ optional "note" (cc_note c) ++ optional "folder" (cc_folder c)).

Definition SecureNote_json (n : SecureNote) : json :=
  JObj (field "type" (js "secureNote") ++ field "name" (sn_name n)
        ++ field "note" (sn_note n) ++ optional "folder" (sn_folder n)).

(** A [CachedData] object as a value: what [JSON.stringify] writes of it and
    what reading its properties gives. *)
Definition CachedData_json (d : CachedData) : json :=
  JObj ([(js "passwords", JArr (map Password_json (cd_passwords d)));
         (js "creditCards", JArr (map CreditCard_json (cd_creditCards d)));
         (js "secureNotes", JArr (map SecureNote_json (cd_secureNotes d)));
         (js "lastUpdated", JNum (cd_lastUpdated d))]
        ++ optional "exportFileHash" (cd_exportFileHash d)).

(** [JSON.parse(cacheContent) as CachedData], or [null]. *)
Definition loadCachedData : M json :=
  let! cachePath := getCacheFilePath in
  try_catch
    (let! present := existsSync cachePath in
     if negb present then ret JNull
     else
       let! cacheContent := readSecureFile cachePath in
       match JSON_parse cacheContent with
       | Some cached => ret cached
       | None => throw SyntaxError
       end)
    (fun _ =>
       run try_catch (unlinkSync cachePath) (fun _ => ret tt) then
       ret JNull).

(** The cache directory is not modelled: the write itself does not fail. *)
Definition saveCachedData (data : CachedData) : M unit :=
  let! cachePath := getCacheFilePath in
  try_catch
    (let jsonData := JSON_stringify 2 (CachedData_json data) in
     writeSecureFile cachePath jsonData true)
    (fun error => throw error).

Definition refreshCache : M CachedData :=
  let! exportFilePath := getExportFilePath in
  match exportFilePath with
  | None => throw ExportNotConfigured
  | Some exportFilePath =>
      let! present := existsSync exportFilePath in
      if negb present then throw (ExportNotFoundAt exportFilePath)
      else
        let! parsed := parseExportFile exportFilePath in
        run secureExportFile exportFilePath then
        let! exportFileHash := calculateFileHash exportFilePath in
        let! now := Date_now in
        let cachedData :=
          {| cd_passwords := passwords parsed;
             cd_creditCards := creditCards parsed;
             cd_secureNotes := secureNotes parsed;
             cd_lastUpdated := now;
             cd_exportFileHash := Some exportFileHash |} in
        run saveCachedData cachedData then
        ret cachedData
  end.

(** [cached.exportFileHash !== currentHash] *)
Definition hash_differs (cached : json) (currentHash : jsstring) : bool :=
  match get_prop cached "exportFileHash" with
  | Some (Some (JStr h)) => negb (bool_decide (h = currentHash))
  | _ => true
  end.

Definition getCachedData (forceRefresh : bool) : M json :=
  let! exportFilePath := getExportFilePath in
  match exportFilePath with
  | None => throw ExportNotConfigured
  | Some exportFilePath =>
      if forceRefresh then
        let! fresh := refreshCache in ret (CachedData_json fresh)
      else
        let! cached := loadCachedData in
        if negb (js_truthy (Some cached)) then
          let! fresh := refreshCache in ret (CachedData_json fresh)
        else
          let! present := existsSync exportFilePath in
          if present then
            let! currentHash := calculateFileHash exportFilePath in
            if hash_differs cached currentHash then
              let! fresh := refreshCache in ret (CachedData_json fresh)
            else ret cached
          else ret cached
  end.

Definition clearCache : M unit :=
  let! cachePath := getCacheFilePath in
  try_catch
    (let! present := existsSync cachePath in
     if present then unlinkSync cachePath else ret tt)
    (fun _ => ret tt).

End Program.

(** * The rest of the program *)

(** ** storage.ts: the accessors *)

Section Accessors.
Context `{RT : Runtime}.

(** [v.k] where [v] is not [null]: [getCachedData] returns a fresh snapshot
    or a cached value that is truthy, never [null], so reading a property of
    what it returns does not throw. *)
Definition read_prop (v : json) (k : string) : option json :=
  default None (get_prop v k).

Definition getPasswords : M (option json) :=
  let! cached := getCachedData false in ret (read_prop cached "passwords").

Definition getCreditCards : M (option json) :=
  let! cached := getCachedData false in ret (read_prop cached "creditCards").

Definition getSecureNotes : M (option json) :=
  let! cached := getCachedData false in ret (read_prop cached "secureNotes").

End Accessors.

(** ** Strings: [startsWith], [endsWith], [includes], [replace] *)

Definition startsWith (s searchString : jsstring) : bool :=
  bool_decide (take (length searchString) s = searchString).

Definition endsWith (s searchString : jsstring) : bool :=
  bool_decide (drop (length s - length searchString) s = searchString).

Fixpoint includes (s searchString : jsstring) : bool :=
  startsWith s searchString
  || match s with
     | [] => false
     | _ :: s' => includes s' searchString
     end.

(** [GetSubstitution] for a pattern that is a string (no captures): in the
    replacement, [$$] is a dollar sign, [$&] the matched text, [$`] and [$']
    the text before and after the match; any other [$] stands for itself. *)
Fixpoint substitution (matched before after replacement : jsstring) : jsstring :=
  match replacement with
  | [] => []
  | c :: t =>
      if c =? 36 then
        match t with
        | [] => [c]
        | d :: t' =>
            if d =? 36 then 36 :: substitution matched before after t'
            else if d =? 38 then matched ++ substitution matched before after t'
            else if d =? 96 then before ++ substitution matched before after t'
            else if d =? 39 then after ++ substitution matched before after t'
            else c :: substitution matched before after t
        end
      else c :: substitution matched before after t
  end.

(** ** preferences.ts *)

(** What preferences.ts reads: the preference, [process.env.HOME], and the
    file system through [existsSync], [readdirSync] and
    [statSync(p).mtime.getTime()] ([None] where the call throws). *)
Record Env := {
  e_exportFilePath : option jsstring;
  e_HOME : option jsstring;
  e_exists : jsstring -> bool;
  e_readdir : jsstring -> option (list jsstring);
  e_mtime : jsstring -> option Z
}.

Definition set_exportFilePath (v : option jsstring) (e : Env) : Env :=
  {| e_exportFilePath := v; e_HOME := e_HOME e; e_exists := e_exists e;
     e_readdir := e_readdir e; e_mtime := e_mtime e |}.

(** The functions of preferences.ts that resolve the export file, in a
    module of their own: [getExportFilePath] above is their result as the
    cache manager sees it. *)
Module Preferences.

Section Resolution.
(** [path.join] *)
Variable path_join : list jsstring -> jsstring.
Variable env : Env.

(** [getPreferences().exportFilePath] *)
Definition getPreferences : jsstring := js_or_str (e_exportFilePath env) [].

(** [process.env.HOME || ""] *)
Definition HOME : jsstring := js_or_str (e_HOME env) [].

(** [filePath.replace("~", HOME)] replaces the first [~], which is the first
    character here. *)
Definition expandTilde (filePath : jsstring) : jsstring :=
  if startsWith filePath (js "~/") then
    substitution (js "~") [] (drop 1 filePath) HOME ++ drop 1 filePath
  else filePath.

(** Evaluated when the module is loaded; [HOME] is taken not to change
    afterwards. *)
Definition DEFAULT_EXPORT_PATHS : list jsstring :=
  [path_join [HOME; js "Downloads"; js "nordpass-export.csv"];
   path_join [HOME; js "Desktop"; js "nordpass-export.csv"];
   path_join [HOME; js "Documents"; js "nordpass-export.csv"]].

(** [sort((a, b) => b.mtime - a.mtime)]: the sort is stable, so it is the
    insertion, from the last element to the first, of each element before
    the first one that is not more recent. *)
Fixpoint insert_recent (x : jsstring * Z) (l : list (jsstring * Z)) :
    list (jsstring * Z) :=
  match l with
  | [] => [x]
  | y :: l' => if x.2 <? y.2 then y :: insert_recent x l' else x :: l
  end.

Definition sort_recent_first (l : list (jsstring * Z)) : list (jsstring * Z) :=
  foldr insert_recent [] l.

(** A file name that ends in ".csv" and contains "nordpass", in any case.
    ([toLowerCase] is exact on ASCII; no other code unit has a lower case
    that holds a character of ".csv" or "nordpass".) *)
Definition looks_like_export (file : jsstring) : bool :=
  endsWith (toLowerCase file) (js ".csv") && includes (toLowerCase file) (js "nordpass").

(** Any exception ([readdirSync], [statSync]) makes the result [null]. *)
Definition findNordPassExportInDirectory (dirPath : jsstring) : option jsstring :=
  if negb (e_exists env dirPath) then None
  else
    files ← e_readdir env dirPath;
    exportFiles ← mapM (fun file =>
                          let p := path_join [dirPath; file] in
                          t ← e_mtime env p; Some (p, t))
                       (filter (fun file => looks_like_export file = true) files);
    match sort_recent_first exportFiles with
    | first :: _ => Some first.1
    | [] => None
    end.

Definition getExportFilePath : option jsstring :=
  let configured :=
    if truthy (Some getPreferences) && e_exists env (expandTilde getPreferences)
    then Some (expandTilde getPreferences) else None in
  match configured with
  | Some p => Some p
  | None =>
      match filter (fun p => e_exists env p = true) DEFAULT_EXPORT_PATHS with
      | p :: _ => Some p
      | [] =>
          match findNordPassExportInDirectory (path_join [HOME; js ".nordpass"]) with
          | Some p => if truthy (Some p) then Some p else None
          | None => None
          end
      end
  end.

(** [filePath || getExportFilePath()], then [if (!pathToCheck) return false]. *)
Definition exportFileExists (filePath : option jsstring) : bool :=
  match (if truthy filePath then filePath else getExportFilePath) with
  | Some (c :: s) => e_exists env (expandTilde (c :: s))
  | _ => false
  end.

End Resolution.

End Preferences.

(** ** The search commands *)

(** [/\s/]: white space and line terminators. *)
Definition isWhiteSpace (c : Z) : bool :=
  (9 <=? c) && (c <=? 13) || (c =? 0x20) || (c =? 0xA0) || (c =? 0x1680)
  || (0x2000 <=? c) && (c <=? 0x200A) || (c =? 0x2028) || (c =? 0x2029)
  || (c =? 0x202F) || (c =? 0x205F) || (c =? 0x3000) || (c =? 0xFEFF).

(** [cardNumber.replace(/\s/g, "")] *)
Definition cleaned (cardNumber : jsstring) : jsstring :=
  filter (fun c => isWhiteSpace c = false) cardNumber.


(** search-secure-notes.tsx; [maxLength] is an integer (100 where the
    function is called). *)
Definition truncateNote (note : jsstring) (maxLength : Z) : jsstring :=
  if Z.of_nat (length note) <=? maxLength then note
  else take (Z.to_nat maxLength) note ++ js "...".

(** [Number.prototype.toString()] on integers below [10 ^ 21] in size. *)
Fixpoint digits10 (fuel : nat) (n : Z) (acc : jsstring) : jsstring :=
  match fuel with
  | O => acc
  | S fuel' =>
      if n <? 10 then (48 + n) :: acc
      else digits10 fuel' (n / 10) ((48 + n mod 10) :: acc)
  end.

Definition toString10 (n : Z) : jsstring :=
  if n <? 0 then 45 :: digits10 (S (Z.to_nat (Z.log2 (- n)))) (- n) []
  else digits10 (S (Z.to_nat (Z.log2 n))) n [].

(** The time of a [Date] is an integer of milliseconds, at most [8.64e15]
    in size. *)
Definition valid_time (t : Z) : Prop := Z.abs t <= 8640000000000000.

(** The double nearest to an integer below [2 ^ 54] in size: the integer
    itself up to [2 ^ 53]; above, the doubles are the even integers, and an
    odd integer goes to the neighbour with the even mantissa. *)
Definition to_double (d : Z) : Z :=
  if Z.abs d <=? 2 ^ 53 then d
  else if Z.even d then d
  else if (d - 1) mod 4 =? 0 then d - 1
  else d + 1.

(** search-passwords.tsx.  [date] is [null] ([None]), an invalid [Date]
    ([Some None]: its time is [NaN], and every comparison with [NaN] is
    false) or a [Date] with a valid time; [now] is the time of [new Date()].
    The subtraction is one of doubles.  The quotients by 60000, 60 and 24
    are taken in doubles and floored: a double of this size that is not a
    multiple of the divisor is further from the next multiple than the
    quotient is from its rounding, so the floor is that of the exact
    quotient. *)
Definition formatLastUpdated (date : option (option Z)) (now : Z) : jsstring :=
  match date with
  | None => []
  | Some None => js "NaNd ago"
  | Some (Some time) =>
      let diffMs := to_double (now - time) in
      let diffMins := diffMs / 60000 in
      if diffMins <? 1 then js "Just now"
      else if diffMins <? 60 then toString10 diffMins ++ js "m ago"
      else
        let diffHours := diffMins / 60 in
        if diffHours <? 24 then toString10 diffHours ++ js "h ago"
        else
          let diffDays := diffHours / 24 in
          toString10 diffDays ++ js "d ago"
  end.

Section Search.
(** [String.prototype.toLowerCase] *)
Variable lower : jsstring -> jsstring.

(** [field?.toLowerCase().includes(searchLower)] *)
Definition field_matches (field : option jsstring) (searchLower : jsstring) : bool :=
  from_option (fun s => includes (lower s) searchLower) false field.

(** The three filters; the items are as types.ts declares them. *)
Definition matchesPassword (searchText : jsstring) (password : Password) : bool :=
  if negb (truthy (Some searchText)) then true
  else
    let searchLower := lower searchText in
    includes (lower (pw_name password)) searchLower
    || field_matches (pw_username password) searchLower
    || field_matches (pw_url password) searchLower
    || field_matches (pw_note password) searchLower.

Definition matchesCreditCard (searchText : jsstring) (card : CreditCard) : bool :=
  if negb (truthy (Some searchText)) then true
  else
    let searchLower := lower searchText in
    includes (lower (cc_name card)) searchLower
    || field_matches (cc_cardholderName card) searchLower
    || field_matches (cc_cardNumber card) searchLower
    || field_matches (cc_note card) searchLower.

Definition matchesSecureNote (searchText : jsstring) (note : SecureNote) : bool :=
  if negb (truthy (Some searchText)) then true
  else
    let searchLower := lower searchText in
    includes (lower (sn_name note)) searchLower
    || includes (lower (sn_note note)) searchLower.

Definition filteredPasswords searchText (passwords : list Password) :=
  filter (fun p => matchesPassword searchText p = true) passwords.
Definition filteredCreditCards searchText (creditCards : list CreditCard) :=
  filter (fun c => matchesCreditCard searchText c = true) creditCards.
Definition filteredSecureNotes searchText (secureNotes : list SecureNote) :=
  filter (fun n => matchesSecureNote searchText n = true) secureNotes.

End Search.

(** * Vocabulary of the statements

    Functions the properties below are stated with: readings of what the
    program computes, closed forms of the worlds it leaves, and the
    well-formedness conditions on its data. *)

(** ** Plain definitions *)

Definition value36 (c : Z) : Z := if c <? 58 then c - 48 else c - 87.

Definition read36 (s : jsstring) (from : Z) : Z :=
  fold_left (fun a c => a * 36 + value36 c) s from.

(** A field as the specification describes it: the synonyms in order, the
    first one that holds a non-empty value wins. *)
Fixpoint first_nonempty (keys : list string) (r : record) : option jsstring :=
  match keys with
  | [] => None
  | k :: keys' =>
      match r !! js k with
      | Some (c :: s) => Some (c :: s)
      | _ => first_nonempty keys' r
      end
  end.

(** A row of the given columns. *)
Definition row (columns : list (string * string)) : record :=
  list_to_map (map (fun kv => (js kv.1, js kv.2)) columns).

Definition machine_a : Identity :=
  {| hostname := js "a|b"; username := js "c";
     platform := js "linux"; arch := js "x64" |}.
Definition machine_b : Identity :=
  {| hostname := js "a"; username := js "b|c";
     platform := js "linux"; arch := js "x64" |}.

(** A row whose names and values are strings. *)
Definition record_ok (r : record) : Prop :=
  map_Forall (fun k v => str_ok k /\ str_ok v) r.

Definition opt_ok (v : option jsstring) : Prop := from_option str_ok True v.

Definition fields_ok (fields : list (jsstring * json)) : Prop :=
  foldr (fun kv acc => key_ok kv.1 /\ json_ok kv.2 /\ acc) True fields.

Definition Password_ok (p : Password) : Prop :=
  str_ok (pw_name p) /\ opt_ok (pw_url p) /\ opt_ok (pw_username p)
  /\ str_ok (pw_password p) /\ opt_ok (pw_note p) /\ opt_ok (pw_folder p).

Definition CreditCard_ok (c : CreditCard) : Prop :=
  str_ok (cc_name c) /\ opt_ok (cc_cardholderName c) /\ opt_ok (cc_cardNumber c)
  /\ opt_ok (cc_expiryDate c) /\ opt_ok (cc_cvv c) /\ opt_ok (cc_note c)
  /\ opt_ok (cc_folder c).

Definition SecureNote_ok (n : SecureNote) : Prop :=
  str_ok (sn_name n) /\ str_ok (sn_note n) /\ opt_ok (sn_folder n).

Definition Parsed_ok (p : Parsed) : Prop :=
  Forall Password_ok (passwords p) /\ Forall CreditCard_ok (creditCards p)
  /\ Forall SecureNote_ok (secureNotes p).

Definition CachedData_ok (d : CachedData) : Prop :=
  Forall Password_ok (cd_passwords d) /\ Forall CreditCard_ok (cd_creditCards d)
  /\ Forall SecureNote_ok (cd_secureNotes d)
  /\ - 2 ^ 53 < cd_lastUpdated d < 2 ^ 53 /\ opt_ok (cd_exportFileHash d).

(** A hexadecimal letter in upper case; other code units are left alone. *)
Definition upper_hex (c : Z) : Z := if (97 <=? c) && (c <=? 102) then c - 32 else c.

(** The string with the character at index [i] in upper case. *)
Definition upper_at (i : nat) (s : jsstring) : jsstring := alter upper_hex i s.

(** The string with bit [k] of the character at index [i] flipped. *)
Definition flip_bit (k : Z) (i : nat) (s : jsstring) : jsstring :=
  alter (fun c => Z.lxor c (2 ^ k)) i s.

(** The item a row contributes to each array. *)
Definition as_password (r : record) : option Password :=
  match classify r with Some (ItemPassword p) => Some p | _ => None end.
Definition as_creditCard (r : record) : option CreditCard :=
  match classify r with Some (ItemCreditCard c) => Some c | _ => None end.
Definition as_secureNote (r : record) : option SecureNote :=
  match classify r with Some (ItemSecureNote n) => Some n | _ => None end.

(** An optional field that holds a value holds a non-empty one. *)
Definition filled (v : option jsstring) : Prop := v <> Some [].

(** A digit of base 36: [0-9a-z]. *)
Definition is_digit36 (c : Z) : Prop := 48 <= c <= 57 \/ 97 <= c <= 122.

(** The digits of a number read back. *)
Definition read10 (s : jsstring) (from : Z) : Z :=
  fold_left (fun a c => a * 10 + (c - 48)) s from.

(** What the scan of a directory looks at. *)
Definition candidates (files : list jsstring) : list jsstring :=
  filter (fun file => Preferences.looks_like_export file = true) files.

(** ** Definitions over the runtime *)

Section Vocabulary.
Context `{RT : Runtime}.

(** The text [encryptData] produces for a nonce, a tag and a ciphertext. *)
Definition token_text (iv authTag ciphertext : bytes) : jsstring :=
  JSON_stringify 0
    (token (hex_encode iv) (hex_encode authTag) (hex_encode ciphertext)).

(** The key of a world: what [deriveEncryptionKey] returns in it. *)
Definition key_of (i : Identity) : bytes :=
  pbkdf2Sync (systemInfo i) salt 100000 32.

(** What decryption is to encryption in AES-GCM, under one key and one
    nonce: it returns a plaintext only for the ciphertext of that plaintext,
    and only when the tag it is given is the tag of that encryption or a
    head of it (the cipher compares as many bytes as it is given); and two
    plaintexts have different ciphertexts.  (That no two ciphertexts have
    the same tag is not part of it, and is not true.) *)
Definition gcm_faithful (key iv : bytes) : Prop :=
  (forall tag ciphertext plaintext,
     gcm_decrypt key iv tag ciphertext = Some plaintext ->
     (gcm_encrypt key iv plaintext).1 = ciphertext
     /\ tag = take (length tag) (gcm_encrypt key iv plaintext).2)
  /\ (forall p q, (gcm_encrypt key iv p).1 = (gcm_encrypt key iv q).1 -> p = q).

(** The nonce [randomBytes(16)] returns in a world. *)
Definition next_iv (w : World) : bytes :=
  map (w_random w) (seq (w_random_used w) 16).

(** What [encryptData data] returns in [w]. *)
Definition token_of (data : jsstring) (w : World) : jsstring :=
  let c := gcm_encrypt (key_of (w_identity w)) (next_iv w) (utf8_encode data) in
  token_text (next_iv w) c.2 c.1.

(** What [writeSecureFile path data true] leaves in the world. *)
Definition written (path data : jsstring) (w : World) : World :=
  set_modes <[path := 384]>
    (set_files <[path := utf8_encode (token_of data w)]> (use_random 16 w)).

(** What [readSecureFile] makes of the content of a file. *)
Definition read_secure (i : Identity) (content : bytes) : option jsstring :=
  let text := utf8_decode content in
  if isEncrypted text then decrypt_with (key_of i) text else Some text.

(** What [loadCachedData] makes of the content of the cache file: [None]
    when reading it fails (decryption or [JSON.parse]). *)
Definition load_result (i : Identity) (content : bytes) : option json :=
  text ← read_secure i content; JSON_parse text.

(** The snapshot a rebuild assembles. *)
Definition snapshot (w : World) (text : jsstring) (records : list record) : CachedData :=
  {| cd_passwords := passwords (parseRecords records);
     cd_creditCards := creditCards (parseRecords records);
     cd_secureNotes := secureNotes (parseRecords records);
     cd_lastUpdated := w_now w;
     cd_exportFileHash := Some (hash_of_text text) |}.

(** The world a successful rebuild leaves. *)
Definition rebuilt (w : World) (p : jsstring) (d : CachedData) : World :=
  written (w_cache_path w) (JSON_stringify 2 (CachedData_json d))
    (set_modes <[p := 384]> (count_ingestion w)).

(** [return refreshCache()] inside [getCachedData]. *)
Definition rebuild : M json :=
  let! fresh := refreshCache in ret (CachedData_json fresh).

End Vocabulary.

(** * A reference runtime: functions

    Small stand-ins for the services of [Runtime] that satisfy its laws (see
    [reference] below): they show that the laws are consistent, and they let
    the program run on concrete worlds.  They are not the real algorithms. *)

Module Reference.

Definition mix (s : jsstring) : Z :=
  fold_left (fun a c => (a * 31 + c) mod 256) s 7.

(** Stands for PBKDF2: [keylen] bytes that depend on password and salt. *)
Definition pbkdf2 (password salt : jsstring) (iterations keylen : Z) : bytes :=
  map (fun i => byte_of_Z (mix (password ++ salt) + Z.of_nat i))
      (seq 0 (Z.to_nat keylen)).

Definition pad (key iv : bytes) : Z := mix (map byte_to_Z (key ++ iv)).

Definition tag_of (key iv ciphertext : bytes) : bytes :=
  map (fun i => byte_of_Z (mix (map byte_to_Z (key ++ iv ++ ciphertext)) + Z.of_nat i))
      (seq 0 16).

(** Stands for AES-256-GCM: a keyed shift of every byte and a keyed checksum
    of the ciphertext as the tag. *)
Definition encrypt (key iv plaintext : bytes) : bytes * bytes :=
  let ciphertext :=
    map (fun b => byte_of_Z ((byte_to_Z b + pad key iv) mod 256)) plaintext in
  (ciphertext, tag_of key iv ciphertext).

Definition decrypt (key iv tag ciphertext : bytes) : option bytes :=
  if bool_decide (map byte_to_Z tag = map byte_to_Z (tag_of key iv ciphertext))
  then Some (map (fun b => byte_of_Z ((byte_to_Z b - pad key iv) mod 256)) ciphertext)
  else None.

(** Stands for JSON: a tag, then a number (sign, binary digits, [;]), the
    units of a string after their count, or the items after their count. *)
Fixpoint pos_bits (p : positive) : jsstring :=
  match p with
  | xH => [59]
  | xO p' => 48 :: pos_bits p'
  | xI p' => 49 :: pos_bits p'
  end.

Fixpoint read_pos (s : jsstring) : option (positive * jsstring) :=
  match s with
  | [] => None
  | c :: s' =>
      if c =? 59 then Some (xH, s')
      else if c =? 48 then prod_map xO id <$> read_pos s'
      else if c =? 49 then prod_map xI id <$> read_pos s'
      else None
  end.

Definition write_Z (z : Z) : jsstring :=
  match z with
  | Z0 => [122]
  | Zpos p => 43 :: pos_bits p
  | Zneg p => 45 :: pos_bits p
  end.

Definition read_Z (s : jsstring) : option (Z * jsstring) :=
  match s with
  | c :: s' =>
      if c =? 122 then Some (0, s')
      else if c =? 43 then prod_map Zpos id <$> read_pos s'
      else if c =? 45 then prod_map Zneg id <$> read_pos s'
      else None
  | [] => None
  end.

(** A printable ASCII unit stands for itself, another one follows a mark. *)
Definition write_unit (c : Z) : jsstring :=
  if (32 <=? c) && (c <? 127) then [c] else 1 :: write_Z c.

Definition read_unit (s : jsstring) : option (Z * jsstring) :=
  match s with
  | c :: s' => if c =? 1 then read_Z s' else Some (c, s')
  | [] => None
  end.

Definition write_list {A} (write : A -> jsstring) (l : list A) : jsstring :=
  write_Z (Z.of_nat (length l)) ++ concat (map write l).

Fixpoint read_items {A} (read : jsstring -> option (A * jsstring)) (n : nat)
    (s : jsstring) : option (list A * jsstring) :=
  match n with
  | O => Some ([], s)
  | S n' =>
      match read s with
      | Some (x, s1) => prod_map (cons x) id <$> read_items read n' s1
      | None => None
      end
  end.

Definition read_list {A} (read : jsstring -> option (A * jsstring))
    (s : jsstring) : option (list A * jsstring) :=
  match read_Z s with
  | Some (n, s1) => read_items read (Z.to_nat n) s1
  | None => None
  end.

Fixpoint write (v : json) : jsstring :=
  match v with
  | JNull => [110]
  | JBool b => [if b then 116 else 102]
  | JNum n => 35 :: write_Z n
  | JStr s => 34 :: write_list write_unit s
  | JArr items => 91 :: write_list write items
  | JObj fields =>
      123 :: write_list
               (fun kv => write_list write_unit kv.1 ++ write kv.2) fields
  end.

Fixpoint read (fuel : nat) (s : jsstring) : option (json * jsstring) :=
  match fuel, s with
  | S fuel', c :: s' =>
      if c =? 110 then Some (JNull, s')
      else if c =? 116 then Some (JBool true, s')
      else if c =? 102 then Some (JBool false, s')
      else if c =? 35 then prod_map JNum id <$> read_Z s'
      else if c =? 34 then prod_map JStr id <$> read_list read_unit s'
      else if c =? 91 then prod_map JArr id <$> read_list (read fuel') s'
      else if c =? 123 then
        prod_map JObj id
        <$> read_list
              (fun s1 =>
                 match read_list read_unit s1 with
                 | Some (k, s2) => prod_map (pair k) id <$> read fuel' s2
                 | None => None
                 end) s'
      else None
  | _, _ => None
  end.

Definition stringify (indent : Z) (v : json) : jsstring := write v.

Definition parse (text : jsstring) : option json :=
  match read (length text) text with
  | Some (v, []) => Some v
  | _ => None
  end.

(** Stands for csv-parse: lines end at a line feed, fields at a comma, the
    first line names the columns; a quotation mark is an error. *)
Fixpoint split_on (sep : Z) (s cur : jsstring) : list jsstring :=
  match s with
  | [] => [reverse cur]
  | c :: s' =>
      if c =? sep then reverse cur :: split_on sep s' []
      else split_on sep s' (c :: cur)
  end.

Definition unit16 (s : jsstring) : jsstring := map (fun c => c mod 65536) s.

Definition record_of (header fields : list jsstring) : record :=
  list_to_map (zip (map unit16 header) (map unit16 fields)).

Definition csv (text : jsstring) : jsstring + list record :=
  if bool_decide (34 ∈ text) then inl (js "Quote Not Closed")
  else
    match filter (fun l => l <> []) (split_on 10 text []) with
    | [] => inr []
    | header :: lines =>
        inr (map (fun l => record_of (split_on 44 header []) (split_on 44 l [])) lines)
    end.

End Reference.

(** * Lemmas about the program *)

(** ** The fingerprint *)

Lemma to_int32_range z : - 2 ^ 31 <= to_int32 z < 2 ^ 31.
Proof.
  unfold to_int32.
  pose proof (Z.mod_pos_bound (z + 2 ^ 31) (2 ^ 32) ltac:(lia)). lia.
Qed.

Lemma to_int32_wrap z : exists q, to_int32 z = z - 2 ^ 32 * q.
Proof.
  exists ((z + 2 ^ 31) / 2 ^ 32). unfold to_int32.
  pose proof (Z.div_mod (z + 2 ^ 31) (2 ^ 32) ltac:(lia)). lia.
Qed.

Lemma hash_step_range h c : - 2 ^ 31 <= hash_step h c < 2 ^ 31.
Proof.
  unfold hash_step, js_and. rewrite Z.land_diag. apply to_int32_range.
Qed.

(** One round is [31 * hash + char] modulo [2 ^ 32]. *)
Lemma hash_step_wrap h c : exists q, hash_step h c = 31 * h + c - 2 ^ 32 * q.
Proof.
  unfold hash_step, js_and, js_shl. rewrite Z.land_diag.
  change (5 mod 32) with 5. rewrite Z.shiftl_mul_pow2 by lia.
  destruct (to_int32_wrap h) as [q1 E1].
  destruct (to_int32_wrap (to_int32 h * 2 ^ 5)) as [q2 E2].
  destruct (to_int32_wrap (to_int32 (to_int32 h * 2 ^ 5) - h + c)) as [q3 E3].
  exists (32 * q1 + q2 + q3).
  change (2 ^ 32) with 4294967296 in *. change (2 ^ 5) with 32 in *. lia.
Qed.

Lemma hash_step_inj_char h c1 c2 :
  0 <= c1 < 65536 -> 0 <= c2 < 65536 ->
  hash_step h c1 = hash_step h c2 -> c1 = c2.
Proof.
  intros H1 H2 E.
  destruct (hash_step_wrap h c1) as [q1 E1].
  destruct (hash_step_wrap h c2) as [q2 E2].
  change (2 ^ 32) with 4294967296 in *. lia.
Qed.

Lemma hash_step_inj_hash h1 h2 c :
  - 2 ^ 31 <= h1 < 2 ^ 31 -> - 2 ^ 31 <= h2 < 2 ^ 31 ->
  hash_step h1 c = hash_step h2 c -> h1 = h2.
Proof.
  intros H1 H2 E.
  destruct (hash_step_wrap h1 c) as [q1 E1].
  destruct (hash_step_wrap h2 c) as [q2 E2].
  change (2 ^ 32) with 4294967296 in *. change (2 ^ 31) with 2147483648 in *.
  lia.
Qed.

Lemma fold_left_step {A B} (f : A -> B -> A) x l a :
  fold_left f (x :: l) a = fold_left f l (f a x).
Proof. reflexivity. Qed.

Lemma fold_hash_step_range s h :
  - 2 ^ 31 <= h < 2 ^ 31 -> - 2 ^ 31 <= fold_left hash_step s h < 2 ^ 31.
Proof.
  revert h. induction s as [|c s IH]; intros h Hh; [exact Hh|].
  rewrite fold_left_step. apply IH, hash_step_range.
Qed.

Lemma fold_hash_step_inj s h1 h2 :
  - 2 ^ 31 <= h1 < 2 ^ 31 -> - 2 ^ 31 <= h2 < 2 ^ 31 -> h1 <> h2 ->
  fold_left hash_step s h1 <> fold_left hash_step s h2.
Proof.
  revert h1 h2.
  induction s as [|c s IH]; intros h1 h2 R1 R2 N; [exact N|].
  rewrite !fold_left_step. apply IH; try apply hash_step_range.
  intros E. apply N. eapply hash_step_inj_hash; eauto.
Qed.

(** Changing one code unit changes the 32-bit hash. *)
Lemma hash_loop_one_unit pre c1 c2 post :
  0 <= c1 < 65536 -> 0 <= c2 < 65536 -> c1 <> c2 ->
  hash_loop (pre ++ c1 :: post) <> hash_loop (pre ++ c2 :: post).
Proof.
  intros H1 H2 N. unfold hash_loop. rewrite !fold_left_app, !fold_left_step.
  apply fold_hash_step_inj; try apply hash_step_range.
  intros E. apply N. eapply hash_step_inj_char; eauto.
Qed.

(** *** [toString(36)] is injective *)

Lemma value36_digit36 d : 0 <= d < 36 -> value36 (digit36 d) = d.
Proof.
  intros H. unfold value36, digit36.
  destruct (d <? 10) eqn:E; [apply Z.ltb_lt in E | apply Z.ltb_ge in E].
  - destruct (48 + d <? 58) eqn:E'; [lia | apply Z.ltb_ge in E'; lia].
  - destruct (87 + d <? 58) eqn:E'; [apply Z.ltb_lt in E'; lia | lia].
Qed.

Lemma digit36_ge d : 0 <= d -> 48 <= digit36 d.
Proof. intros H. unfold digit36. destruct (d <? 10); lia. Qed.

(** With enough fuel the digits read back as the number. *)
Lemma digits36_value fuel : forall n acc,
  0 <= n < 2 ^ Z.of_nat fuel ->
  read36 (digits36 fuel n acc) 0 = read36 acc n.
Proof.
  induction fuel as [|fuel IH]; intros n acc H.
  - simpl in *. replace n with 0 by lia. reflexivity.
  - simpl digits36. destruct (n <? 36) eqn:E.
    + apply Z.ltb_lt in E. unfold read36. simpl.
      rewrite value36_digit36 by lia. reflexivity.
    + apply Z.ltb_ge in E.
      assert (B : 0 <= n / 36 < 2 ^ Z.of_nat fuel).
      { rewrite Nat2Z.inj_succ, Z.pow_succ_r in H by lia.
        split; [apply Z.div_pos; lia|].
        apply Z.div_lt_upper_bound; lia. }
      rewrite IH by exact B. unfold read36. simpl.
      rewrite value36_digit36 by (apply Z.mod_pos_bound; lia).
      f_equal. pose proof (Z.div_mod n 36 ltac:(lia)). lia.
Qed.

Lemma digits36_head fuel : forall n acc,
  0 <= n -> exists c rest, digits36 (S fuel) n acc = c :: rest /\ 48 <= c.
Proof.
  induction fuel as [|fuel IH]; intros n acc H; simpl digits36.
  - destruct (n <? 36); eexists _, _; (split; [reflexivity|]);
      apply digit36_ge; [lia | apply Z.mod_pos_bound; lia].
  - destruct (n <? 36) eqn:E.
    + eexists _, _. split; [reflexivity | apply digit36_ge; lia].
    + apply (IH (n / 36)). apply Z.div_pos; lia.
Qed.

Lemma log2_fuel n : 0 <= n -> 0 <= n < 2 ^ Z.of_nat (S (Z.to_nat (Z.log2 n))).
Proof.
  intros H. rewrite Nat2Z.inj_succ, Z2Nat.id by apply Z.log2_nonneg.
  destruct (Z.eq_dec n 0) as [->|N]; [simpl; lia|].
  pose proof (Z.log2_spec n ltac:(lia)). lia.
Qed.

Lemma toString36_nonneg n :
  0 <= n -> read36 (toString36 n) 0 = n.
Proof.
  intros H. unfold toString36.
  destruct (n <? 0) eqn:E; [apply Z.ltb_lt in E; lia|].
  rewrite digits36_value by (apply log2_fuel; lia). reflexivity.
Qed.

Lemma toString36_inj a b : toString36 a = toString36 b -> a = b.
Proof.
  intros E.
  destruct (Z.ltb_spec a 0) as [Ha|Ha], (Z.ltb_spec b 0) as [Hb|Hb].
  - unfold toString36 in E.
    destruct (Z.ltb_spec a 0); [|lia]. destruct (Z.ltb_spec b 0); [|lia].
    apply (f_equal (fun s => read36 (drop 1 s) 0)) in E. cbv beta in E.
    rewrite !skipn_cons, !drop_0 in E.
    rewrite !digits36_value in E by (apply log2_fuel; lia).
    unfold read36 in E. simpl in E. lia.
  - unfold toString36 in E.
    destruct (Z.ltb_spec a 0); [|lia]. destruct (Z.ltb_spec b 0); [lia|].
    destruct (digits36_head (Z.to_nat (Z.log2 b)) b [] ltac:(lia))
      as (c & rest & E' & Hc).
    rewrite E' in E. injection E as E _. lia.
  - unfold toString36 in E.
    destruct (Z.ltb_spec a 0); [lia|]. destruct (Z.ltb_spec b 0); [|lia].
    destruct (digits36_head (Z.to_nat (Z.log2 a)) a [] ltac:(lia))
      as (c & rest & E' & Hc).
    rewrite E' in E. injection E as E _. lia.
  - rewrite <- (toString36_nonneg a), <- (toString36_nonneg b) by lia.
    rewrite E. reflexivity.
Qed.

(** The fingerprint tells apart two texts that differ in one code unit. *)
Lemma hash_of_text_one_unit pre c1 c2 post :
  0 <= c1 < 65536 -> 0 <= c2 < 65536 -> c1 <> c2 ->
  hash_of_text (pre ++ c1 :: post) <> hash_of_text (pre ++ c2 :: post).
Proof.
  intros H1 H2 N E. apply toString36_inj in E.
  revert E. apply hash_loop_one_unit; assumption.
Qed.

(** ** Bytes, "hex" and "utf8" *)

Ltac dlia := Z.to_euclidean_division_equations; lia.

(** Settles the comparisons of the goal that linear arithmetic decides and
    takes the branches they select. *)
Ltac test1 :=
  match goal with
  | |- context [?a <? ?b] =>
      first [ rewrite (proj2 (Z.ltb_lt a b)) by dlia
            | rewrite (proj2 (Z.ltb_ge a b)) by dlia ]
  | |- context [?a <=? ?b] =>
      first [ rewrite (proj2 (Z.leb_le a b)) by dlia
            | rewrite (proj2 (Z.leb_gt a b)) by dlia ]
  | |- context [?a =? ?b] =>
      first [ rewrite (proj2 (Z.eqb_eq a b)) by dlia
            | rewrite (proj2 (Z.eqb_neq a b)) by dlia ]
  end.
Ltac tests := repeat (test1; cbv beta match delta [andb orb negb]).

(** Takes the branch of the [if] at the head of the left-hand side. *)
Ltac head_test :=
  match goal with
  | |- (if ?c then _ else _) = _ =>
      let H := fresh in
      destruct c eqn:H; [ try (exfalso; lia) | try (exfalso; lia) ]
  end.

Lemma byte_to_Z_range b : 0 <= byte_to_Z b < 256.
Proof.
  unfold byte_to_Z. pose proof (Byte.to_N_bounded b). lia.
Qed.

Lemma byte_to_of_Z z : 0 <= z < 256 -> byte_to_Z (byte_of_Z z) = z.
Proof.
  intros H. unfold byte_to_Z, byte_of_Z. rewrite Z.mod_small by lia.
  destruct (Byte.of_N (Z.to_N z)) as [b|] eqn:E.
  - apply Byte.to_of_N in E. simpl. lia.
  - apply Byte.of_N_None_iff in E. lia.
Qed.

Lemma byte_of_to_Z b : byte_of_Z (byte_to_Z b) = b.
Proof.
  unfold byte_of_Z, byte_to_Z.
  rewrite Z.mod_small by (pose proof (Byte.to_N_bounded b); lia).
  rewrite N2Z.id, Byte.of_to_N. reflexivity.
Qed.

Lemma hex_value_digit n : 0 <= n < 16 -> hex_value (hex_digit n) = Some n.
Proof.
  intros H. unfold hex_value, hex_digit. cbv zeta.
  destruct (Z.ltb_spec n 10); rewrite Z.mod_small by lia;
    tests; simpl; f_equal; lia.
Qed.

Lemma hex_decode_encode b : hex_decode (hex_encode b) = b.
Proof.
  induction b as [|x b IH]; [reflexivity|].
  pose proof (byte_to_Z_range x) as R. cbn [hex_encode hex_decode].
  rewrite !hex_value_digit by dlia. rewrite IH. f_equal.
  rewrite <- (byte_of_to_Z x) at 3. f_equal. dlia.
Qed.

Lemma hex_digit_range n : 0 <= n < 16 -> 48 <= hex_digit n < 128.
Proof. intros H. unfold hex_digit. destruct (n <? 10); lia. Qed.

Lemma hex_encode_range b : Forall (fun c => 48 <= c < 128) (hex_encode b).
Proof.
  induction b as [|x b IH]; [constructor|].
  pose proof (byte_to_Z_range x) as R. cbn [hex_encode].
  repeat constructor; try (apply hex_digit_range; dlia). exact IH.
Qed.

Lemma hex_encode_nil b : hex_encode b = [] -> b = [].
Proof. destruct b; [reflexivity | discriminate]. Qed.

(** *** Decoding one well-formed sequence *)

(** One step of [utf8_decode]. *)
Lemma utf8_decode_cons b0 r0 :
  utf8_decode (b0 :: r0)
  = ltac:(let t := eval cbn [utf8_decode] in (utf8_decode (b0 :: r0)) in exact t).
Proof. reflexivity. Qed.

Lemma utf8_decode_1 b0 r :
  byte_to_Z b0 < 0x80 ->
  utf8_decode (b0 :: r) = byte_to_Z b0 :: utf8_decode r.
Proof. intros H. rewrite utf8_decode_cons. head_test. reflexivity. Qed.

Lemma utf8_decode_2 b0 b1 r :
  0xC2 <= byte_to_Z b0 <= 0xDF -> 0x80 <= byte_to_Z b1 <= 0xBF ->
  utf8_decode (b0 :: b1 :: r)
  = ((byte_to_Z b0 - 0xC0) * 64 + low6 b1) :: utf8_decode r.
Proof.
  intros H0 H1. rewrite utf8_decode_cons. cbv beta match zeta. unfold in_range. repeat head_test. reflexivity.
Qed.

Lemma utf8_decode_3 b0 b1 b2 r :
  0xE0 <= byte_to_Z b0 <= 0xEF ->
  (if byte_to_Z b0 =? 0xE0 then 0xA0 else 0x80) <= byte_to_Z b1
    <= (if byte_to_Z b0 =? 0xED then 0x9F else 0xBF) ->
  0x80 <= byte_to_Z b2 <= 0xBF ->
  utf8_decode (b0 :: b1 :: b2 :: r)
  = ((byte_to_Z b0 - 0xE0) * 4096 + low6 b1 * 64 + low6 b2) :: utf8_decode r.
Proof.
  intros H0 H1 H2. rewrite utf8_decode_cons. cbv beta match zeta.
  unfold in_range.
  destruct (byte_to_Z b0 =? 0xE0) eqn:E0, (byte_to_Z b0 =? 0xED) eqn:E1;
    try lia; repeat head_test; reflexivity.
Qed.

Lemma utf8_decode_4 b0 b1 b2 b3 r :
  0xF0 <= byte_to_Z b0 <= 0xF4 ->
  (if byte_to_Z b0 =? 0xF0 then 0x90 else 0x80) <= byte_to_Z b1
    <= (if byte_to_Z b0 =? 0xF4 then 0x8F else 0xBF) ->
  0x80 <= byte_to_Z b2 <= 0xBF -> 0x80 <= byte_to_Z b3 <= 0xBF ->
  utf8_decode (b0 :: b1 :: b2 :: b3 :: r)
  = surrogates ((byte_to_Z b0 - 0xF0) * 262144 + low6 b1 * 4096
                + low6 b2 * 64 + low6 b3) ++ utf8_decode r.
Proof.
  intros H0 H1 H2 H3. rewrite utf8_decode_cons. cbv beta match zeta.
  unfold in_range.
  destruct (byte_to_Z b0 =? 0xF0) eqn:E0, (byte_to_Z b0 =? 0xF4) eqn:E1;
    try lia; repeat head_test; reflexivity.
Qed.

(** *** Encoding then decoding *)

Lemma decode_utf8_1 c tail :
  0 <= c < 0x80 -> utf8_decode (byte_of_Z c :: tail) = c :: utf8_decode tail.
Proof.
  intros H. rewrite utf8_decode_1; rewrite byte_to_of_Z by lia; [reflexivity | lia].
Qed.

Lemma decode_utf8_2 c tail :
  0x80 <= c < 0x800 -> utf8_decode (utf8_2 c ++ tail) = c :: utf8_decode tail.
Proof.
  intros H. unfold utf8_2. cbn [app].
  rewrite utf8_decode_2; unfold low6; rewrite ?byte_to_of_Z by dlia; try dlia.
  f_equal. dlia.
Qed.

Lemma decode_utf8_3 c tail :
  0x800 <= c < 0x10000 -> ~ (0xD800 <= c <= 0xDFFF) ->
  utf8_decode (utf8_3 c ++ tail) = c :: utf8_decode tail.
Proof.
  intros H N. unfold utf8_3. cbn [app].
  rewrite utf8_decode_3; unfold low6; rewrite ?byte_to_of_Z by dlia; try dlia.
  - f_equal. dlia.
  - destruct (Z.eqb_spec (0xE0 + c / 4096) 0xE0),
      (Z.eqb_spec (0xE0 + c / 4096) 0xED); dlia.
Qed.

Lemma decode_utf8_4 cp tail :
  0x10000 <= cp <= 0x10FFFF ->
  utf8_decode (utf8_4 cp ++ tail) = surrogates cp ++ utf8_decode tail.
Proof.
  intros H. unfold utf8_4. cbn [app].
  rewrite utf8_decode_4; unfold low6; rewrite ?byte_to_of_Z by dlia; try dlia.
  - f_equal. f_equal. dlia.
  - destruct (Z.eqb_spec (0xF0 + cp / 262144) 0xF0),
      (Z.eqb_spec (0xF0 + cp / 262144) 0xF4); dlia.
Qed.

Lemma surrogates_pair c c2 :
  is_high_surrogate c = true -> is_low_surrogate c2 = true ->
  0x10000 <= pair_code_point c c2 <= 0x10FFFF
  /\ surrogates (pair_code_point c c2) = [c; c2].
Proof.
  unfold is_high_surrogate, is_low_surrogate, surrogates, pair_code_point.
  intros H1 H2. split; [lia|]. f_equal; [|f_equal]; dlia.
Qed.

Lemma utf8_encode_cons c rest :
  utf8_encode (c :: rest)
  = ltac:(let t := eval cbn [utf8_encode] in (utf8_encode (c :: rest)) in exact t).
Proof. reflexivity. Qed.

Lemma isWellFormed_cons c rest :
  isWellFormed (c :: rest)
  = ltac:(let t := eval cbn [isWellFormed] in (isWellFormed (c :: rest)) in exact t).
Proof. reflexivity. Qed.

Lemma utf8_decode_encode_bounded n : forall s,
  (length s <= n)%nat -> isWellFormed s = true ->
  utf8_decode (utf8_encode s) = s.
Proof.
  induction n as [|n IH]; intros [|c rest] L W; try reflexivity;
    cbn [length] in L; [lia|].
  rewrite isWellFormed_cons in W. rewrite utf8_encode_cons.
  destruct (is_high_surrogate c) eqn:Hh.
  - destruct rest as [|c2 rest']; [discriminate W|].
    apply andb_true_iff in W as [Hl W]. rewrite Hl.
    destruct (surrogates_pair c c2 Hh Hl) as [R E].
    unfold is_high_surrogate in Hh.
    destruct (Z.ltb_spec c 0x80); [lia|]. destruct (Z.ltb_spec c 0x800); [lia|].
    rewrite decode_utf8_4 by exact R. rewrite E.
    rewrite IH; [reflexivity | cbn [length] in L; lia | exact W].
  - apply andb_true_iff in W as [W W']. apply andb_true_iff in W as [W Hl].
    apply negb_true_iff in Hl. rewrite Hl.
    unfold is_high_surrogate in Hh. unfold is_low_surrogate in Hl.
    assert (Hr : utf8_decode (utf8_encode rest) = rest)
      by (apply IH; [lia | exact W']).
    destruct (Z.ltb_spec c 0x80); [|destruct (Z.ltb_spec c 0x800)].
    + rewrite decode_utf8_1 by lia. congruence.
    + rewrite decode_utf8_2 by lia. congruence.
    + rewrite decode_utf8_3 by lia. congruence.
Qed.

(** What is written as UTF-8 reads back as it was, for a well-formed string. *)
Lemma utf8_decode_encode s :
  isWellFormed s = true -> utf8_decode (utf8_encode s) = s.
Proof. apply (utf8_decode_encode_bounded (length s)). lia. Qed.

Lemma utf8_encode_nil s : utf8_encode s = [] -> s = [].
Proof.
  destruct s as [|c rest]; [reflexivity|]. rewrite utf8_encode_cons.
  unfold utf8_2, utf8_3, utf8_4, replacement.
  repeat match goal with
         | |- context [if ?b then _ else _] => destruct b
         | |- context [match ?l with [] => _ | _ :: _ => _ end] => destruct l
         end; discriminate.
Qed.

(** ** encryption.ts *)

Lemma str_ok_hex b : str_ok (hex_encode b).
Proof.
  eapply Forall_impl; [apply hex_encode_range|]. cbv beta. intros c H. lia.
Qed.

Lemma even_length_hex_encode b : Nat.even (length (hex_encode b)) = true.
Proof.
  induction b as [|x b IH]; [reflexivity|]. cbn [hex_encode length]. exact IH.
Qed.

Lemma length_hex_encode b : length (hex_encode b) = (2 * length b)%nat.
Proof. induction b as [|x b IH]; cbn [hex_encode length]; lia. Qed.

Lemma str_ok_js_iv : key_ok (js "iv") /\ key_ok (js "authTag") /\ key_ok (js "encrypted").
Proof.
  unfold key_ok, str_ok. vm_compute js.
  repeat split; try lia; repeat constructor; lia.
Qed.

Lemma json_ok_token iv authTag encrypted :
  str_ok iv -> str_ok authTag -> str_ok encrypted ->
  json_ok (token iv authTag encrypted).
Proof.
  intros H1 H2 H3. destruct str_ok_js_iv as (K1 & K2 & K3).
  unfold token. cbn [json_ok map fst snd foldr]. split; [|tauto].
  vm_compute js. repeat constructor; rewrite ?list_elem_of_In; cbn [In];
    intuition discriminate.
Qed.

Lemma get_prop_token iv authTag encrypted :
  get_prop (token iv authTag encrypted) "iv" = Some (Some (JStr iv))
  /\ get_prop (token iv authTag encrypted) "authTag" = Some (Some (JStr authTag))
  /\ get_prop (token iv authTag encrypted) "encrypted" = Some (Some (JStr encrypted)).
Proof. repeat split. Qed.

(** A flipped bit: the string stays a string, and a flip above the low byte
    of a character is not seen by the "hex" decoder. *)
Lemma length_flip_bit k i s : length (flip_bit k i s) = length s.
Proof. apply length_alter. Qed.

Lemma lxor_pow2_range c k : 0 <= k < 16 -> 0 <= c < 65536 -> 0 <= Z.lxor c (2 ^ k) < 65536.
Proof.
  intros Hk Hc. assert (P : 0 <= 2 ^ k) by (apply Z.pow_nonneg; lia).
  split; [apply Z.lxor_nonneg; lia|].
  destruct (Z.eq_dec (Z.lxor c (2 ^ k)) 0) as [->|N]; [lia|].
  assert (0 < Z.lxor c (2 ^ k)) by (pose proof (proj2 (Z.lxor_nonneg c (2 ^ k)) ltac:(lia)); lia).
  change 65536 with (2 ^ 16). apply Z.log2_lt_pow2; [assumption|].
  pose proof (Z.log2_lxor c (2 ^ k) ltac:(lia) P) as L.
  rewrite Z.log2_pow2 in L by lia.
  assert (Z.log2 c < 16).
  { destruct (Z.eq_dec c 0) as [->|]; [reflexivity|].
    apply Z.log2_lt_pow2; lia. }
  lia.
Qed.

Lemma str_ok_flip_bit k i s : 0 <= k < 16 -> str_ok s -> str_ok (flip_bit k i s).
Proof.
  unfold str_ok, flip_bit. intros Hk H. apply Forall_alter; [exact H|].
  intros c _ R. apply lxor_pow2_range; assumption.
Qed.

Lemma hex_value_low_byte c d : c mod 256 = d mod 256 -> hex_value c = hex_value d.
Proof. unfold hex_value. intros ->. reflexivity. Qed.

Lemma lxor_pow2_low_byte c k : 8 <= k -> Z.lxor c (2 ^ k) mod 256 = c mod 256.
Proof.
  intros Hk. change 256 with (2 ^ 8). apply Z.bits_inj'. intros n Hn.
  destruct (Z.lt_ge_cases n 8) as [L|G].
  - rewrite !Z.mod_pow2_bits_low by lia. rewrite Z.lxor_spec, Z.pow2_bits_eqb by lia.
    replace (k =? n) with false by lia. apply xorb_false_r.
  - rewrite !Z.mod_pow2_bits_high by lia. reflexivity.
Qed.

Lemma hex_decode_alter f i s :
  (forall c, hex_value (f c) = hex_value c) ->
  hex_decode (alter f i s) = hex_decode s.
Proof.
  intros F. revert i. induction s as [s IH] using (induction_ltof1 _ (@length Z)).
  unfold ltof in IH. intros i.
  destruct s as [|c1 [|c2 s]]; [reflexivity | destruct i; reflexivity |].
  destruct i as [|[|i]]; cbn [alter list_alter hex_decode].
  - rewrite F. reflexivity.
  - rewrite F. reflexivity.
  - change (list_alter f i s) with (alter f i s).
    rewrite IH by (cbn [length]; lia). reflexivity.
Qed.

Lemma hex_decode_flip_high k i s : 8 <= k -> hex_decode (flip_bit k i s) = hex_decode s.
Proof.
  intros Hk. apply hex_decode_alter. intros c.
  apply hex_value_low_byte, lxor_pow2_low_byte, Hk.
Qed.

Section Encryption.
Context `{RT : Runtime}.

Lemma JSON_parse_token_text iv authTag ciphertext :
  JSON_parse (token_text iv authTag ciphertext)
  = Some (token (hex_encode iv) (hex_encode authTag) (hex_encode ciphertext)).
Proof. apply JSON_roundtrip, json_ok_token; apply str_ok_hex. Qed.

Lemma isWellFormed_token_text iv authTag ciphertext :
  isWellFormed (token_text iv authTag ciphertext) = true.
Proof. apply JSON_wellformed, json_ok_token; apply str_ok_hex. Qed.

(** Decryption of the text of a token with any three strings as its
    fields: it throws when the [encrypted] string has odd length, and
    otherwise hands what the three decode to over to AES-GCM and returns its
    answer. *)
Lemma decrypt_with_fields key iv authTag encrypted :
  str_ok iv -> str_ok authTag -> str_ok encrypted ->
  decrypt_with key (JSON_stringify 0 (token iv authTag encrypted))
  = if Nat.even (length encrypted)
    then utf8_decode
           <$> gcm_decrypt key (hex_decode iv) (hex_decode authTag) (hex_decode encrypted)
    else None.
Proof.
  intros Hi Ha He. unfold decrypt_with.
  rewrite JSON_roundtrip by (apply json_ok_token; assumption).
  cbn [mbind option_bind].
  destruct (get_prop_token iv authTag encrypted) as (-> & -> & ->).
  cbn [mbind option_bind Buffer_from update_input].
  destruct (Nat.even (length encrypted)); [|reflexivity].
  cbn [mbind option_bind].
  destruct (gcm_decrypt key (hex_decode iv) (hex_decode authTag) (hex_decode encrypted));
    reflexivity.
Qed.

(** Decryption of a token hands the decoded nonce, tag and ciphertext to
    AES-GCM and returns its answer. *)
Lemma decrypt_with_token_text key iv authTag ciphertext :
  decrypt_with key (token_text iv authTag ciphertext)
  = utf8_decode <$> gcm_decrypt key iv authTag ciphertext.
Proof.
  unfold token_text. rewrite decrypt_with_fields by apply str_ok_hex.
  rewrite even_length_hex_encode, !hex_decode_encode. reflexivity.
Qed.

Lemma length_key_of i : length (key_of i) = 32%nat.
Proof. unfold key_of. rewrite pbkdf2Sync_length by lia. reflexivity. Qed.

Lemma length_next_iv w : length (next_iv w) = 16%nat.
Proof. unfold next_iv. rewrite length_map, length_seq. reflexivity. Qed.

Lemma encryptData_eq data w :
  encryptData data w = (Return (token_of data w), use_random 16 w).
Proof. reflexivity. Qed.

Lemma decryptData_eq text w :
  decryptData text w
  = (match decrypt_with (key_of (w_identity w)) text with
     | Some decrypted => Return decrypted
     | None => Throw DecryptionError
     end, w).
Proof.
  unfold decryptData, deriveEncryptionKey, bind, get_world, ret, throw, key_of.
  destruct (decrypt_with _ text); reflexivity.
Qed.

(** Under the key it was encrypted with, a token decrypts to the text that
    the UTF-8 form of the plaintext reads as. *)
Lemma decryptData_token_of data w w' :
  systemInfo (w_identity w') = systemInfo (w_identity w) ->
  decryptData (token_of data w) w'
  = (Return (utf8_decode (utf8_encode data)), w').
Proof.
  intros E. rewrite decryptData_eq. unfold token_of.
  rewrite decrypt_with_token_text. unfold key_of. rewrite E.
  fold (key_of (w_identity w)).
  rewrite gcm_correct by (apply length_key_of || apply length_next_iv).
  reflexivity.
Qed.

(** [decryptData] on the text of a token with any three strings as its
    fields. *)
Lemma decryptData_fields iv authTag encrypted w :
  str_ok iv -> str_ok authTag -> str_ok encrypted ->
  decryptData (JSON_stringify 0 (token iv authTag encrypted)) w
  = (if Nat.even (length encrypted)
     then match gcm_decrypt (key_of (w_identity w)) (hex_decode iv)
                  (hex_decode authTag) (hex_decode encrypted) with
          | Some plaintext => Return (utf8_decode plaintext)
          | None => Throw DecryptionError
          end
     else Throw DecryptionError, w).
Proof.
  intros Hi Ha He. rewrite decryptData_eq, decrypt_with_fields by assumption.
  destruct (Nat.even (length encrypted)); [|reflexivity].
  destruct (gcm_decrypt _ _ _ _); reflexivity.
Qed.

(** A token whose fields decode to the nonce, the tag and the ciphertext of
    an encryption decrypts to the plaintext. *)
Lemma decryptData_same_bytes x w w' authTag encrypted :
  let key := key_of (w_identity w) in
  let iv := next_iv w in
  let c := gcm_encrypt key iv (utf8_encode x) in
  isWellFormed x = true -> w_identity w' = w_identity w ->
  str_ok authTag -> str_ok encrypted -> Nat.even (length encrypted) = true ->
  hex_decode authTag = c.2 -> hex_decode encrypted = c.1 ->
  decryptData (JSON_stringify 0 (token (hex_encode iv) authTag encrypted)) w'
  = (Return x, w').
Proof.
  intros key iv c W I Ha He Ev Da De.
  rewrite decryptData_fields by (assumption || apply str_ok_hex).
  rewrite Ev, Da, De, hex_decode_encode, I. fold key. unfold c.
  rewrite gcm_correct by (apply length_key_of || apply length_next_iv).
  rewrite utf8_decode_encode by exact W. reflexivity.
Qed.

End Encryption.

(** ** Classification and field extraction *)

(** [first_nonempty] returns the value, as it stands in the row, of the first
    key whose value is not empty; the keys before it are absent or empty. *)
Lemma first_nonempty_spec keys r v :
  first_nonempty keys r = Some v <->
  exists before k after,
    keys = before ++ k :: after /\ r !! js k = Some v /\ v <> []
    /\ Forall (fun k' => r !! js k' = None \/ r !! js k' = Some []) before.
Proof.
  split.
  - revert v. induction keys as [|k keys IH]; intros v H; [discriminate|].
    cbn [first_nonempty] in H. destruct (r !! js k) as [[|c s]|] eqn:E.
    + destruct (IH v H) as (b & k' & a & -> & ? & ? & ?).
      exists (k :: b), k', a. repeat split; auto.
    + injection H as <-. exists [], k, keys. repeat split; auto; discriminate.
    + destruct (IH v H) as (b & k' & a & -> & ? & ? & ?).
      exists (k :: b), k', a. repeat split; auto.
  - intros (b & k & a & -> & E & N & F).
    induction F as [|k' b [Hk|Hk] F IH]; cbn [app first_nonempty].
    + rewrite E. destruct v; [contradiction | reflexivity].
    + rewrite Hk. exact IH.
    + rewrite Hk. exact IH.
Qed.

Lemma or2 r a b :
  prop r a ||| prop r b ||| None = first_nonempty [a; b] r.
Proof.
  unfold prop, js_or, truthy. cbn [first_nonempty].
  destruct (r !! js a) as [[|]|]; destruct (r !! js b) as [[|]|]; reflexivity.
Qed.

Lemma or3 r a b c :
  prop r a ||| prop r b ||| prop r c ||| None = first_nonempty [a; b; c] r.
Proof.
  unfold prop, js_or, truthy. cbn [first_nonempty].
  destruct (r !! js a) as [[|]|]; destruct (r !! js b) as [[|]|];
    destruct (r !! js c) as [[|]|]; reflexivity.
Qed.

Lemma or1_str r a :
  js_or_str (prop r a) [] = default [] (first_nonempty [a] r).
Proof.
  unfold prop, js_or_str. cbn [first_nonempty].
  destruct (r !! js a) as [[|]|]; reflexivity.
Qed.

Lemma or2_str r a b :
  js_or_str (prop r a ||| prop r b) [] = default [] (first_nonempty [a; b] r).
Proof.
  unfold prop, js_or, js_or_str, truthy. cbn [first_nonempty].
  destruct (r !! js a) as [[|]|]; destruct (r !! js b) as [[|]|]; reflexivity.
Qed.

(** ** Round trips through the cipher and through a file *)

Section Codec.
Context `{RT : Runtime}.

Lemma writeSecureFile_eq path data w :
  writeSecureFile path data true w = (Return tt, written path data w).
Proof.
  unfold writeSecureFile, bind. rewrite encryptData_eq.
  unfold writeFileSync, modify, setSecureFilePermissions, try_catch, chmodSync,
    bind, get_world.
  cbn [w_files set_files use_random]. rewrite lookup_insert_eq. reflexivity.
Qed.

Lemma readSecureFile_eq path w :
  readSecureFile path w
  = (match w_files w !! path with
     | Some content =>
         match read_secure (w_identity w) content with
         | Some text => Return text
         | None => Throw DecryptionError
         end
     | None => Throw (ENOENT path)
     end, w).
Proof.
  unfold readSecureFile, readFileSync, bind, get_world, read_secure.
  destruct (w_files w !! path) as [content|]; [|reflexivity].
  unfold ret. destruct (isEncrypted (utf8_decode content)); [|reflexivity].
  apply decryptData_eq.
Qed.

(** A token is taken for encrypted content exactly when its ciphertext is
    not empty. *)
Lemma isEncrypted_token_text iv authTag ciphertext :
  iv <> [] -> authTag <> [] ->
  isEncrypted (token_text iv authTag ciphertext)
  = negb (bool_decide (ciphertext = [])).
Proof.
  intros Hi Ht. unfold isEncrypted. rewrite JSON_parse_token_text.
  destruct (get_prop_token (hex_encode iv) (hex_encode authTag)
              (hex_encode ciphertext)) as (-> & -> & ->).
  cbn [js_truthy].
  rewrite !bool_decide_eq_false_2 by (intros E; apply hex_encode_nil in E; auto).
  cbn [negb andb]. f_equal. apply bool_decide_ext.
  split; [apply hex_encode_nil | intros ->; reflexivity].
Qed.

Lemma nonempty_length {A} (l : list A) n : length l = S n -> l <> [].
Proof. destruct l; [discriminate | discriminate]. Qed.

Lemma read_secure_token_of data w :
  read_secure (w_identity w) (utf8_encode (token_of data w))
  = if bool_decide (data = []) then Some (token_of data w)
    else Some (utf8_decode (utf8_encode data)).
Proof.
  unfold read_secure, token_of.
  set (key := key_of (w_identity w)). set (iv := next_iv w).
  assert (Lk : length key = 32%nat) by apply length_key_of.
  assert (Li : length iv = 16%nat) by apply length_next_iv.
  rewrite utf8_decode_encode by apply isWellFormed_token_text.
  rewrite isEncrypted_token_text.
  2: { eapply nonempty_length, Li. }
  2: { eapply nonempty_length, gcm_tag_length; assumption. }
  assert (E : bool_decide ((gcm_encrypt key iv (utf8_encode data)).1 = [])
              = bool_decide (data = [])).
  { apply bool_decide_ext. split.
    - intros E. apply utf8_encode_nil, length_zero_iff_nil.
      rewrite <- (gcm_length key iv) by assumption. rewrite E. reflexivity.
    - intros ->. apply length_zero_iff_nil.
      rewrite gcm_length by assumption. reflexivity. }
  rewrite E. destruct (bool_decide (data = [])); cbn [negb]; [reflexivity|].
  rewrite decrypt_with_token_text, gcm_correct by assumption. reflexivity.
Qed.

End Codec.

(** ** Strings that reach the cache are strings *)

Ltac split_head :=
  match goal with
  | |- str_ok (if ?c then _ else _) => destruct c eqn:?
  | |- str_ok (match ?l with [] => _ | _ :: _ => _ end) => destruct l
  end.

Ltac split_hyps :=
  repeat match goal with
         | H : context [if ?c then _ else _] |- _ => destruct c eqn:?
         end.

Lemma str_ok_utf8_decode_bounded n : forall b,
  (length b <= n)%nat -> str_ok (utf8_decode b).
Proof.
  induction n as [|n IH]; intros [|b0 r0] L; try (constructor; fail);
    cbn [length] in L; [lia|].
  rewrite utf8_decode_cons. unfold in_range, low6, surrogates.
  pose proof (byte_to_Z_range b0).
  repeat (split_head; cbn [length] in L); unfold str_ok; cbn [app];
    repeat match goal with
           | b : byte |- _ =>
               lazymatch goal with
               | _ : 0 <= byte_to_Z b < 256 |- _ => fail
               | _ => pose proof (byte_to_Z_range b)
               end
           end;
    split_hyps;
    repeat (apply Forall_cons; split; [dlia|]);
    try (constructor; fail);
    try (apply IH; cbn [length]; lia).
Qed.

Lemma str_ok_utf8_decode b : str_ok (utf8_decode b).
Proof. apply (str_ok_utf8_decode_bounded (length b)). lia. Qed.

Lemma digit36_range d : 0 <= d < 36 -> 0 <= digit36 d < 65536.
Proof. intros H. unfold digit36. destruct (d <? 10); lia. Qed.

Lemma str_ok_digits36 fuel : forall n acc,
  0 <= n -> str_ok acc -> str_ok (digits36 fuel n acc).
Proof.
  induction fuel as [|fuel IH]; intros n acc H A; cbn [digits36]; [exact A|].
  destruct (Z.ltb_spec n 36).
  - constructor; [apply digit36_range; lia | exact A].
  - apply IH; [apply Z.div_pos; lia|].
    constructor; [apply digit36_range, Z.mod_pos_bound; lia | exact A].
Qed.

Lemma str_ok_toString36 n : str_ok (toString36 n).
Proof.
  unfold toString36. destruct (Z.ltb_spec n 0).
  - constructor; [lia|]. apply str_ok_digits36; [lia | constructor].
  - apply str_ok_digits36; [lia | constructor].
Qed.

Lemma opt_ok_prop r k : record_ok r -> opt_ok (prop r k).
Proof.
  intros H. unfold prop. destruct (r !! js k) as [v|] eqn:E; [|exact I].
  exact (proj2 (H _ _ E)).
Qed.

Lemma opt_ok_or a b : opt_ok a -> opt_ok b -> opt_ok (a ||| b).
Proof. intros Ha Hb. unfold js_or. destruct (truthy a); assumption. Qed.

Lemma str_ok_or_str a : opt_ok a -> str_ok (js_or_str a []).
Proof.
  intros Ha. destruct a as [[|c s]|]; cbn [js_or_str]; try constructor.
  - apply (Forall_inv Ha).
  - apply (Forall_inv_tail Ha).
Qed.

Lemma str_ok_js s : str_ok (js s).
Proof.
  unfold js, str_ok. apply Forall_map, Forall_true. cbv beta. intros b.
  apply (conj (proj1 (byte_to_Z_range b))). pose proof (byte_to_Z_range b).
  unfold byte_to_Z in *. lia.
Qed.

(** The keys of an object with optional properties are some of the keys of
    its type, in their order. *)
Lemma keys_field k v : map fst (field k v) = [js k].
Proof. reflexivity. Qed.

Lemma keys_optional k v : map fst (optional k v) `sublist_of` [js k].
Proof. destruct v; [reflexivity | apply sublist_nil_l]. Qed.

Lemma fields_ok_app l1 l2 : fields_ok l1 -> fields_ok l2 -> fields_ok (l1 ++ l2).
Proof.
  intros H1 H2. induction l1 as [|kv l1 IH]; [exact H2|].
  cbn [app fields_ok foldr] in *. tauto.
Qed.

Lemma fields_ok_field k v : key_ok (js k) -> str_ok v -> fields_ok (field k v).
Proof. intros Hk Hv. cbn. tauto. Qed.

Lemma fields_ok_optional k v :
  key_ok (js k) -> opt_ok v -> fields_ok (optional k v).
Proof. intros Hk Hv. destruct v; cbn in *; tauto. Qed.

Lemma key_ok_js (k : string) :
  match js k with c :: _ => negb ((48 <=? c) && (c <=? 57)) | [] => true end = true ->
  key_ok (js k).
Proof.
  intros H. split; [apply str_ok_js|]. destruct (js k); [exact I | lia].
Qed.

Lemma items_ok {A} (f : A -> json) (l : list A) :
  Forall (fun x => json_ok (f x)) l ->
  foldr (fun x acc => json_ok x /\ acc) True (map f l).
Proof. induction 1; cbn [map foldr]; tauto. Qed.

Lemma NoDup_keys (l k : list jsstring) :
  l `sublist_of` k -> bool_decide (NoDup k) = true -> NoDup l.
Proof.
  intros S D. eapply sublist_NoDup; [|exact S]. eapply bool_decide_eq_true_1, D.
Qed.

(** The keys written are among [ks], in order, and those are distinct. *)
Ltac keys_nodup ks :=
  rewrite ?map_app, ?keys_field;
  apply (NoDup_keys _ (map js ks)); [|vm_compute; reflexivity];
  cbn [map];
  repeat first [ apply (sublist_app _ [_] _ _); [first [apply keys_optional | reflexivity]|]
               | apply keys_optional | reflexivity ].

Ltac fields_all_ok :=
  repeat first
    [ apply fields_ok_app
    | apply fields_ok_field; [apply key_ok_js; reflexivity | auto using str_ok_js]
    | apply fields_ok_optional; [apply key_ok_js; reflexivity | auto] ].

Lemma json_ok_Password p : Password_ok p -> json_ok (Password_json p).
Proof.
  intros (? & ? & ? & ? & ? & ?). unfold Password_json. cbn [json_ok]. split.
  - keys_nodup ["type"; "name"; "url"; "username"; "password"; "note"; "folder"]%string.
  - fields_all_ok.
Qed.

Lemma json_ok_CreditCard c : CreditCard_ok c -> json_ok (CreditCard_json c).
Proof.
  intros (? & ? & ? & ? & ? & ? & ?). unfold CreditCard_json. cbn [json_ok]. split.
  - keys_nodup ["type"; "name"; "cardholderName"; "cardNumber"; "expiryDate";
                "cvv"; "note"; "folder"]%string.
  - fields_all_ok.
Qed.

Lemma json_ok_SecureNote n : SecureNote_ok n -> json_ok (SecureNote_json n).
Proof.
  intros (? & ? & ?). unfold SecureNote_json. cbn [json_ok]. split.
  - keys_nodup ["type"; "name"; "note"; "folder"]%string.
  - fields_all_ok.
Qed.

Lemma parsePassword_ok r : record_ok r -> Password_ok (parsePassword r).
Proof.
  intros H. unfold Password_ok, parsePassword.
  cbn [pw_name pw_url pw_username pw_password pw_note pw_folder].
  repeat split;
    repeat first [ apply str_ok_or_str | apply opt_ok_or | apply opt_ok_prop
                 | exact H | exact I ].
Qed.

Lemma parseCreditCard_ok r : record_ok r -> CreditCard_ok (parseCreditCard r).
Proof.
  intros H. unfold CreditCard_ok, parseCreditCard.
  cbn [cc_name cc_cardholderName cc_cardNumber cc_expiryDate cc_cvv cc_note
       cc_folder].
  repeat split;
    repeat first [ apply str_ok_or_str | apply opt_ok_or | apply opt_ok_prop
                 | exact H | exact I ].
Qed.

Lemma parseSecureNote_ok r : record_ok r -> SecureNote_ok (parseSecureNote r).
Proof.
  intros H. unfold SecureNote_ok, parseSecureNote.
  cbn [sn_name sn_note sn_folder].
  repeat split;
    repeat first [ apply str_ok_or_str | apply opt_ok_or | apply opt_ok_prop
                 | exact H | exact I ].
Qed.

Lemma classify_cases r :
  classify r = Some (ItemPassword (parsePassword r))
  \/ classify r = Some (ItemCreditCard (parseCreditCard r))
  \/ classify r = Some (ItemSecureNote (parseSecureNote r))
  \/ classify r = None.
Proof.
  unfold classify. cbv zeta.
  repeat match goal with
         | |- context [if ?c then _ else _] => destruct c
         end; auto.
Qed.

Lemma push_ok acc r : Parsed_ok acc -> record_ok r -> Parsed_ok (push acc r).
Proof.
  intros (H1 & H2 & H3) Hr. unfold push.
  destruct (classify_cases r) as [E|[E|[E|E]]]; rewrite E;
    repeat split; cbn [passwords creditCards secureNotes]; auto;
    (apply Forall_app; split; [assumption|]); apply Forall_cons;
    (split; [|constructor]);
    auto using parsePassword_ok, parseCreditCard_ok, parseSecureNote_ok.
Qed.

Lemma parseRecords_ok records :
  Forall record_ok records -> Parsed_ok (parseRecords records).
Proof.
  unfold parseRecords.
  assert (G : forall acc, Parsed_ok acc -> Forall record_ok records ->
                          Parsed_ok (fold_left push records acc)).
  { induction records as [|r records IH]; intros acc Ha Hr; [exact Ha|].
    rewrite fold_left_step. apply IH; [|exact (Forall_inv_tail Hr)].
    apply push_ok; [exact Ha | exact (Forall_inv Hr)]. }
  apply G. repeat split; constructor.
Qed.

Lemma json_ok_CachedData d : CachedData_ok d -> json_ok (CachedData_json d).
Proof.
  intros (H1 & H2 & H3 & H4 & H5). unfold CachedData_json. cbn [json_ok]. split.
  - rewrite map_app. cbn [map fst].
    apply (NoDup_keys _ (map js ["passwords"; "creditCards"; "secureNotes";
                                 "lastUpdated"; "exportFileHash"]%string));
      [|vm_compute; reflexivity].
    apply (sublist_app [_; _; _; _] [_; _; _; _]);
      [reflexivity | apply keys_optional].
  - apply (fields_ok_app [_; _; _; _]).
    + cbn [fields_ok foldr fst snd json_ok].
      repeat split; try (apply key_ok_js; reflexivity); try exact I;
        try lia; apply items_ok;
        (eapply Forall_impl; [eassumption|]); cbv beta;
        auto using json_ok_Password, json_ok_CreditCard, json_ok_SecureNote.
    + apply fields_ok_optional; [apply key_ok_js; reflexivity | exact H5].
Qed.

(** ** The cache manager *)

Section Cache.
Context `{RT : Runtime}.

Lemma loadCachedData_eq w :
  loadCachedData w
  = match w_files w !! w_cache_path w with
    | None => (Return JNull, w)
    | Some content =>
        match load_result (w_identity w) content with
        | Some cached => (Return cached, w)
        | None => (Return JNull, set_files (delete (w_cache_path w)) w)
        end
    end.
Proof.
  unfold loadCachedData, getCacheFilePath.
  cbv [bind get_world ret try_catch existsSync].
  destruct (w_files w !! w_cache_path w) as [content|] eqn:E.
  - rewrite bool_decide_eq_true_2 by eauto. cbn [negb]. cbv beta.
    rewrite readSecureFile_eq, E. unfold load_result.
    destruct (read_secure (w_identity w) content) as [text|];
      cbn [mbind option_bind]; [destruct (JSON_parse text)|];
      unfold unlinkSync; cbv [bind get_world ret throw modify]; rewrite ?E;
      reflexivity.
  - rewrite bool_decide_eq_false_2 by (intros [? ?]; discriminate). reflexivity.
Qed.

Lemma saveCachedData_eq d w :
  saveCachedData d w
  = (Return tt, written (w_cache_path w) (JSON_stringify 2 (CachedData_json d)) w).
Proof.
  unfold saveCachedData, getCacheFilePath. cbv [bind get_world ret try_catch].
  rewrite writeSecureFile_eq. reflexivity.
Qed.

Lemma bind_Return {A B} (m : M A) (k : A -> M B) w a w' :
  m w = (Return a, w') -> bind m k w = k a w'.
Proof. intros E. unfold bind. rewrite E. reflexivity. Qed.

Lemma bind_Throw {A B} (m : M A) (k : A -> M B) w e w' :
  m w = (Throw e, w') -> bind m k w = (Throw e, w').
Proof. intros E. unfold bind. rewrite E. reflexivity. Qed.

Lemma parseExportFile_eq p w content :
  w_files w !! p = Some content ->
  parseExportFile p w
  = (match csv_parse (utf8_decode content) with
     | inl message => Throw (CsvParseFailed message)
     | inr records => Return (parseRecords records)
     end, count_ingestion w).
Proof.
  intros E. unfold parseExportFile, readFileSync.
  cbv [bind modify get_world ret throw]. cbn [w_files count_ingestion].
  rewrite E. destruct (csv_parse (utf8_decode content)); reflexivity.
Qed.

Lemma secureExportFile_eq p w content :
  w_files w !! p = Some content ->
  secureExportFile p w = (Return tt, set_modes <[p := 384]> w).
Proof.
  intros E. unfold secureExportFile, chmodSync, existsSync.
  cbv [bind modify get_world ret throw try_catch].
  rewrite bool_decide_eq_true_2 by eauto. rewrite E. reflexivity.
Qed.

Lemma calculateFileHash_eq p w content :
  w_files w !! p = Some content ->
  calculateFileHash p w = (Return (hash_of_text (utf8_decode content)), w).
Proof.
  intros E. unfold calculateFileHash, readFileSync.
  cbv [bind get_world ret throw]. rewrite E. reflexivity.
Qed.

Lemma existsSync_eq p w :
  existsSync p w = (Return (bool_decide (is_Some (w_files w !! p))), w).
Proof. reflexivity. Qed.

(** The export file is found where the world has it, if the file is there. *)
Lemma getExportFilePath_world w :
  getExportFilePath w
  = (Return match w_export_path w with
            | Some p => match w_files w !! p with Some _ => Some p | None => None end
            | None => None
            end, w).
Proof.
  unfold getExportFilePath. cbv [bind get_world ret].
  destruct (w_export_path w) as [p|]; [|reflexivity].
  destruct (w_files w !! p) eqn:E.
  - rewrite bool_decide_eq_true_2 by eauto. reflexivity.
  - rewrite bool_decide_eq_false_2 by (intros [? ?]; discriminate). reflexivity.
Qed.

Lemma refreshCache_eq w :
  refreshCache w
  = match w_export_path w with
    | None => (Throw ExportNotConfigured, w)
    | Some p =>
        match w_files w !! p with
        | None => (Throw ExportNotConfigured, w)
        | Some content =>
            match csv_parse (utf8_decode content) with
            | inl message => (Throw (CsvParseFailed message), count_ingestion w)
            | inr records =>
                let d := snapshot w (utf8_decode content) records in
                (Return d, rebuilt w p d)
            end
        end
    end.
Proof.
  unfold refreshCache.
  rewrite (bind_Return _ _ _ _ _ (getExportFilePath_world w)).
  destruct (w_export_path w) as [p|]; [|reflexivity].
  destruct (w_files w !! p) as [content|] eqn:E; [|reflexivity].
  rewrite (bind_Return _ _ _ _ _ (existsSync_eq p w)). rewrite E.
  - rewrite bool_decide_eq_true_2 by eauto. cbn [negb].
    destruct (csv_parse (utf8_decode content)) as [message|records] eqn:C.
    + erewrite bind_Throw; [reflexivity|].
      rewrite (parseExportFile_eq p w content E), C. reflexivity.
    + erewrite bind_Return;
        [|rewrite (parseExportFile_eq p w content E), C; reflexivity].
      erewrite bind_Return; [|apply (secureExportFile_eq p _ content), E].
      erewrite bind_Return; [|apply (calculateFileHash_eq p _ content), E].
      erewrite bind_Return; [|reflexivity].
      erewrite bind_Return; [|apply saveCachedData_eq]. reflexivity.
Qed.

Lemma getCachedData_eq forceRefresh w :
  getCachedData forceRefresh w
  = match w_export_path w with
    | None => (Throw ExportNotConfigured, w)
    | Some p =>
        match w_files w !! p with
        | None => (Throw ExportNotConfigured, w)
        | Some _ =>
            if forceRefresh then rebuild w
            else
              match loadCachedData w with
              | (Return cached, w') =>
                  if js_truthy (Some cached) then
                    match w_files w' !! p with
                    | Some content =>
                        if hash_differs cached (hash_of_text (utf8_decode content))
                        then rebuild w' else (Return cached, w')
                    | None => (Return cached, w')
                    end
                  else rebuild w'
              | (Throw e, w') => (Throw e, w')
              end
        end
    end.
Proof.
  unfold getCachedData.
  rewrite (bind_Return _ _ _ _ _ (getExportFilePath_world w)).
  destruct (w_export_path w) as [p|]; [|reflexivity].
  destruct (w_files w !! p) as [source|]; [|reflexivity].
  destruct forceRefresh; [reflexivity|].
  destruct (loadCachedData w) as [[cached|e] w'] eqn:L;
    [erewrite bind_Return by exact L | erewrite bind_Throw by exact L; reflexivity].
  destruct (js_truthy (Some cached)); cbn [negb]; [|reflexivity].
  rewrite (bind_Return _ _ _ _ _ (existsSync_eq p w')).
  destruct (w_files w' !! p) as [content|] eqn:E.
  - rewrite bool_decide_eq_true_2 by eauto.
    rewrite (bind_Return _ _ _ _ _ (calculateFileHash_eq p w' content E)).
    destruct (hash_differs _ _); reflexivity.
  - rewrite bool_decide_eq_false_2 by (intros [? ?]; discriminate). reflexivity.
Qed.

Lemma rebuild_eq w :
  rebuild w
  = match refreshCache w with
    | (Return d, w') => (Return (CachedData_json d), w')
    | (Throw e, w') => (Throw e, w')
    end.
Proof. unfold rebuild, bind, ret. destruct (refreshCache w) as [[d|e] w']; reflexivity. Qed.

(** A rebuild of an existing source file runs the ingestion once. *)
Lemma rebuild_ingests w p content :
  w_export_path w = Some p -> w_files w !! p = Some content ->
  w_ingestions (rebuild w).2 = S (w_ingestions w).
Proof.
  intros Hp Hc. rewrite rebuild_eq, refreshCache_eq, Hp, Hc.
  destruct (csv_parse (utf8_decode content)); reflexivity.
Qed.

End Cache.

Section CacheProperties.
Context `{RT : Runtime}.

Lemma get_prop_exportFileHash d :
  get_prop (CachedData_json d) "exportFileHash"
  = Some (JStr <$> cd_exportFileHash d).
Proof. destruct d as [? ? ? ? [h|]]; reflexivity. Qed.

Lemma snapshot_ok w content records :
  csv_parse (utf8_decode content) = inr records ->
  - 2 ^ 53 < w_now w < 2 ^ 53 ->
  CachedData_ok (snapshot w (utf8_decode content) records).
Proof.
  intros C N.
  pose proof (parseRecords_ok records
                (csv_parse_ok _ _ (str_ok_utf8_decode content) C)) as (P1 & P2 & P3).
  unfold CachedData_ok, snapshot.
  cbn [cd_passwords cd_creditCards cd_secureNotes cd_lastUpdated cd_exportFileHash].
  repeat split; try assumption; try lia. apply str_ok_toString36.
Qed.

(** Reading back the cache file a rebuild wrote gives the snapshot. *)
Lemma load_result_written d w :
  CachedData_ok d ->
  load_result (w_identity w)
    (utf8_encode (token_of (JSON_stringify 2 (CachedData_json d)) w))
  = Some (CachedData_json d).
Proof.
  intros Hd. apply json_ok_CachedData in Hd. unfold load_result.
  rewrite read_secure_token_of.
  rewrite bool_decide_eq_false_2 by apply JSON_nonempty.
  rewrite utf8_decode_encode by (apply JSON_wellformed, Hd).
  cbn [mbind option_bind]. apply JSON_roundtrip, Hd.
Qed.

(** With no cache file, [get(false)] is a rebuild. *)
Lemma getCachedData_no_cache w p :
  w_export_path w = Some p -> w_files w !! w_cache_path w = None ->
  getCachedData false w = rebuild w.
Proof.
  intros Hp Hc. rewrite getCachedData_eq, Hp.
  destruct (w_files w !! p) eqn:E.
  - rewrite loadCachedData_eq, Hc. reflexivity.
  - rewrite rebuild_eq, refreshCache_eq, Hp, E. reflexivity.
Qed.

(** With a readable snapshot and a source file of the same fingerprint,
    [get(false)] returns the snapshot and changes nothing. *)
Lemma getCachedData_fresh w p cached content :
  w_export_path w = Some p ->
  loadCachedData w = (Return cached, w) -> js_truthy (Some cached) = true ->
  w_files w !! p = Some content ->
  get_prop cached "exportFileHash"
  = Some (Some (JStr (hash_of_text (utf8_decode content)))) ->
  getCachedData false w = (Return cached, w).
Proof.
  intros Hp L T E H. rewrite getCachedData_eq, Hp, L, T, E.
  unfold hash_differs. rewrite H.
  rewrite bool_decide_eq_true_2 by reflexivity. reflexivity.
Qed.

(** With a readable snapshot and a source file of another fingerprint,
    [get(false)] is a rebuild. *)
Lemma getCachedData_stale w p cached content h :
  w_export_path w = Some p ->
  loadCachedData w = (Return cached, w) -> js_truthy (Some cached) = true ->
  w_files w !! p = Some content ->
  get_prop cached "exportFileHash" = Some (Some (JStr h)) ->
  h <> hash_of_text (utf8_decode content) ->
  getCachedData false w = rebuild w.
Proof.
  intros Hp L T E H N. rewrite getCachedData_eq, Hp, L, T, E.
  unfold hash_differs. rewrite H.
  rewrite bool_decide_eq_false_2 by exact N. reflexivity.
Qed.

End CacheProperties.

(** ** The rest of the program *)

(** *** parser.ts *)

Lemma fold_push rs : forall acc,
  fold_left push rs acc
  = {| passwords := passwords acc ++ omap as_password rs;
       creditCards := creditCards acc ++ omap as_creditCard rs;
       secureNotes := secureNotes acc ++ omap as_secureNote rs |}.
Proof.
  induction rs as [|r rs IH]; intros acc; cbn [fold_left omap list_omap].
  - rewrite !app_nil_r. destruct acc; reflexivity.
  - rewrite IH. unfold push, as_password, as_creditCard, as_secureNote.
    destruct (classify r) as [[p|c|n]|]; cbn [passwords creditCards secureNotes];
      rewrite <- ?app_assoc; reflexivity.
Qed.

Lemma kept_count rs :
  (length (omap as_password rs) + length (omap as_creditCard rs)
   + length (omap as_secureNote rs)
   = length (filter (fun r => is_Some (classify r)) rs))%nat.
Proof.
  induction rs as [|r rs IH]; [reflexivity|].
  cbn [omap list_omap]. rewrite filter_cons.
  destruct (classify r) as [[p|c|n]|] eqn:E.
  - rewrite decide_True by eauto.
    replace (as_password r) with (Some p) by (unfold as_password; rewrite E; reflexivity).
    replace (as_creditCard r) with (@None CreditCard)
      by (unfold as_creditCard; rewrite E; reflexivity).
    replace (as_secureNote r) with (@None SecureNote)
      by (unfold as_secureNote; rewrite E; reflexivity).
    cbn [length]. lia.
  - rewrite decide_True by eauto.
    replace (as_password r) with (@None Password)
      by (unfold as_password; rewrite E; reflexivity).
    replace (as_creditCard r) with (Some c)
      by (unfold as_creditCard; rewrite E; reflexivity).
    replace (as_secureNote r) with (@None SecureNote)
      by (unfold as_secureNote; rewrite E; reflexivity).
    cbn [length]. lia.
  - rewrite decide_True by eauto.
    replace (as_password r) with (@None Password)
      by (unfold as_password; rewrite E; reflexivity).
    replace (as_creditCard r) with (@None CreditCard)
      by (unfold as_creditCard; rewrite E; reflexivity).
    replace (as_secureNote r) with (Some n)
      by (unfold as_secureNote; rewrite E; reflexivity).
    cbn [length]. lia.
  - rewrite decide_False by (intros [? ?]; discriminate).
    replace (as_password r) with (@None Password)
      by (unfold as_password; rewrite E; reflexivity).
    replace (as_creditCard r) with (@None CreditCard)
      by (unfold as_creditCard; rewrite E; reflexivity).
    replace (as_secureNote r) with (@None SecureNote)
      by (unfold as_secureNote; rewrite E; reflexivity).
    exact IH.
Qed.

Lemma itemType_typed r t :
  r !! js "type" = Some t -> toLowerCase t <> [] -> itemType r = toLowerCase t.
Proof.
  intros E N. unfold itemType, prop. rewrite E. cbn [fmap option_fmap option_map].
  unfold js_or_str. destruct (toLowerCase t); [contradiction | reflexivity].
Qed.

Lemma is_one_of_cases s names :
  is_one_of s names = true -> exists n, In n names /\ s = js n.
Proof.
  unfold is_one_of. rewrite existsb_exists. intros (n & I & B).
  exists n. split; [exact I|]. exact (bool_decide_eq_true_1 _ B).
Qed.

Ltac typed_as r t :=
  let n := fresh "n" in let I := fresh "I" in let E := fresh "E" in
  intros (n & I & E)%is_one_of_cases;
  unfold classify; rewrite (itemType_typed r t) by (assumption || (rewrite E; cbn [In] in I; intuition (subst; discriminate)));
  rewrite E; cbn [In] in I;
  repeat (destruct I as [<-|I]; [vm_compute is_one_of; reflexivity|]); contradiction.

Lemma filled_or_None a : filled (a ||| None).
Proof. unfold filled, js_or, truthy. destruct a as [[|c s]|]; discriminate. Qed.

Lemma is_digit36_digit36 d : 0 <= d < 36 -> is_digit36 (digit36 d).
Proof. intros H. unfold is_digit36, digit36. destruct (Z.ltb_spec d 10); lia. Qed.

Lemma digits36_format fuel : forall n acc (k : nat),
  0 <= n < 36 ^ Z.of_nat (S k) -> Forall is_digit36 acc ->
  Forall is_digit36 (digits36 fuel n acc)
  /\ (length (digits36 fuel n acc) <= S k + length acc)%nat.
Proof.
  induction fuel as [|fuel IH]; intros n acc k H A; cbn [digits36].
  - split; [exact A | lia].
  - destruct (Z.ltb_spec n 36) as [L|L].
    + split; [constructor; [apply is_digit36_digit36; lia | exact A]|].
      cbn [length]. lia.
    + destruct k as [|k].
      { change (36 ^ Z.of_nat 1) with 36 in H. lia. }
      assert (B : 0 <= n / 36 < 36 ^ Z.of_nat (S k)).
      { split; [apply Z.div_pos; lia|].
        apply Z.div_lt_upper_bound; [lia|].
        rewrite (Nat2Z.inj_succ (S k)), Z.pow_succ_r in H by lia. lia. }
      destruct (IH (n / 36) (digit36 (n mod 36) :: acc) k B) as [F Le].
      { constructor; [apply is_digit36_digit36, Z.mod_pos_bound; lia | exact A]. }
      split; [exact F|]. cbn [length] in Le. lia.
Qed.

Lemma digits36_nonempty fuel n acc : 0 <= n -> digits36 (S fuel) n acc <> [].
Proof.
  intros H E. destruct (digits36_head fuel n acc H) as (c & rest & E' & _).
  congruence.
Qed.

Lemma toString36_format n :
  - 2 ^ 31 <= n < 2 ^ 31 ->
  exists digits,
    toString36 n = (if n <? 0 then [45] else []) ++ digits
    /\ digits <> [] /\ (length digits <= 6)%nat /\ Forall is_digit36 digits.
Proof.
  intros H. unfold toString36. destruct (Z.ltb_spec n 0) as [L|L].
  - exists (digits36 (S (Z.to_nat (Z.log2 (- n)))) (- n) []).
    split; [reflexivity|]. split; [apply digits36_nonempty; lia|].
    destruct (digits36_format (S (Z.to_nat (Z.log2 (- n)))) (- n) [] 5) as [F Le];
      [change (36 ^ Z.of_nat 6) with 2176782336; lia | constructor |].
    cbn [length] in Le. split; [lia | exact F].
  - exists (digits36 (S (Z.to_nat (Z.log2 n))) n []).
    split; [reflexivity|]. split; [apply digits36_nonempty; lia|].
    destruct (digits36_format (S (Z.to_nat (Z.log2 n))) n [] 5) as [F Le];
      [change (36 ^ Z.of_nat 6) with 2176782336; lia | constructor |].
    cbn [length] in Le. split; [lia | exact F].
Qed.

Lemma hash_loop_range text : - 2 ^ 31 <= hash_loop text < 2 ^ 31.
Proof. apply fold_hash_step_range. lia. Qed.

Lemma fold_hash_step_shift s : forall h,
  exists q, fold_left hash_step s h
            = 31 ^ Z.of_nat (length s) * h + fold_left hash_step s 0 - 2 ^ 32 * q.
Proof.
  induction s as [|c s IH]; intros h.
  - exists 0. cbn [fold_left length]. change (31 ^ Z.of_nat 0) with 1. lia.
  - rewrite !fold_left_step.
    destruct (IH (hash_step h c)) as (q2 & ->).
    destruct (IH (hash_step 0 c)) as (q4 & ->).
    destruct (hash_step_wrap h c) as (q1 & ->).
    destruct (hash_step_wrap 0 c) as (q3 & ->).
    cbn [length]. rewrite Nat2Z.inj_succ, Z.pow_succ_r by lia.
    set (P := 31 ^ Z.of_nat (length s)).
    exists (P * q1 + q2 - P * q3 - q4). ring.
Qed.

Lemma hash_loop_middle before a b :
  length a = length b -> hash_loop a = hash_loop b ->
  hash_loop (before ++ a) = hash_loop (before ++ b).
Proof.
  unfold hash_loop. intros L E. rewrite !fold_left_app.
  destruct (fold_hash_step_shift a (fold_left hash_step before 0)) as (q1 & E1).
  destruct (fold_hash_step_shift b (fold_left hash_step before 0)) as (q2 & E2).
  pose proof (fold_hash_step_range a (fold_left hash_step before 0)
                (fold_hash_step_range before 0 ltac:(lia))) as R1.
  pose proof (fold_hash_step_range b (fold_left hash_step before 0)
                (fold_hash_step_range before 0 ltac:(lia))) as R2.
  rewrite L, E in E1. lia.
Qed.

(** *** encryption.ts and storage.ts *)

Section Effects.
Context `{RT : Runtime}.

Lemma setSecureFilePermissions_eq p w :
  setSecureFilePermissions p w
  = (Return tt, if bool_decide (is_Some (w_files w !! p))
                then set_modes <[p := 384]> w else w).
Proof.
  cbv [setSecureFilePermissions try_catch chmodSync bind get_world ret modify throw].
  destruct (w_files w !! p) as [c|] eqn:E.
  - rewrite bool_decide_eq_true_2 by eauto. reflexivity.
  - rewrite bool_decide_eq_false_2 by (intros [? ?]; discriminate). reflexivity.
Qed.

Lemma secureExportFile_effect p w :
  secureExportFile p w
  = (Return tt, if bool_decide (is_Some (w_files w !! p))
                then set_modes <[p := 384]> w else w).
Proof.
  cbv [secureExportFile try_catch existsSync chmodSync bind get_world ret modify throw].
  destruct (w_files w !! p) as [c|] eqn:E.
  - rewrite bool_decide_eq_true_2 by eauto. rewrite E. reflexivity.
  - rewrite bool_decide_eq_false_2 by (intros [? ?]; discriminate). reflexivity.
Qed.

Lemma writeSecureFile_plain_eq path data w :
  writeSecureFile path data false w
  = (Return tt, set_modes <[path := 384]> (set_files <[path := utf8_encode data]> w)).
Proof.
  unfold writeSecureFile. cbv [bind ret writeFileSync modify].
  rewrite setSecureFilePermissions_eq. cbn [w_files set_files].
  rewrite lookup_insert_eq, bool_decide_eq_true_2 by eauto. reflexivity.
Qed.

Lemma getCachedData_not_null forceRefresh w cached w' :
  getCachedData forceRefresh w = (Return cached, w') -> cached <> JNull.
Proof.
  rewrite getCachedData_eq. destruct (w_export_path w) as [p|]; [|discriminate].
  destruct (w_files w !! p) as [source|]; [|discriminate].
  assert (R : forall w0, rebuild w0 = (Return cached, w') -> cached <> JNull).
  { intros w0. rewrite rebuild_eq. destruct (refreshCache w0) as [[d|e] w1];
      [|discriminate]. intros [= <- _]. discriminate. }
  destruct forceRefresh; [apply R|].
  destruct (loadCachedData w) as [[c|e] w1]; [|discriminate].
  destruct (js_truthy (Some c)) eqn:T; [|apply R].
  assert (c <> JNull) by (intros ->; discriminate T).
  destruct (w_files w1 !! p) as [content|].
  - destruct (hash_differs _ _); [apply R | congruence].
  - congruence.
Qed.

(** The first [get(false)] with no cache file, and any [get(false)] after it. *)
Lemma get_after_rebuild w p content records :
  w_export_path w = Some p ->
  w_files w !! w_cache_path w = None ->
  w_files w !! p = Some content ->
  csv_parse (utf8_decode content) = inr records ->
  - 2 ^ 53 < w_now w < 2 ^ 53 ->
  let d := snapshot w (utf8_decode content) records in
  let w1 := rebuilt w p d in
  getCachedData false w = (Return (CachedData_json d), w1)
  /\ getCachedData false w1 = (Return (CachedData_json d), w1).
Proof.
  intros Hp Hc He C N d w1.
  assert (Hd : CachedData_ok d) by (apply snapshot_ok; assumption).
  assert (Ne : w_cache_path w <> p) by congruence.
  split.
  - rewrite (getCachedData_no_cache w p Hp Hc), rebuild_eq, refreshCache_eq.
    rewrite Hp, He, C. reflexivity.
  - apply (getCachedData_fresh w1 p _ content);
      [exact Hp | | reflexivity | | apply get_prop_exportFileHash].
    + rewrite loadCachedData_eq.
      change (w_files w1) with
        (<[w_cache_path w :=
             utf8_encode (token_of (JSON_stringify 2 (CachedData_json d)) w)]>
           (w_files w)).
      change (w_cache_path w1) with (w_cache_path w).
      rewrite lookup_insert_eq.
      change (w_identity w1) with (w_identity w).
      rewrite load_result_written by exact Hd. reflexivity.
    + change (w_files w1) with
        (<[w_cache_path w :=
             utf8_encode (token_of (JSON_stringify 2 (CachedData_json d)) w)]>
           (w_files w)).
      rewrite lookup_insert_ne by exact Ne. exact He.
Qed.

Lemma refreshCache_files w q :
  q <> w_cache_path w -> w_files (refreshCache w).2 !! q = w_files w !! q.
Proof.
  intros N. rewrite refreshCache_eq.
  destruct (w_export_path w) as [p|]; [|reflexivity].
  destruct (w_files w !! p) as [content|]; [|reflexivity].
  destruct (csv_parse (utf8_decode content)); [reflexivity|].
  cbv zeta. unfold rebuilt, written.
  cbn [snd w_files set_modes set_files use_random count_ingestion].
  apply lookup_insert_ne. congruence.
Qed.

Lemma rebuild_files w q :
  q <> w_cache_path w -> w_files (rebuild w).2 !! q = w_files w !! q.
Proof.
  intros N. rewrite rebuild_eq. rewrite <- (refreshCache_files w q N).
  destruct (refreshCache w) as [[d|e] w']; reflexivity.
Qed.

Lemma loadCachedData_files w q :
  q <> w_cache_path w -> w_files (loadCachedData w).2 !! q = w_files w !! q.
Proof.
  intros N. rewrite loadCachedData_eq.
  destruct (w_files w !! w_cache_path w) as [c|]; [|reflexivity].
  destruct (load_result (w_identity w) c); [reflexivity|].
  cbn [snd w_files set_files]. apply lookup_delete_ne. congruence.
Qed.

Lemma loadCachedData_cache_path w :
  w_cache_path (loadCachedData w).2 = w_cache_path w.
Proof.
  rewrite loadCachedData_eq.
  destruct (w_files w !! w_cache_path w) as [c|]; [|reflexivity].
  destruct (load_result (w_identity w) c); reflexivity.
Qed.

Lemma getCachedData_files forceRefresh w q :
  q <> w_cache_path w -> w_files (getCachedData forceRefresh w).2 !! q = w_files w !! q.
Proof.
  intros N. rewrite getCachedData_eq.
  destruct (w_export_path w) as [p|]; [|reflexivity].
  destruct (w_files w !! p) as [source|]; [|reflexivity].
  destruct forceRefresh; [apply rebuild_files, N|].
  pose proof (loadCachedData_files w q N) as L.
  pose proof (loadCachedData_cache_path w) as C.
  destruct (loadCachedData w) as [[cached|e] w']; cbn [snd] in L, C; [|exact L].
  assert (R : w_files (rebuild w').2 !! q = w_files w !! q)
    by (rewrite rebuild_files by congruence; exact L).
  destruct (js_truthy (Some cached)); [|exact R].
  destruct (w_files w' !! p) as [content|]; [|exact L].
  destruct (hash_differs _ _); [exact R | exact L].
Qed.

End Effects.

(** *** preferences.ts *)

Lemma substitution_plain matched before after replacement :
  36 ∉ replacement -> substitution matched before after replacement = replacement.
Proof.
  induction replacement as [|c t IH]; intros N; [reflexivity|].
  cbn [substitution]. apply not_elem_of_cons in N as [N1 N2].
  destruct (Z.eqb_spec c 36); [congruence|]. rewrite IH by exact N2. reflexivity.
Qed.

Lemma startsWith_app s rest : startsWith (s ++ rest) s = true.
Proof.
  unfold startsWith. apply bool_decide_eq_true_2.
  rewrite take_app_length. reflexivity.
Qed.

Section Scan.
Variable path_join : list jsstring -> jsstring.
Variable env : Env.

Lemma insert_recent_perm x l : Preferences.insert_recent x l ≡ₚ x :: l.
Proof.
  induction l as [|y l IH]; cbn [Preferences.insert_recent]; [reflexivity|].
  destruct (x.2 <? y.2); [|reflexivity].
  rewrite IH. apply Permutation_swap.
Qed.

Lemma sort_recent_first_perm l : Preferences.sort_recent_first l ≡ₚ l.
Proof.
  induction l as [|x l IH]; [reflexivity|].
  cbn [Preferences.sort_recent_first foldr].
  rewrite insert_recent_perm. fold (Preferences.sort_recent_first l).
  rewrite IH. reflexivity.
Qed.

Lemma insert_recent_head x l first rest :
  (forall y, head l = Some y -> forall z, z ∈ l -> z.2 <= y.2) ->
  Preferences.insert_recent x l = first :: rest ->
  forall z, z ∈ x :: l -> z.2 <= first.2.
Proof.
  intros H. destruct l as [|y l]; cbn [Preferences.insert_recent].
  - intros [= <- <-] z ->%list_elem_of_singleton. lia.
  - specialize (H y eq_refl). destruct (Z.ltb_spec x.2 y.2) as [L|L].
    + intros [= <- <-] z [->|I]%elem_of_cons; [lia | apply H, I].
    + intros [= <- <-] z [->|I]%elem_of_cons; [lia|].
      specialize (H z I). lia.
Qed.

Lemma sort_recent_first_head l : forall first rest,
  Preferences.sort_recent_first l = first :: rest ->
  forall z, z ∈ l -> z.2 <= first.2.
Proof.
  induction l as [|x l IH]; intros first rest; [discriminate|].
  cbn [Preferences.sort_recent_first foldr]. fold (Preferences.sort_recent_first l).
  intros S z Hz.
  apply (insert_recent_head x (Preferences.sort_recent_first l) first rest);
    [|exact S|].
  - intros y Hy z' Hz'.
    destruct (Preferences.sort_recent_first l) as [|y' l'] eqn:E; [discriminate|].
    injection Hy as ->. apply (IH y l' eq_refl).
    rewrite <- sort_recent_first_perm, E. exact Hz'.
  - rewrite sort_recent_first_perm. exact Hz.
Qed.

Lemma scan_eq dirPath files :
  e_exists env dirPath = true -> e_readdir env dirPath = Some files ->
  Preferences.findNordPassExportInDirectory path_join env dirPath
  = exportFiles ← mapM (fun file =>
                          t ← e_mtime env (path_join [dirPath; file]);
                          Some (path_join [dirPath; file], t))
                       (candidates files);
    match Preferences.sort_recent_first exportFiles with
    | first :: _ => Some first.1
    | [] => None
    end.
Proof.
  intros E R. unfold Preferences.findNordPassExportInDirectory.
  rewrite E, R. reflexivity.
Qed.

Lemma scan_found dirPath p :
  Preferences.findNordPassExportInDirectory path_join env dirPath = Some p ->
  exists files file t,
    e_exists env dirPath = true /\ e_readdir env dirPath = Some files
    /\ file ∈ candidates files /\ p = path_join [dirPath; file]
    /\ e_mtime env p = Some t
    /\ forall g, g ∈ candidates files ->
         exists t', e_mtime env (path_join [dirPath; g]) = Some t' /\ t' <= t.
Proof.
  unfold Preferences.findNordPassExportInDirectory.
  destruct (e_exists env dirPath) eqn:E; [|discriminate]. cbn [negb].
  destruct (e_readdir env dirPath) as [files|] eqn:R; [|discriminate].
  cbn [mbind option_bind]. fold (candidates files).
  destruct (mapM _ (candidates files)) as [exportFiles|] eqn:M; [|discriminate].
  cbn [mbind option_bind].
  destruct (Preferences.sort_recent_first exportFiles) as [|first rest] eqn:S;
    [discriminate|].
  intros [= <-]. apply mapM_Some in M.
  assert (I : first ∈ exportFiles).
  { rewrite <- sort_recent_first_perm, S. left. }
  apply list_elem_of_lookup in I as (i & Hi).
  destruct (Forall2_lookup_r _ _ _ _ _ M Hi) as (file & Hf & Ht).
  destruct (e_mtime env (path_join [dirPath; file])) as [t|] eqn:T; [|discriminate].
  cbn [mbind option_bind] in Ht. injection Ht as <-.
  exists files, file, t. cbn [fst]. repeat split; try assumption.
  { apply list_elem_of_lookup. eauto. }
  intros g Hg. apply list_elem_of_lookup in Hg as (j & Hj).
  destruct (Forall2_lookup_l _ _ _ _ _ M Hj) as (y & Hy & Hgt).
  destruct (e_mtime env (path_join [dirPath; g])) as [t'|]; [|discriminate].
  cbn [mbind option_bind] in Hgt. injection Hgt as <-.
  exists t'. split; [reflexivity|].
  apply (sort_recent_first_head exportFiles _ rest S (path_join [dirPath; g], t')).
  apply list_elem_of_lookup. eauto.
Qed.

Lemma scan_dangling dirPath files g :
  e_readdir env dirPath = Some files -> g ∈ candidates files ->
  e_mtime env (path_join [dirPath; g]) = None ->
  Preferences.findNordPassExportInDirectory path_join env dirPath = None.
Proof.
  intros R Hg T. unfold Preferences.findNordPassExportInDirectory.
  destruct (e_exists env dirPath); [|reflexivity]. cbn [negb]. rewrite R.
  cbn [mbind option_bind]. fold (candidates files).
  destruct (mapM _ (candidates files)) as [exportFiles|] eqn:M; [|reflexivity].
  exfalso. apply mapM_Some in M. apply list_elem_of_lookup in Hg as (j & Hj).
  destruct (Forall2_lookup_l _ _ _ _ _ M Hj) as (y & _ & Hy).
  rewrite T in Hy. discriminate.
Qed.

End Scan.

Section Detection.
Variable path_join : list jsstring -> jsstring.
Variable env : Env.

Lemma getExportFilePath_without_preference :
  Preferences.getExportFilePath path_join (set_exportFilePath None env)
  = match filter (fun p => e_exists env p = true)
            (Preferences.DEFAULT_EXPORT_PATHS path_join env) with
    | p :: _ => Some p
    | [] =>
        match Preferences.findNordPassExportInDirectory path_join env
                (path_join [Preferences.HOME env; js ".nordpass"]) with
        | Some p => if truthy (Some p) then Some p else None
        | None => None
        end
    end.
Proof. reflexivity. Qed.

Lemma getExportFilePath_eq :
  Preferences.getExportFilePath path_join env
  = if truthy (Some (Preferences.getPreferences env))
       && e_exists env (Preferences.expandTilde env (Preferences.getPreferences env))
    then Some (Preferences.expandTilde env (Preferences.getPreferences env))
    else Preferences.getExportFilePath path_join (set_exportFilePath None env).
Proof.
  rewrite getExportFilePath_without_preference. unfold Preferences.getExportFilePath.
  destruct (truthy _ && e_exists env _); reflexivity.
Qed.

Lemma getExportFilePath_exists p :
  (forall q t, e_mtime env q = Some t -> e_exists env q = true) ->
  Preferences.getExportFilePath path_join env = Some p -> e_exists env p = true.
Proof.
  intros Coh. rewrite getExportFilePath_eq.
  destruct (truthy _ && e_exists env _) eqn:C.
  - intros [= <-]. apply andb_true_iff in C. tauto.
  - rewrite getExportFilePath_without_preference.
    destruct (filter _ _) as [|q l] eqn:F.
    + destruct (Preferences.findNordPassExportInDirectory _ _ _) as [q|] eqn:S;
        [|discriminate].
      destruct (truthy (Some q)); [|discriminate]. intros [= <-].
      destruct (scan_found path_join env _ q S) as (_ & _ & t & _ & _ & _ & _ & T & _).
      exact (Coh q t T).
    + intros [= <-].
      assert (I : q ∈ filter (fun p => e_exists env p = true)
                       (Preferences.DEFAULT_EXPORT_PATHS path_join env))
        by (rewrite F; left).
      apply list_elem_of_filter in I. tauto.
Qed.

End Detection.

(** *** The search commands *)

Lemma startsWith_spec s t : startsWith s t = true <-> exists post, s = t ++ post.
Proof.
  unfold startsWith. rewrite bool_decide_eq_true. split.
  - intros E. exists (drop (length t) s). rewrite <- E at 1. symmetry. apply take_drop.
  - intros (post & ->). apply take_app_length.
Qed.

Lemma includes_spec s t :
  includes s t = true <-> exists pre post, s = pre ++ t ++ post.
Proof.
  induction s as [|c s IH]; cbn [includes]; rewrite orb_true_iff, startsWith_spec.
  - split.
    + intros [(post & E)|]; [|discriminate]. exists [], post. exact E.
    + intros (pre & post & E). left. destruct pre; [|discriminate]. eauto.
  - rewrite IH. split.
    + intros [(post & E)|(pre & post & E)].
      * exists [], post. exact E.
      * exists (c :: pre), post. rewrite E. reflexivity.
    + intros (pre & post & E). destruct pre as [|c' pre].
      * left. eauto.
      * right. injection E as -> E. eauto.
Qed.

Lemma includes_trans a b c :
  includes a b = true -> includes b c = true -> includes a c = true.
Proof.
  rewrite !includes_spec. intros (p1 & q1 & ->) (p2 & q2 & ->).
  exists (p1 ++ p2), (q2 ++ q1). rewrite <- !app_assoc. reflexivity.
Qed.

Lemma length_cleaned s : (length (cleaned s) <= length s)%nat.
Proof. apply length_filter. Qed.

Lemma cleaned_no_space s : Forall (fun c => isWhiteSpace c = false) (cleaned s).
Proof. apply Forall_forall. intros c I. apply list_elem_of_filter in I. tauto. Qed.


Lemma digits10_value fuel : forall n acc,
  0 <= n < 2 ^ Z.of_nat fuel ->
  read10 (digits10 fuel n acc) 0 = read10 acc n.
Proof.
  induction fuel as [|fuel IH]; intros n acc H.
  - cbn in H. replace n with 0 by lia. reflexivity.
  - cbn [digits10]. destruct (Z.ltb_spec n 10) as [L|L].
    + unfold read10. cbn [fold_left]. f_equal. lia.
    + assert (B : 0 <= n / 10 < 2 ^ Z.of_nat fuel).
      { rewrite Nat2Z.inj_succ, Z.pow_succ_r in H by lia.
        split; [apply Z.div_pos; lia|]. apply Z.div_lt_upper_bound; lia. }
      rewrite IH by exact B. unfold read10. cbn [fold_left]. f_equal.
      pose proof (Z.div_mod n 10 ltac:(lia)). lia.
Qed.

Lemma digits10_digits fuel : forall n acc,
  0 <= n -> Forall (fun c => 48 <= c <= 57) acc ->
  Forall (fun c => 48 <= c <= 57) (digits10 fuel n acc).
Proof.
  induction fuel as [|fuel IH]; intros n acc H A; cbn [digits10]; [exact A|].
  destruct (Z.ltb_spec n 10) as [L|L].
  - constructor; [lia | exact A].
  - apply IH; [apply Z.div_pos; lia|].
    constructor; [|exact A]. pose proof (Z.mod_pos_bound n 10 ltac:(lia)). lia.
Qed.

Lemma toString10_value n :
  0 <= n -> read10 (toString10 n) 0 = n
            /\ Forall (fun c => 48 <= c <= 57) (toString10 n).
Proof.
  intros H. unfold toString10. destruct (Z.ltb_spec n 0); [lia|]. split.
  - rewrite digits10_value by (apply log2_fuel; lia). reflexivity.
  - apply digits10_digits; [lia | constructor].
Qed.

Section Narrowing.
Variable lower : jsstring -> jsstring.

Lemma field_matches_narrow field s1 s2 :
  includes s2 s1 = true ->
  field_matches lower field s2 = true -> field_matches lower field s1 = true.
Proof.
  intros I. destruct field as [f|]; [|discriminate]. cbn [field_matches from_option].
  intros H. exact (includes_trans _ _ _ H I).
Qed.

Lemma filter_sublist_impl {A} (P Q : A -> bool) (l : list A) :
  (forall x, P x = true -> Q x = true) ->
  filter (fun x => P x = true) l `sublist_of` filter (fun x => Q x = true) l.
Proof.
  intros H. induction l as [|x l IH]; [constructor|].
  rewrite !filter_cons. destruct (P x) eqn:Px.
  - rewrite (H x Px). rewrite !decide_True by reflexivity. constructor. exact IH.
  - rewrite decide_False by discriminate.
    destruct (decide (Q x = true)); [constructor|]; exact IH.
Qed.

End Narrowing.

(** * A reference runtime: laws *)

Module ReferenceLaws.
Import Reference.

Lemma pbkdf2_length password salt iterations keylen :
  0 <= keylen -> length (pbkdf2 password salt iterations keylen) = Z.to_nat keylen.
Proof.
  intros _. unfold pbkdf2. rewrite length_map, length_seq. reflexivity.
Qed.

Lemma unshift_shift s b :
  byte_of_Z ((byte_to_Z (byte_of_Z ((byte_to_Z b + s) mod 256)) - s) mod 256) = b.
Proof.
  pose proof (byte_to_Z_range b) as R.
  rewrite byte_to_of_Z by (apply Z.mod_pos_bound; lia).
  rewrite <- (byte_of_to_Z b) at 2. f_equal. dlia.
Qed.

Lemma decrypt_encrypt key iv plaintext :
  decrypt key iv (encrypt key iv plaintext).2 (encrypt key iv plaintext).1
  = Some plaintext.
Proof.
  unfold decrypt, encrypt. cbn [fst snd].
  rewrite bool_decide_eq_true_2 by reflexivity. f_equal.
  rewrite map_map. rewrite <- (map_id plaintext) at 2.
  apply map_ext. intros b. apply unshift_shift.
Qed.

Lemma encrypt_length key iv plaintext :
  length (encrypt key iv plaintext).1 = length plaintext.
Proof. unfold encrypt. cbn [fst]. apply length_map. Qed.

Lemma encrypt_tag_length key iv plaintext :
  length (encrypt key iv plaintext).2 = 16%nat.
Proof. unfold encrypt, tag_of. cbn [snd]. rewrite length_map, length_seq. reflexivity. Qed.

Lemma shift_unshift s b :
  byte_of_Z ((byte_to_Z (byte_of_Z ((byte_to_Z b - s) mod 256)) + s) mod 256) = b.
Proof.
  pose proof (byte_to_Z_range b) as R.
  rewrite byte_to_of_Z by (apply Z.mod_pos_bound; lia).
  rewrite <- (byte_of_to_Z b) at 2. f_equal. dlia.
Qed.

Lemma byte_to_Z_inj l l' : map byte_to_Z l = map byte_to_Z l' -> l = l'.
Proof.
  assert (K : forall l0 : bytes, map byte_of_Z (map byte_to_Z l0) = l0).
  { intros l0. rewrite map_map. rewrite <- (map_id l0) at 2.
    apply map_ext. intros b. apply byte_of_to_Z. }
  intros E. rewrite <- (K l), <- (K l'), E. reflexivity.
Qed.

Lemma decrypt_Some key iv tag ciphertext plaintext :
  decrypt key iv tag ciphertext = Some plaintext ->
  encrypt key iv plaintext = (ciphertext, tag).
Proof.
  unfold decrypt, encrypt. case_bool_decide as T; [|discriminate].
  intros [= <-]. apply byte_to_Z_inj in T.
  assert (E : map (fun b => byte_of_Z ((byte_to_Z b + pad key iv) mod 256))
                (map (fun b => byte_of_Z ((byte_to_Z b - pad key iv) mod 256)) ciphertext)
              = ciphertext).
  { rewrite map_map. rewrite <- (map_id ciphertext) at 2.
    apply map_ext. intros b. apply shift_unshift. }
  rewrite E, T. reflexivity.
Qed.

Lemma encrypt_inj key iv p q : (encrypt key iv p).1 = (encrypt key iv q).1 -> p = q.
Proof.
  intros E.
  pose proof (decrypt_encrypt key iv p) as Dp.
  pose proof (decrypt_encrypt key iv q) as Dq.
  unfold decrypt in Dp, Dq.
  rewrite bool_decide_eq_true_2 in Dp by reflexivity.
  rewrite bool_decide_eq_true_2 in Dq by reflexivity.
  rewrite E in Dp. congruence.
Qed.

Lemma read_pos_bits p rest : read_pos (pos_bits p ++ rest) = Some (p, rest).
Proof.
  induction p as [p IH|p IH|]; cbn [pos_bits app read_pos]; tests;
    rewrite ?IH; reflexivity.
Qed.

Lemma read_write_Z z rest : read_Z (write_Z z ++ rest) = Some (z, rest).
Proof.
  destruct z as [|p|p]; cbn [write_Z app read_Z]; tests;
    rewrite ?read_pos_bits; reflexivity.
Qed.

Lemma read_write_unit c rest : read_unit (write_unit c ++ rest) = Some (c, rest).
Proof.
  unfold write_unit.
  destruct ((32 <=? c) && (c <? 127)) eqn:E; cbn [app read_unit].
  - replace (c =? 1) with false by lia. reflexivity.
  - apply read_write_Z.
Qed.

Lemma read_write_items {A} (w : A -> jsstring) (r : jsstring -> option (A * jsstring))
    (l : list A) rest :
  Forall (fun x => forall rest', r (w x ++ rest') = Some (x, rest')) l ->
  read_items r (length l) (concat (map w l) ++ rest) = Some (l, rest).
Proof.
  induction 1 as [|x l Hx Hl IH]; [reflexivity|].
  cbn [length map concat read_items]. rewrite <- app_assoc, Hx, IH. reflexivity.
Qed.

Lemma read_write_list {A} (w : A -> jsstring) (r : jsstring -> option (A * jsstring))
    (l : list A) rest :
  Forall (fun x => forall rest', r (w x ++ rest') = Some (x, rest')) l ->
  read_list r (write_list w l ++ rest) = Some (l, rest).
Proof.
  intros H. unfold read_list, write_list.
  rewrite <- app_assoc, read_write_Z, Nat2Z.id. apply read_write_items, H.
Qed.

Lemma read_write_str s rest :
  read_list read_unit (write_list write_unit s ++ rest) = Some (s, rest).
Proof. apply read_write_list, Forall_true. intros c rest'. apply read_write_unit. Qed.

Lemma length_write_list_elem {A} (w : A -> jsstring) (l : list A) x :
  x ∈ l -> (length (w x) <= length (concat (map w l)))%nat.
Proof.
  induction 1 as [x l|x y l H IH]; cbn [map concat]; rewrite length_app; lia.
Qed.

Lemma length_write_list {A} (w : A -> jsstring) (l : list A) :
  (length (concat (map w l)) <= length (write_list w l))%nat.
Proof. unfold write_list. rewrite length_app. lia. Qed.

Lemma read_write : forall v fuel rest,
  (length (write v) <= fuel)%nat -> read fuel (write v ++ rest) = Some (v, rest).
Proof.
  fix IH 1. intros [| b | n | s | items | fields] [|fuel] rest L;
    cbn [write length] in L; try lia; cbn [write app read]; tests.
  - reflexivity.
  - destruct b; tests; reflexivity.
  - rewrite read_write_Z. reflexivity.
  - rewrite read_write_str. reflexivity.
  - rewrite read_write_list; [reflexivity|].
    pose proof (length_write_list write items) as L1.
    assert (B : forall x, x ∈ items -> (length (write x) <= fuel)%nat).
    { intros x Hx. pose proof (length_write_list_elem write items x Hx). lia. }
    clear L L1. induction items as [|x items IHi]; constructor.
    + intros rest'. apply IH, B. left.
    + apply IHi. intros y Hy. apply B. right. exact Hy.
  - rewrite read_write_list; [reflexivity|].
    pose proof (length_write_list
                  (fun kv => write_list write_unit kv.1 ++ write kv.2) fields) as L1.
    assert (B : forall kv, kv ∈ fields -> (length (write kv.2) <= fuel)%nat).
    { intros kv Hkv.
      pose proof (length_write_list_elem
                    (fun kv => write_list write_unit kv.1 ++ write kv.2)
                    fields kv Hkv) as L2.
      cbv beta in L2. rewrite length_app in L2. lia. }
    clear L L1. induction fields as [|[k x] fields IHf]; constructor.
    + intros rest'. cbn [fst snd]. rewrite <- app_assoc, read_write_str.
      rewrite IH; [reflexivity|]. apply (B (k, x)). left.
    + apply IHf. intros y Hy. apply B. right. exact Hy.
Qed.

Lemma parse_stringify indent v : parse (stringify indent v) = Some v.
Proof.
  unfold parse, stringify. rewrite <- (app_nil_r (write v)) at 2.
  rewrite read_write by lia. reflexivity.
Qed.

Abbreviation small := (Forall (fun c => 0 <= c < 0xD800)).

Lemma pos_bits_small p : small (pos_bits p).
Proof. induction p; cbn [pos_bits]; constructor; (lia || assumption || constructor). Qed.

Lemma write_Z_small z : small (write_Z z).
Proof.
  destruct z; cbn [write_Z]; repeat constructor; try lia; apply pos_bits_small.
Qed.

Lemma write_list_small {A} (w : A -> jsstring) (l : list A) :
  Forall (fun x => small (w x)) l -> small (write_list w l).
Proof.
  intros H. unfold write_list. apply Forall_app. split; [apply write_Z_small|].
  induction H; cbn [map concat]; [constructor | apply Forall_app; auto].
Qed.

Lemma write_unit_small c : small (write_unit c).
Proof.
  unfold write_unit. destruct ((32 <=? c) && (c <? 127)) eqn:E.
  - repeat constructor; lia.
  - constructor; [lia | apply write_Z_small].
Qed.

Lemma write_str_small s : small (write_list write_unit s).
Proof. apply write_list_small, Forall_true. intros c. apply write_unit_small. Qed.

Lemma write_small : forall v, small (write v).
Proof.
  fix IH 1. intros [| b | n | s | items | fields]; cbn [write].
  - repeat constructor; lia.
  - destruct b; repeat constructor; lia.
  - constructor; [lia | apply write_Z_small].
  - constructor; [lia | apply write_str_small].
  - constructor; [lia|]. apply write_list_small.
    induction items as [|x items IHi]; constructor; [apply IH | apply IHi].
  - constructor; [lia|]. apply write_list_small.
    induction fields as [|[k x] fields IHf]; constructor; [|apply IHf].
    cbn [fst snd]. apply Forall_app. split; [apply write_str_small | apply IH].
Qed.

Lemma isWellFormed_small s : small s -> isWellFormed s = true.
Proof.
  induction 1 as [|c s Hc Hs IH]; [reflexivity|].
  rewrite isWellFormed_cons, IH.
  replace (is_high_surrogate c) with false by (unfold is_high_surrogate; lia).
  unfold is_low_surrogate. lia.
Qed.

Lemma stringify_wellformed indent v : isWellFormed (stringify indent v) = true.
Proof. apply isWellFormed_small, write_small. Qed.

Lemma stringify_nonempty indent v : stringify indent v <> [].
Proof. unfold stringify. destruct v; discriminate. Qed.

Lemma str_ok_unit16 s : str_ok (unit16 s).
Proof.
  unfold str_ok, unit16. apply Forall_map, Forall_true. cbv beta. intros c.
  apply Z.mod_pos_bound. lia.
Qed.

Lemma record_of_ok header fields :
  map_Forall (fun k v => str_ok k /\ str_ok v) (record_of header fields).
Proof.
  intros k v E. unfold record_of in E. apply elem_of_list_to_map_2 in E.
  split.
  - apply elem_of_zip_l in E. apply list_elem_of_fmap in E as (x & -> & _).
    apply str_ok_unit16.
  - apply elem_of_zip_r in E. apply list_elem_of_fmap in E as (x & -> & _).
    apply str_ok_unit16.
Qed.

Lemma csv_ok text records :
  str_ok text -> csv text = inr records ->
  Forall (map_Forall (fun k v => str_ok k /\ str_ok v)) records.
Proof.
  intros _. unfold csv. destruct (bool_decide (34 ∈ text)); [discriminate|].
  destruct (filter _ _) as [|header lines]; intros [= <-]; [constructor|].
  apply Forall_map, Forall_true. intros l. apply record_of_ok.
Qed.

End ReferenceLaws.

Definition reference : Runtime := {|
  pbkdf2Sync := Reference.pbkdf2;
  pbkdf2Sync_length := ReferenceLaws.pbkdf2_length;
  gcm_encrypt := Reference.encrypt;
  gcm_decrypt := Reference.decrypt;
  gcm_correct := fun key iv plaintext _ _ => ReferenceLaws.decrypt_encrypt key iv plaintext;
  gcm_length := fun key iv plaintext _ _ => ReferenceLaws.encrypt_length key iv plaintext;
  gcm_tag_length := fun key iv plaintext _ _ => ReferenceLaws.encrypt_tag_length key iv plaintext;
  Buffer_from_value := fun _ => None;
  JSON_stringify := Reference.stringify;
  JSON_parse := Reference.parse;
  JSON_roundtrip := fun indent v _ => ReferenceLaws.parse_stringify indent v;
  JSON_wellformed := fun indent v _ => ReferenceLaws.stringify_wellformed indent v;
  JSON_nonempty := ReferenceLaws.stringify_nonempty;
  csv_parse := Reference.csv;
  csv_parse_ok := ReferenceLaws.csv_ok
|}.

(** * The program on concrete worlds *)

Module Example.

Definition machine : Identity :=
  {| hostname := js "mac.local"; username := js "alice";
     platform := js "darwin"; arch := js "arm64" |}.

Definition export_path : jsstring := js "/Users/alice/Downloads/nordpass-export.csv".
Definition cache_path : jsstring := js "/support/nordpass-cache.json".

(** The export of the first scenario of the specification. *)
Definition export_text : jsstring :=
  js "name,username,password,url" ++ [10]
  ++ js "Example,alice,s3cr3t,https://example.com".

(** An export csv-parse rejects: a quotation mark that is never closed. *)
Definition broken_text : jsstring :=
  js "name,username,password,url" ++ [10; 34] ++ js "Example,alice".

Definition world_with (files : gmap jsstring bytes) : World :=
  {| w_files := files; w_modes := ∅; w_now := 1700000000000;
     w_random := fun i => byte_of_Z (7 * Z.of_nat i + 3); w_random_used := 0;
     w_identity := machine; w_export_path := Some export_path;
     w_cache_path := cache_path; w_ingestions := 0 |}.

(** No cache yet. *)
Definition world0 : World :=
  world_with {[ export_path := utf8_encode export_text ]}.

Definition records0 : list record :=
  [row [("name", "Example"); ("username", "alice"); ("password", "s3cr3t");
        ("url", "https://example.com")]%string].

Definition snapshot0 : CachedData :=
  snapshot world0 (utf8_decode (utf8_encode export_text)) records0.

(** After the first [get(false)] ([world1_eq] below). *)
Definition world1 : World :=
  Eval vm_compute in (getCachedData (RT := reference) false world0).2.

(** The export edited in place: "Example" became "Exbmple". *)
Definition world1_edited : World :=
  set_files <[export_path := utf8_encode
                (js "name,username,password,url" ++ [10]
                 ++ js "Exbmple,alice,s3cr3t,https://example.com")]> world1.

(** The export is broken and there is no cache. *)
Definition world_broken : World :=
  world_with {[ export_path := utf8_encode broken_text ]}.

(** The cache file is not a token and not JSON. *)
Definition world_garbled : World :=
  world_with (<[cache_path := utf8_encode (js "{not json")]>
                {[ export_path := utf8_encode export_text ]}).

(** The export is broken after a good snapshot was cached. *)
Definition world1_broken : World :=
  set_files <[export_path := utf8_encode broken_text]> world1.

(** Two exports that differ in the password of their one row. *)
Definition text_Aa : jsstring := js "name,password" ++ [10] ++ js "Bank,Aa".
Definition text_BB : jsstring := js "name,password" ++ [10] ++ js "Bank,BB".

Definition world_Aa : World := world_with {[ export_path := utf8_encode text_Aa ]}.

(** After [get(false)] on the first export, and then with the export replaced
    by the second. *)
Definition world_Aa1 : World :=
  Eval vm_compute in (getCachedData (RT := reference) false world_Aa).2.

Definition world_BB : World :=
  set_files <[export_path := utf8_encode text_BB]> world_Aa1.

(** Hello in ASCII, Latin-1, the euro sign and a character outside the BMP. *)
Definition sample : jsstring := [0x68; 0xE9; 0x20AC; 0xD83D; 0xDE00].

End Example.

Import Example.

(** Closes an equation between closed terms by evaluation. *)
Ltac by_vm := match goal with |- _ = ?r => vm_cast_no_check (eq_refl r) end.

Lemma world1_eq : (getCachedData (RT := reference) false world0).2 = world1.
Proof. by_vm. Qed.

(** More worlds, and a home directory for preferences.ts. *)
Module Fixtures.

(** The content of the cache file after the first [get(false)]. *)
Definition cache1 : bytes :=
  Eval vm_compute in default [] (w_files world1 !! cache_path).

(** The export has disappeared; the snapshot is still cached. *)
Definition world1_gone : World := set_files (delete export_path) world1.

(** A cache file that is JSON in clear, written without a fingerprint. *)
Definition legacy : json := JObj [(js "passwords", JArr [])].
Definition legacy_text : jsstring :=
  Eval vm_compute in JSON_stringify (Runtime := reference) 2 legacy.
Definition world_legacy : World :=
  world_with (<[cache_path := utf8_encode legacy_text]>
                {[ export_path := utf8_encode export_text ]}).

(** A cache file that holds the snapshot in clear. *)
Definition clear_text : jsstring :=
  Eval vm_compute in JSON_stringify (Runtime := reference) 2 (CachedData_json snapshot0).
Definition world_clear : World :=
  world_with (<[cache_path := utf8_encode clear_text]>
                {[ export_path := utf8_encode export_text ]}).

(** The cache file of [world1] with the digit 0 added at the end of its
    [encrypted] field, which then has odd length. *)
Definition cache1_longer : bytes :=
  Eval vm_compute in
    let key := key_of (RT := reference) machine in
    let iv := next_iv world0 in
    let c := gcm_encrypt (Runtime := reference) key iv (utf8_encode clear_text) in
    utf8_encode
      (JSON_stringify (Runtime := reference) 0
         (token (hex_encode iv) (hex_encode c.2) (hex_encode c.1 ++ js "0"))).
Definition world_longer : World :=
  world_with (<[cache_path := cache1_longer]>
                {[ export_path := utf8_encode export_text ]}).

(** [path.join] on segments that need no normalization. *)
Definition join (segments : list jsstring) : jsstring :=
  foldr (fun s acc => match acc with [] => s | _ => s ++ js "/" ++ acc end) [] segments.

Definition vault : jsstring := js "/Users/alice/vault/export.csv".
Definition nordpass_dir : jsstring := js "/Users/alice/.nordpass".
Definition listing : list jsstring :=
  [js "old-nordpass.csv"; js "notes.txt"; js "NordPass-2024.CSV"; js "nordpass.csv.bak"].

(** A home directory with two exports in [.nordpass]; [configured] is the
    preference. *)
Definition home (configured : option jsstring) (vault_exists : bool) : Env :=
  {| e_exportFilePath := configured;
     e_HOME := Some (js "/Users/alice");
     e_exists := fun p =>
       bool_decide (p = nordpass_dir) || bool_decide (p = vault) && vault_exists
       || bool_decide (p ∈ map (fun f => join [nordpass_dir; f]) listing);
     e_readdir := fun p => if bool_decide (p = nordpass_dir) then Some listing else None;
     e_mtime := fun p =>
       if bool_decide (p = join [nordpass_dir; js "old-nordpass.csv"]) then Some 1600000000000
       else if bool_decide (p = join [nordpass_dir; js "NordPass-2024.CSV"]) then Some 1700000000000
       else if bool_decide (p = join [nordpass_dir; js "notes.txt"]) then Some 1710000000000
       else if bool_decide (p = join [nordpass_dir; js "nordpass.csv.bak"]) then Some 1720000000000
       else if bool_decide (p = vault) && vault_exists then Some 1690000000000
       else None |}.

Definition items : list Password :=
  [ {| pw_name := js "Example"; pw_url := Some (js "https://example.com");
       pw_username := Some (js "alice"); pw_password := js "s3cr3t";
       pw_note := None; pw_folder := None |};
    {| pw_name := js "Bank"; pw_url := None; pw_username := Some (js "bob");
       pw_password := js "Exa"; pw_note := None; pw_folder := None |} ].

End Fixtures.

Import Fixtures.

Lemma home_coherent configured vault_exists q t :
  e_mtime (home configured vault_exists) q = Some t ->
  e_exists (home configured vault_exists) q = true.
Proof.
  cbn [e_mtime home]. intros H.
  destruct (decide (q = join [nordpass_dir; js "old-nordpass.csv"])) as [->|N1];
    [by_vm | rewrite bool_decide_eq_false_2 in H by exact N1].
  destruct (decide (q = join [nordpass_dir; js "NordPass-2024.CSV"])) as [->|N2];
    [by_vm | rewrite bool_decide_eq_false_2 in H by exact N2].
  destruct (decide (q = join [nordpass_dir; js "notes.txt"])) as [->|N3];
    [by_vm | rewrite bool_decide_eq_false_2 in H by exact N3].
  destruct (decide (q = join [nordpass_dir; js "nordpass.csv.bak"])) as [->|N4];
    [by_vm | rewrite bool_decide_eq_false_2 in H by exact N4].
  destruct (decide (q = vault)) as [->|N5];
    [|rewrite bool_decide_eq_false_2 in H by exact N5; discriminate H].
  destruct vault_exists; [by_vm|].
  rewrite andb_false_r in H. discriminate H.
Qed.

(** The reference cipher is faithful. *)
Lemma reference_faithful key iv : gcm_faithful (RT := reference) key iv.
Proof.
  split.
  - intros tag ciphertext plaintext D. apply ReferenceLaws.decrypt_Some in D.
    cbn [gcm_encrypt reference]. rewrite D. cbn [fst snd].
    split; [reflexivity | rewrite take_ge by lia; reflexivity].
  - apply ReferenceLaws.encrypt_inj.
Qed.

(** * Properties of the specification *)

(** ** Classification of a row *)

(** C1: the claim fails on the code for a row whose [type] is set to a name
    outside the table.  Such a row goes through the [default] branch of the
    [switch], which tests the credential fields before the card fields and
    pushes nothing when no test succeeds, while [inferItemType] (used when
    [type] is absent or empty) tests the card fields first and falls back to
    a credential. *)
Theorem C1_unrecognized_type_prefers_credential :
  let r := row [("type", "Unknown"); ("password", "hunter2");
                ("cardNumber", "4111111111111111")]%string in
  let bare := row [("type", "Unknown"); ("name", "Home")]%string in
  is_one_of (itemType r)
    ["password"; "login"; "creditcard"; "credit_card"; "card"; "note";
     "securenote"; "secure_note"]%string = false
  /\ hasCreditCardFields r = true
  /\ inferItemType r = js "creditcard"
  /\ classify r = Some (ItemPassword (parsePassword r))
  /\ classify bare = None
  /\ inferItemType bare = js "password".
Proof. vm_compute. repeat split. Qed.

(** ** The fingerprint and staleness *)

Section Staleness.
Context `{RT : Runtime}.

(** C2 (as amended): when the cached snapshot was built from a text and the
    source file now reads as that text with one code unit changed (same
    length), the fingerprints differ, and [get(false)] does not serve the
    snapshot: it is a rebuild, which runs the ingestion. *)
Theorem C2_one_changed_unit_forces_rebuild
    (w : World) (p : jsstring) (cached : json) (content : bytes)
    (pre post : jsstring) (c1 c2 : Z) :
  w_export_path w = Some p ->
  loadCachedData w = (Return cached, w) -> js_truthy (Some cached) = true ->
  get_prop cached "exportFileHash"
  = Some (Some (JStr (hash_of_text (pre ++ c1 :: post)))) ->
  w_files w !! p = Some content ->
  utf8_decode content = pre ++ c2 :: post ->
  0 <= c1 < 65536 -> c1 <> c2 ->
  hash_of_text (pre ++ c1 :: post) <> hash_of_text (pre ++ c2 :: post)
  /\ getCachedData false w = rebuild w
  /\ w_ingestions (getCachedData false w).2 = S (w_ingestions w).
Proof.
  intros Hp L T H E D R1 N.
  assert (R2 : 0 <= c2 < 65536).
  { pose proof (str_ok_utf8_decode content) as S. rewrite D in S.
    apply Forall_app in S as [_ S]. exact (Forall_inv S). }
  assert (N' : hash_of_text (pre ++ c1 :: post) <> hash_of_text (pre ++ c2 :: post))
    by (apply hash_of_text_one_unit; assumption).
  assert (G : getCachedData false w = rebuild w).
  { apply (getCachedData_stale w p cached content _ Hp L T E H). rewrite D. exact N'. }
  repeat split; try assumption.
  rewrite G. apply (rebuild_ingests w p content Hp E).
Qed.

End Staleness.

(** C2 (as stated) fails: the contents "Aa" and "BB" differ and have the
    same fingerprint, so a snapshot built from the first is served, without
    a rebuild, when the file holds the second.  On the reference runtime: the
    password "Aa" of the row is changed to "BB" in the export after the first
    [get(false)], and the second [get(false)] returns the snapshot with "Aa"
    and changes nothing. *)
Lemma C2_fingerprint_collision :
  let old := utf8_encode (js "Aa") in
  let new := utf8_encode (js "BB") in
  let served :=
    CachedData_json
      (snapshot world_Aa text_Aa [row [("name", "Bank"); ("password", "Aa")]%string]) in
  old <> new /\ length old = length new
  /\ hash_of_text (utf8_decode old) = hash_of_text (utf8_decode new)
  /\ (forall (RT : Runtime) (w : World) (p : jsstring) (cached : json),
        w_export_path w = Some p ->
        loadCachedData w = (Return cached, w) -> js_truthy (Some cached) = true ->
        get_prop cached "exportFileHash"
        = Some (Some (JStr (hash_of_text (utf8_decode old)))) ->
        w_files w !! p = Some new ->
        getCachedData false w = (Return cached, w))
  /\ utf8_encode text_Aa <> utf8_encode text_BB
  /\ getCachedData (RT := reference) false world_Aa = (Return served, world_Aa1)
  /\ w_files world_BB !! export_path = Some (utf8_encode text_BB)
  /\ getCachedData (RT := reference) false world_BB = (Return served, world_BB).
Proof.
  cbv zeta. split; [discriminate|]. split; [reflexivity|].
  assert (E : hash_of_text (utf8_decode (utf8_encode (js "Aa")))
              = hash_of_text (utf8_decode (utf8_encode (js "BB"))))
    by (vm_compute; reflexivity).
  split; [exact E|]. split.
  { intros RT w p cached Hp L T H F.
    apply (getCachedData_fresh w p cached _ Hp L T F). rewrite <- E. exact H. }
  split; [vm_compute; discriminate|]. split; [by_vm|]. split; by_vm.
Qed.

Lemma C2_witness :
  loadCachedData (RT := reference) world1_edited
  = (Return (CachedData_json snapshot0), world1_edited)
  /\ getCachedData (RT := reference) false world1_edited
     = rebuild (RT := reference) world1_edited
  /\ w_ingestions (getCachedData (RT := reference) false world1_edited).2
     = S (w_ingestions world1_edited).
Proof.
  assert (P : w_export_path world1_edited = Some export_path)
    by by_vm.
  assert (L : loadCachedData (RT := reference) world1_edited
              = (Return (CachedData_json snapshot0), world1_edited))
    by by_vm.
  assert (T : js_truthy (Some (CachedData_json snapshot0)) = true)
    by by_vm.
  assert (H : get_prop (CachedData_json snapshot0) "exportFileHash"
              = Some (Some (JStr (hash_of_text
                   ((js "name,username,password,url" ++ [10] ++ js "Ex")
                    ++ 97 :: js "mple,alice,s3cr3t,https://example.com")))))
    by by_vm.
  assert (E : w_files world1_edited !! export_path
              = Some (utf8_encode
                        (js "name,username,password,url" ++ [10]
                         ++ js "Exbmple,alice,s3cr3t,https://example.com")))
    by by_vm.
  assert (D : utf8_decode
                (utf8_encode
                   (js "name,username,password,url" ++ [10]
                    ++ js "Exbmple,alice,s3cr3t,https://example.com"))
              = (js "name,username,password,url" ++ [10] ++ js "Ex")
                ++ 98 :: js "mple,alice,s3cr3t,https://example.com")
    by by_vm.
  split; [exact L|].
  exact (proj2 (C2_one_changed_unit_forces_rebuild (RT := reference) world1_edited
                  export_path (CachedData_json snapshot0) _ _ _ 97 98
                  P L T H E D ltac:(lia) ltac:(lia))).
Defined.

(** ** Encryption and decryption *)

Section RoundTrip.
Context `{RT : Runtime}.

(** C3 (as amended): for every well-formed string [x] (no surrogate outside
    a pair; the empty string and strings with non-ASCII characters
    included), [encryptData x] returns a token, and [decryptData] of that
    token under the same machine identity returns [x]. *)
Theorem C3_decrypt_encrypt_wellformed (x : jsstring) (w w' : World) :
  isWellFormed x = true -> w_identity w' = w_identity w ->
  exists tok w1,
    encryptData x w = (Return tok, w1) /\ decryptData tok w' = (Return x, w').
Proof.
  intros W I. exists (token_of x w), (use_random 16 w). split.
  - apply encryptData_eq.
  - rewrite decryptData_token_of by (rewrite I; reflexivity).
    rewrite utf8_decode_encode by exact W. reflexivity.
Qed.

End RoundTrip.

(** C3 (as stated) fails for a string that holds a surrogate outside a pair:
    it is encrypted as U+FFFD, and that is what decryption returns. *)
Lemma C3_lone_surrogate_comes_back_replaced :
  [0xD800] <> [0xFFFD]
  /\ forall (RT : Runtime) (w : World),
       encryptData [0xD800] w = (Return (token_of [0xD800] w), use_random 16 w)
       /\ decryptData (token_of [0xD800] w) (use_random 16 w)
          = (Return [0xFFFD], use_random 16 w).
Proof.
  split; [discriminate|]. intros RT w. split; [apply encryptData_eq|].
  rewrite decryptData_token_of by reflexivity. reflexivity.
Qed.

Lemma C3_witness :
  isWellFormed sample = true
  /\ exists tok w1,
       encryptData (RT := reference) sample world0 = (Return tok, w1)
       /\ decryptData (RT := reference) tok world1 = (Return sample, world1).
Proof.
  assert (W : isWellFormed sample = true) by by_vm.
  assert (I : w_identity world1 = w_identity world0) by by_vm.
  split; [exact W|].
  exact (C3_decrypt_encrypt_wellformed (RT := reference) sample world0 world1 W I).
Defined.

Section Tampering.
Context `{RT : Runtime}.

(** C4 (as amended): take a token of a well-formed [x] and put any string
    in the place of its [authTag] field, or of its [encrypted] field
    (flipping a bit of a character is one way), AES-GCM being faithful.
    - With the tag replaced, [decryptData] throws [DecryptionError] or
      returns [x], never anything else; it throws unless the new field
      reads as the tag or as a head of it (a tag cut short, which the cipher
      may accept), and returns [x] when it reads as the tag.
    - With the ciphertext replaced, [decryptData] throws when the new field
      has odd length and returns [x] when it reads as the ciphertext; when it
      reads as other bytes, [decryptData] throws unless those bytes and the
      tag of the token are the encryption of another plaintext (two
      plaintexts with one tag), which is then what it returns. *)
Theorem C4_tampering_is_detected_up_to_the_cipher
    (x : jsstring) (w w' : World) (field : jsstring) :
  let key := key_of (w_identity w) in
  let iv := next_iv w in
  let c := gcm_encrypt key iv (utf8_encode x) in
  let new_tag :=
    JSON_stringify 0 (token (hex_encode iv) field (hex_encode c.1)) in
  let new_ciphertext :=
    JSON_stringify 0 (token (hex_encode iv) (hex_encode c.2) field) in
  isWellFormed x = true -> w_identity w' = w_identity w ->
  str_ok field -> gcm_faithful key iv ->
  encryptData x w = (Return (token_text iv c.2 c.1), use_random 16 w)
  /\ (decryptData new_tag w' = (Return x, w')
      \/ decryptData new_tag w' = (Throw DecryptionError, w'))
  /\ (hex_decode field <> take (length (hex_decode field)) c.2 ->
      decryptData new_tag w' = (Throw DecryptionError, w'))
  /\ (hex_decode field = c.2 -> decryptData new_tag w' = (Return x, w'))
  /\ (Nat.even (length field) = false ->
      decryptData new_ciphertext w' = (Throw DecryptionError, w'))
  /\ (Nat.even (length field) = true -> hex_decode field = c.1 ->
      decryptData new_ciphertext w' = (Return x, w'))
  /\ (Nat.even (length field) = true -> hex_decode field <> c.1 ->
      decryptData new_ciphertext w' = (Throw DecryptionError, w')
      \/ exists other,
           other <> utf8_encode x
           /\ gcm_encrypt key iv other = (hex_decode field, c.2)
           /\ decryptData new_ciphertext w' = (Return (utf8_decode other), w')).
Proof.
  intros key iv c new_tag new_ciphertext W I Hf [G1 G3].
  assert (T : decryptData new_tag w'
              = (match gcm_decrypt key iv (hex_decode field) c.1 with
                 | Some plaintext => Return (utf8_decode plaintext)
                 | None => Throw DecryptionError
                 end, w')).
  { unfold new_tag. rewrite decryptData_fields by (assumption || apply str_ok_hex).
    rewrite even_length_hex_encode, !hex_decode_encode, I. reflexivity. }
  assert (C : decryptData new_ciphertext w'
              = (if Nat.even (length field)
                 then match gcm_decrypt key iv c.2 (hex_decode field) with
                      | Some plaintext => Return (utf8_decode plaintext)
                      | None => Throw DecryptionError
                      end
                 else Throw DecryptionError, w')).
  { unfold new_ciphertext. rewrite decryptData_fields by (assumption || apply str_ok_hex).
    rewrite !hex_decode_encode, I. reflexivity. }
  assert (L : length c.2 = 16%nat)
    by (apply gcm_tag_length; [apply length_key_of | apply length_next_iv]).
  split; [reflexivity|]. split; [|split; [|split; [|split; [|split]]]].
  - rewrite T. destruct (gcm_decrypt key iv (hex_decode field) c.1) as [pt|] eqn:D;
      [left | right; reflexivity].
    destruct (G1 _ _ _ D) as [E _]. apply G3 in E. subst pt.
    rewrite utf8_decode_encode by exact W. reflexivity.
  - intros Ne. rewrite T.
    destruct (gcm_decrypt key iv (hex_decode field) c.1) as [pt|] eqn:D; [|reflexivity].
    destruct (G1 _ _ _ D) as [E Et]. apply G3 in E. subst pt.
    exfalso. apply Ne. exact Et.
  - intros E. apply decryptData_same_bytes;
      try assumption; try apply str_ok_hex;
      [apply even_length_hex_encode | apply hex_decode_encode].
  - intros Odd. rewrite C, Odd. reflexivity.
  - intros Ev E. apply decryptData_same_bytes;
      try assumption; try apply str_ok_hex. apply hex_decode_encode.
  - intros Ev Ne. rewrite C, Ev.
    destruct (gcm_decrypt key iv c.2 (hex_decode field)) as [other|] eqn:D;
      [right | left; reflexivity].
    destruct (G1 _ _ _ D) as [E Et].
    assert (L' : length (gcm_encrypt key iv other).2 = 16%nat)
      by (apply gcm_tag_length; [apply length_key_of | apply length_next_iv]).
    rewrite L, take_ge in Et by lia.
    exists other. split; [|split; [|reflexivity]].
    + intros ->. apply Ne. symmetry. exact E.
    + rewrite <- E, Et. destruct (gcm_encrypt key iv other); reflexivity.
Qed.

End Tampering.

(** C4 (as stated) fails: in the token of [sample] made in [world0], the
    character at index 13 of the tag is the letter a, and flipping its bit 5
    makes it the letter A; flipping bit 8 of the first character of the
    ciphertext leaves its low byte as it was.  The text of the token has
    changed, and [decryptData] returns [sample] for both.  A flip above the
    low byte of a character of either field is never detected, whatever the
    cipher. *)
Lemma C4_flips_that_are_not_detected :
  let key := key_of (RT := reference) machine in
  let iv := next_iv world0 in
  let c := gcm_encrypt (Runtime := reference) key iv (utf8_encode sample) in
  let authTag := hex_encode c.2 in
  let encrypted := hex_encode c.1 in
  let text tag ciphertext :=
    JSON_stringify (Runtime := reference) 0 (token (hex_encode iv) tag ciphertext) in
  encryptData (RT := reference) sample world0
  = (Return (text authTag encrypted), use_random 16 world0)
  /\ (authTag !! 13%nat = Some 97 /\ flip_bit 5 13 authTag !! 13%nat = Some 65
      /\ text (flip_bit 5 13 authTag) encrypted <> text authTag encrypted
      /\ decryptData (RT := reference) (text (flip_bit 5 13 authTag) encrypted) world1
         = (Return sample, world1))
  /\ (encrypted !! 0%nat = Some 98 /\ flip_bit 8 0 encrypted !! 0%nat = Some 354
      /\ text authTag (flip_bit 8 0 encrypted) <> text authTag encrypted
      /\ decryptData (RT := reference) (text authTag (flip_bit 8 0 encrypted)) world1
         = (Return sample, world1))
  /\ forall (RT : Runtime) (x : jsstring) (w w' : World) (k : Z) (i j : nat),
       isWellFormed x = true -> w_identity w' = w_identity w -> 8 <= k < 16 ->
       let key := key_of (w_identity w) in
       let iv := next_iv w in
       let c := gcm_encrypt key iv (utf8_encode x) in
       decryptData
         (JSON_stringify 0
            (token (hex_encode iv) (flip_bit k i (hex_encode c.2))
               (flip_bit k j (hex_encode c.1)))) w'
       = (Return x, w').
Proof.
  cbv zeta. split; [by_vm|]. split; [|split].
  - split; [by_vm|]. split; [by_vm|]. split; [vm_compute; discriminate | by_vm].
  - split; [by_vm|]. split; [by_vm|]. split; [vm_compute; discriminate | by_vm].
  - intros RT x w w' k i j W I Hk.
    apply decryptData_same_bytes; try assumption.
    + apply str_ok_flip_bit; [lia | apply str_ok_hex].
    + apply str_ok_flip_bit; [lia | apply str_ok_hex].
    + rewrite length_flip_bit. apply even_length_hex_encode.
    + rewrite hex_decode_flip_high by lia. apply hex_decode_encode.
    + rewrite hex_decode_flip_high by lia. apply hex_decode_encode.
Qed.

(** C4 on the reference runtime: the digit 2 at the head of the tag becomes
    3, and the digit 7 in the ciphertext becomes 6; [decryptData] throws for
    both. *)
Lemma C4_witness :
  let key := key_of (RT := reference) machine in
  let iv := next_iv world0 in
  let c := gcm_encrypt (Runtime := reference) key iv (utf8_encode sample) in
  let text tag ciphertext :=
    JSON_stringify (Runtime := reference) 0 (token (hex_encode iv) tag ciphertext) in
  (isWellFormed sample = true /\ gcm_faithful (RT := reference) key iv)
  /\ (hex_encode c.2 !! 0%nat = Some 50
      /\ flip_bit 0 0 (hex_encode c.2) !! 0%nat = Some 51
      /\ decryptData (RT := reference) (text (flip_bit 0 0 (hex_encode c.2)) (hex_encode c.1)) world1
         = (Throw DecryptionError, world1))
  /\ (hex_encode c.1 !! 1%nat = Some 55
      /\ flip_bit 0 1 (hex_encode c.1) !! 1%nat = Some 54
      /\ decryptData (RT := reference) (text (hex_encode c.2) (flip_bit 0 1 (hex_encode c.1))) world1
         = (Throw DecryptionError, world1)).
Proof.
  cbv zeta.
  assert (W : isWellFormed sample = true) by by_vm.
  assert (I : w_identity world1 = w_identity world0) by by_vm.
  pose proof (reference_faithful (key_of (RT := reference) (w_identity world0))
                (next_iv world0)) as F.
  pose (c := gcm_encrypt (Runtime := reference)
               (key_of (RT := reference) (w_identity world0)) (next_iv world0)
               (utf8_encode sample)).
  split; [split; [exact W | exact F]|]. split.
  - split; [by_vm|]. split; [by_vm|].
    destruct (C4_tampering_is_detected_up_to_the_cipher (RT := reference) sample
                world0 world1 (flip_bit 0 0 (hex_encode c.2)) W I
                (str_ok_flip_bit 0 0 _ ltac:(lia) (str_ok_hex _)) F)
      as (_ & _ & T & _).
    apply T. vm_compute. discriminate.
  - split; [by_vm|]. split; [by_vm|].
    destruct (C4_tampering_is_detected_up_to_the_cipher (RT := reference) sample
                world0 world1 (flip_bit 0 1 (hex_encode c.1)) W I
                (str_ok_flip_bit 0 1 _ ltac:(lia) (str_ok_hex _)) F)
      as (_ & _ & _ & _ & _ & _ & T).
    assert (D : decryptData (RT := reference)
                  (JSON_stringify (Runtime := reference) 0
                     (token (hex_encode (next_iv world0)) (hex_encode c.2)
                        (flip_bit 0 1 (hex_encode c.1)))) world1
                = (Throw DecryptionError, world1)) by by_vm.
    destruct T as [T | (other & _ & _ & T)].
    + by_vm.
    + vm_compute; discriminate.
    + exact T.
    + exfalso. pose proof (eq_trans (eq_sym T) D) as X. discriminate X.
Defined.

(** ** The key and the machine *)

(** C5: the claim fails on the code.  [deriveEncryptionKey] joins the four
    fields of the identity with a vertical bar and does not escape the bars
    inside them.  These two identities differ and their joined strings are
    equal, so they have the same key, and a token encrypted under the first
    decrypts to the plaintext under the second, whatever the cipher: the
    cache of one machine can be decrypted on the other. *)
Lemma C5_distinct_identities_share_a_key :
  machine_a <> machine_b
  /\ systemInfo machine_a = systemInfo machine_b
  /\ forall (RT : Runtime) (w : World),
       let wA := set_identity machine_a w in
       let wB := set_identity machine_b w in
       encryptData (js "secret") wA
       = (Return (token_of (js "secret") wA), use_random 16 wA)
       /\ decryptData (token_of (js "secret") wA) wB = (Return (js "secret"), wB).
Proof.
  split; [discriminate|]. split; [reflexivity|]. intros RT w wA wB.
  split; [apply encryptData_eq|].
  rewrite decryptData_token_of by reflexivity. reflexivity.
Qed.

(** ** The cache manager *)

Section Freshness.
Context `{RT : Runtime}.

(** C6: from a world with no cache file and a source file that exists and
    parses, the first [get(false)] runs the ingestion once and returns the
    snapshot it built; a second [get(false)] right after it (whatever the
    clock shows by then) runs no ingestion, changes nothing, and returns the
    same snapshot, which is what [loadCachedData] reads from the cache file. *)
Theorem C6_second_get_is_served_from_cache
    (w : World) (p : jsstring) (content : bytes) (records : list record) (t : Z) :
  w_export_path w = Some p ->
  w_files w !! w_cache_path w = None ->
  w_files w !! p = Some content ->
  csv_parse (utf8_decode content) = inr records ->
  - 2 ^ 53 < w_now w < 2 ^ 53 ->
  let d := snapshot w (utf8_decode content) records in
  let w1 := rebuilt w p d in
  let w2 := set_now t w1 in
  getCachedData false w = (Return (CachedData_json d), w1)
  /\ w_ingestions w1 = S (w_ingestions w)
  /\ loadCachedData w2 = (Return (CachedData_json d), w2)
  /\ getCachedData false w2 = (Return (CachedData_json d), w2)
  /\ w_ingestions (getCachedData false w2).2 = w_ingestions w1.
Proof.
  intros Hp Hc He C N d w1 w2.
  assert (Hd : CachedData_ok d) by (apply snapshot_ok; assumption).
  assert (Ne : w_cache_path w <> p) by congruence.
  assert (G1 : getCachedData false w = (Return (CachedData_json d), w1)).
  { rewrite (getCachedData_no_cache w p Hp Hc), rebuild_eq, refreshCache_eq.
    rewrite Hp, He, C. reflexivity. }
  assert (L : loadCachedData w2 = (Return (CachedData_json d), w2)).
  { rewrite loadCachedData_eq.
    change (w_files w2) with
      (<[w_cache_path w :=
           utf8_encode (token_of (JSON_stringify 2 (CachedData_json d)) w)]>
         (w_files w)).
    change (w_cache_path w2) with (w_cache_path w).
    rewrite lookup_insert_eq.
    change (w_identity w2) with (w_identity w).
    rewrite load_result_written by exact Hd. reflexivity. }
  assert (G2 : getCachedData false w2 = (Return (CachedData_json d), w2)).
  { apply (getCachedData_fresh w2 p _ content);
      [exact Hp | exact L | reflexivity | | apply get_prop_exportFileHash].
    change (w_files w2) with
      (<[w_cache_path w :=
           utf8_encode (token_of (JSON_stringify 2 (CachedData_json d)) w)]>
         (w_files w)).
    rewrite lookup_insert_ne by exact Ne. exact He. }
  repeat split; try assumption. rewrite G2. reflexivity.
Qed.

End Freshness.

Lemma C6_witness :
  let d := snapshot0 in
  let w1 := rebuilt (RT := reference) world0 export_path d in
  let w2 := set_now 1700000000500 w1 in
  (w_files world0 !! cache_path = None
   /\ csv_parse (Runtime := reference) (utf8_decode (utf8_encode export_text))
      = inr records0)
  /\ getCachedData (RT := reference) false world0 = (Return (CachedData_json d), w1)
  /\ w_ingestions w1 = 1%nat
  /\ loadCachedData (RT := reference) w2 = (Return (CachedData_json d), w2)
  /\ getCachedData (RT := reference) false w2 = (Return (CachedData_json d), w2)
  /\ w_ingestions (getCachedData (RT := reference) false w2).2 = w_ingestions w1.
Proof.
  cbv zeta. split; [split; by_vm|].
  apply (C6_second_get_is_served_from_cache (RT := reference) world0 export_path
           (utf8_encode export_text) records0 1700000000500).
  - reflexivity.
  - by_vm.
  - by_vm.
  - by_vm.
  - vm_compute. split; reflexivity.
Defined.

Section FailedRebuild.
Context `{RT : Runtime}.

(** C7: when csv-parse throws on the source file during a rebuild,
    [refreshCache] throws the parse error and leaves every file as it was
    when it started.  [getCachedData] starts its rebuild in the world
    [started] (after [loadCachedData] when not forced): it either returns a
    snapshot without rebuilding (only without [forceRefresh]), or throws the
    same error with the files as they were when the rebuild started.  A cache
    file that could be read is still there with the same content. *)
Theorem C7_failed_rebuild_keeps_the_cache
    (w : World) (p : jsstring) (content : bytes) (message : jsstring)
    (forceRefresh : bool) :
  let started := if forceRefresh then w else (loadCachedData w).2 in
  w_export_path w = Some p ->
  w_files started !! p = Some content ->
  csv_parse (utf8_decode content) = inl message ->
  refreshCache started = (Throw (CsvParseFailed message), count_ingestion started)
  /\ w_files (refreshCache started).2 = w_files started
  /\ (getCachedData forceRefresh w
      = (Throw (CsvParseFailed message), count_ingestion started)
      \/ (forceRefresh = false /\ started = w
          /\ exists cached, getCachedData forceRefresh w = (Return cached, w)))
  /\ w_files (getCachedData forceRefresh w).2 = w_files started
  /\ (forall c cached,
        w_files w !! w_cache_path w = Some c ->
        load_result (w_identity w) c = Some cached ->
        w_files (getCachedData forceRefresh w).2 !! w_cache_path w = Some c).
Proof.
  intros started Hp Se C.
  assert (S : w_export_path started = Some p
              /\ (forall c cached,
                    w_files w !! w_cache_path w = Some c ->
                    load_result (w_identity w) c = Some cached -> started = w)).
  { subst started. destruct forceRefresh; [auto|].
    rewrite loadCachedData_eq.
    destruct (w_files w !! w_cache_path w) as [c|]; [|auto].
    destruct (load_result (w_identity w) c) as [v|] eqn:El; [auto|].
    split; [exact Hp|]. intros ? ? [= <-] ?. congruence. }
  destruct S as (Sp & Sl).
  assert (Ew : is_Some (w_files w !! p)).
  { subst started. destruct forceRefresh; [eauto|].
    rewrite loadCachedData_eq in Se.
    destruct (w_files w !! w_cache_path w) as [c|]; [|eauto].
    destruct (load_result (w_identity w) c); [eauto|].
    cbn [snd w_files set_files] in Se. rewrite lookup_delete_Some in Se.
    destruct Se as [_ Se]. eauto. }
  destruct Ew as [source Ew].
  assert (R0 : refreshCache started
               = (Throw (CsvParseFailed message), count_ingestion started)).
  { rewrite refreshCache_eq, Sp, Se, C. reflexivity. }
  assert (R : rebuild started
              = (Throw (CsvParseFailed message), count_ingestion started)).
  { rewrite rebuild_eq, R0. reflexivity. }
  assert (G : getCachedData forceRefresh w
              = (Throw (CsvParseFailed message), count_ingestion started)
              \/ (forceRefresh = false /\ started = w
                  /\ exists cached, getCachedData forceRefresh w = (Return cached, w))).
  { rewrite getCachedData_eq, Hp, Ew. subst started.
    destruct forceRefresh; [left; exact R|].
    destruct (loadCachedData w) as [[cached|e] w'] eqn:L.
    - cbn [snd] in *. destruct (js_truthy (Some cached)) eqn:T; [|left; exact R].
      rewrite Se.
      destruct (hash_differs cached (hash_of_text (utf8_decode content))).
      + left. exact R.
      + right. assert (w' = w).
        { rewrite loadCachedData_eq in L.
          destruct (w_files w !! w_cache_path w) as [c|]; [|congruence].
          destruct (load_result (w_identity w) c); [congruence|].
          injection L as <- _. discriminate T. }
        subst w'. eauto.
    - rewrite loadCachedData_eq in L.
      destruct (w_files w !! w_cache_path w) as [c|]; [|discriminate].
      destruct (load_result (w_identity w) c); discriminate. }
  assert (F : w_files (getCachedData forceRefresh w).2 = w_files started).
  { destruct G as [-> | (_ & E & cached & ->)]; [reflexivity | rewrite E; reflexivity]. }
  split; [exact R0|]. split; [rewrite R0; reflexivity|]. split; [exact G|].
  split; [exact F|]. intros c cached Hc Hl. rewrite F, (Sl c cached Hc Hl). exact Hc.
Qed.

End FailedRebuild.

(** C7 on the reference runtime: a forced rebuild with no cache, and a
    rebuild after the export was broken while a good snapshot is cached. *)
Lemma C7_witness :
  let message := js "Quote Not Closed" in
  csv_parse (Runtime := reference) (utf8_decode (utf8_encode broken_text))
  = inl message
  /\ refreshCache (RT := reference) world_broken
     = (Throw (CsvParseFailed message), count_ingestion world_broken)
  /\ w_files (getCachedData (RT := reference) true world_broken).2
     = w_files world_broken
  /\ (getCachedData (RT := reference) false world1_broken).1
     = Throw (CsvParseFailed message)
  /\ is_Some (w_files world1 !! cache_path)
  /\ w_files (getCachedData (RT := reference) false world1_broken).2 !! cache_path
     = w_files world1 !! cache_path.
Proof.
  cbv zeta.
  assert (C : csv_parse (Runtime := reference)
                (utf8_decode (utf8_encode broken_text))
              = inl (js "Quote Not Closed")) by by_vm.
  assert (P0 : w_export_path world_broken = Some export_path) by by_vm.
  assert (E0 : w_files world_broken !! export_path = Some (utf8_encode broken_text))
    by by_vm.
  destruct (C7_failed_rebuild_keeps_the_cache (RT := reference) world_broken
              export_path (utf8_encode broken_text) (js "Quote Not Closed") true
              P0 E0 C) as (R & _ & _ & G & _).
  assert (P1 : w_export_path world1_broken = Some export_path) by by_vm.
  assert (E1 : w_files (loadCachedData (RT := reference) world1_broken).2
                 !! export_path
               = Some (utf8_encode broken_text)) by by_vm.
  assert (T : (getCachedData (RT := reference) false world1_broken).1
              = Throw (CsvParseFailed (js "Quote Not Closed"))) by by_vm.
  assert (K : w_files world1_broken !! cache_path = w_files world1 !! cache_path)
    by by_vm.
  assert (V : w_files world1_broken !! cache_path
                ≫= load_result (RT := reference) (w_identity world1_broken)
              = Some (CachedData_json snapshot0)) by by_vm.
  destruct (C7_failed_rebuild_keeps_the_cache (RT := reference) world1_broken
              export_path (utf8_encode broken_text) (js "Quote Not Closed") false
              P1 E1 C) as (_ & _ & _ & _ & Keep).
  change (w_cache_path world1_broken) with cache_path in Keep.
  destruct (w_files world1_broken !! cache_path) as [c|] eqn:Ec;
    [|discriminate V].
  split; [exact C|]. split; [exact R|]. split; [exact G|]. split; [exact T|].
  rewrite <- K. split; [eauto|].
  exact (Keep c (CachedData_json snapshot0) eq_refl V).
Defined.

Section UnreadableCache.
Context `{RT : Runtime}.

(** C8: the export is found at [p] and is not the cache file; the cache
    file exists but cannot be read (decryption fails, or [JSON.parse] fails
    on what was read).  Then [get(false)] deletes the cache file and rebuilds
    from the export: it is what [get(false)] is with no cache file, the
    ingestion runs once, and
    - when csv-parse accepts the export, the result is the snapshot of the
      export, the cache file is written again with the token of that
      snapshot, and the next [get(false)] is served from it;
    - when csv-parse rejects the export, its error is thrown.
    The failure to read the cache is never thrown. *)
Theorem C8_unreadable_cache_is_discarded
    (w : World) (p : jsstring) (source cache : bytes) :
  w_export_path w = Some p ->
  w_files w !! p = Some source ->
  p <> w_cache_path w ->
  w_files w !! w_cache_path w = Some cache ->
  (read_secure (w_identity w) cache = None
   \/ exists text, read_secure (w_identity w) cache = Some text
                   /\ JSON_parse text = None) ->
  let w' := set_files (delete (w_cache_path w)) w in
  loadCachedData w = (Return JNull, w')
  /\ w_files w' !! w_cache_path w = None
  /\ getCachedData false w = rebuild w'
  /\ getCachedData false w = getCachedData false w'
  /\ w_ingestions (getCachedData false w).2 = S (w_ingestions w)
  /\ (forall records,
        csv_parse (utf8_decode source) = inr records ->
        - 2 ^ 53 < w_now w < 2 ^ 53 ->
        let d := snapshot w (utf8_decode source) records in
        let w1 := rebuilt w' p d in
        getCachedData false w = (Return (CachedData_json d), w1)
        /\ w_files w1 !! w_cache_path w
           = Some (utf8_encode (token_of (JSON_stringify 2 (CachedData_json d)) w))
        /\ getCachedData false w1 = (Return (CachedData_json d), w1))
  /\ (forall message,
        csv_parse (utf8_decode source) = inl message ->
        getCachedData false w
        = (Throw (CsvParseFailed message), count_ingestion w'))
  /\ (getCachedData false w).1 <> Throw DecryptionError
  /\ (getCachedData false w).1 <> Throw SyntaxError.
Proof.
  intros Hp He Ne Hc Hf w'.
  assert (Hl : load_result (w_identity w) cache = None).
  { unfold load_result. destruct Hf as [-> | (text & -> & E)]; [reflexivity | exact E]. }
  assert (D : w_files w' !! w_cache_path w' = None) by apply lookup_delete_eq.
  assert (Hp' : w_export_path w' = Some p) by exact Hp.
  assert (He' : w_files w' !! p = Some source).
  { cbn [w' w_files set_files]. rewrite lookup_delete_ne by congruence. exact He. }
  assert (L : loadCachedData w = (Return JNull, w')).
  { rewrite loadCachedData_eq, Hc, Hl. reflexivity. }
  assert (G : getCachedData false w = rebuild w').
  { rewrite getCachedData_eq, Hp, He, L. reflexivity. }
  assert (G' : getCachedData false w' = rebuild w')
    by exact (getCachedData_no_cache w' p Hp' D).
  split; [exact L|]. split; [exact D|]. split; [exact G|].
  split; [rewrite G, G'; reflexivity|].
  split; [rewrite G; exact (rebuild_ingests w' p source Hp' He')|].
  split; [|split].
  - intros records C N d w1.
    destruct (get_after_rebuild w' p source records Hp' D He' C N) as [A B].
    split; [rewrite G, <- G'; exact A|]. split; [|exact B].
    apply lookup_insert_eq.
  - intros message C. rewrite G, rebuild_eq, refreshCache_eq, Hp', He', C.
    reflexivity.
  - rewrite G, rebuild_eq, refreshCache_eq, Hp', He'.
    destruct (csv_parse (utf8_decode source)); split; discriminate.
Qed.

End UnreadableCache.

(** C8 on the reference runtime: a cache file that is neither a token nor
    JSON, and the cache file of the first scenario with one more hexadecimal
    digit at the end of its ciphertext, which [decipher.update] refuses. *)
Lemma C8_witness :
  let w' := set_files (delete cache_path) world_garbled in
  let v' := set_files (delete cache_path) world_longer in
  (JSON_parse (Runtime := reference) (js "{not json") = None
   /\ loadCachedData (RT := reference) world_garbled = (Return JNull, w')
   /\ getCachedData (RT := reference) false world_garbled
      = (Return (CachedData_json snapshot0), rebuilt (RT := reference) w' export_path snapshot0)
   /\ w_ingestions (getCachedData (RT := reference) false world_garbled).2 = 1%nat)
  /\ (read_secure (RT := reference) machine cache1 = Some clear_text
      /\ read_secure (RT := reference) machine cache1_longer = None
      /\ loadCachedData (RT := reference) world_longer = (Return JNull, v')
      /\ getCachedData (RT := reference) false world_longer
         = (Return (CachedData_json snapshot0), rebuilt (RT := reference) v' export_path snapshot0)
      /\ w_ingestions (getCachedData (RT := reference) false world_longer).2 = 1%nat).
Proof.
  cbv zeta.
  assert (C : csv_parse (Runtime := reference)
                (utf8_decode (utf8_encode export_text)) = inr records0) by by_vm.
  assert (N : - 2 ^ 53 < 1700000000000 < 2 ^ 53) by (vm_compute; split; reflexivity).
  assert (Ne : export_path <> cache_path) by (vm_compute; discriminate).
  split.
  - assert (P : JSON_parse (Runtime := reference) (js "{not json") = None) by by_vm.
    destruct (C8_unreadable_cache_is_discarded (RT := reference) world_garbled
                export_path (utf8_encode export_text) (utf8_encode (js "{not json")))
      as (L & _ & _ & _ & I & R & _).
    + reflexivity.
    + by_vm.
    + exact Ne.
    + by_vm.
    + right. exists (js "{not json"). split; [by_vm | exact P].
    + destruct (R records0 C N) as (G & _).
      split; [exact P|]. split; [exact L|]. split; [exact G | exact I].
  - assert (Q : read_secure (RT := reference) machine cache1_longer = None) by by_vm.
    destruct (C8_unreadable_cache_is_discarded (RT := reference) world_longer
                export_path (utf8_encode export_text) cache1_longer)
      as (L & _ & _ & _ & I & R & _).
    + reflexivity.
    + by_vm.
    + exact Ne.
    + by_vm.
    + left. exact Q.
    + destruct (R records0 C N) as (G & _).
      split; [by_vm|]. split; [exact Q|]. split; [exact L|].
      split; [exact G | exact I].
Defined.

(** ** Field extraction *)

(** C9 (as amended): every field of a parsed item is the value, taken as it
    stands, of the first synonym of its list whose value in the row is not
    the empty string ([first_nonempty], characterised by
    [first_nonempty_spec]); a synonym that is present with an empty value is
    passed over like an absent one, and the field is the empty string (name,
    password, note body) or undefined when no synonym has a value.  Values of
    different synonyms are never merged. *)
Theorem C9_first_nonempty_synonym_wins (r : record) :
  let pick keys := first_nonempty keys r in
  let str keys := default [] (first_nonempty keys r) in
  parsePassword r
  = {| pw_name := str ["name"; "title"]%string;
       pw_url := pick ["url"; "website"]%string;
       pw_username := pick ["username"; "login"]%string;
       pw_password := str ["password"]%string;
       pw_note := pick ["note"; "notes"]%string;
       pw_folder := pick ["folder"; "category"]%string |}
  /\ parseCreditCard r
  = {| cc_name := str ["name"; "title"]%string;
       cc_cardholderName :=
         pick ["cardholderName"; "cardholder_name"; "cardholder"]%string;
       cc_cardNumber := pick ["cardNumber"; "card_number"; "number"]%string;
       cc_expiryDate := pick ["expiryDate"; "expiry_date"; "expiry"]%string;
       cc_cvv := pick ["cvv"; "cvc"; "securityCode"]%string;
       cc_note := pick ["note"; "notes"]%string;
       cc_folder := pick ["folder"; "category"]%string |}
  /\ parseSecureNote r
  = {| sn_name := str ["name"; "title"]%string;
       sn_note := str ["note"; "notes"]%string;
       sn_folder := pick ["folder"; "category"]%string |}.
Proof.
  cbv zeta. unfold parsePassword, parseCreditCard, parseSecureNote.
  rewrite !or3, !or2, !or2_str, !or1_str. repeat split.
Qed.

(** C9 (as stated) fails: with [name] present but empty and [title] set, the
    name of the item is the title, not the empty string. *)
Lemma C9_empty_first_synonym_is_skipped :
  let r := row [("name", ""); ("title", "Bank")]%string in
  r !! js "name" = Some [] /\ pw_name (parsePassword r) = js "Bank"
  /\ cc_name (parseCreditCard r) = js "Bank".
Proof. vm_compute. repeat split. Qed.

(** ** Files written with [writeSecureFile] *)

Section SecureFile.
Context `{RT : Runtime}.

(** C10 (as amended): [writeSecureFile path x true] then [readSecureFile
    path] returns [x] for every non-empty well-formed [x]; for the empty
    string it returns the text of the token itself (which is not empty),
    because a token whose [encrypted] field is the empty string is not taken
    for encrypted content. *)
Theorem C10_write_then_read_secure_file (path x : jsstring) (w : World) :
  let w' := written path x w in
  writeSecureFile path x true w = (Return tt, w')
  /\ (x <> [] -> isWellFormed x = true -> readSecureFile path w' = (Return x, w'))
  /\ (x = [] ->
      encryptData x w = (Return (token_of x w), use_random 16 w)
      /\ readSecureFile path w' = (Return (token_of x w), w')
      /\ token_of x w <> []).
Proof.
  cbv zeta. split; [apply writeSecureFile_eq|].
  assert (R : readSecureFile path (written path x w)
              = (match read_secure (w_identity w) (utf8_encode (token_of x w)) with
                 | Some text => Return text
                 | None => Throw DecryptionError
                 end, written path x w)).
  { rewrite readSecureFile_eq. unfold written.
    cbn [w_files set_modes set_files w_identity use_random].
    rewrite lookup_insert_eq. reflexivity. }
  rewrite R, read_secure_token_of. split.
  - intros N W. rewrite bool_decide_eq_false_2 by exact N.
    rewrite utf8_decode_encode by exact W. reflexivity.
  - intros ->. rewrite bool_decide_eq_true_2 by reflexivity.
    repeat split. apply JSON_nonempty.
Qed.

End SecureFile.

(** C10 (as stated) fails for a non-empty string that holds a surrogate
    outside a pair: what is read back is U+FFFD. *)
Lemma C10_lone_surrogate_read_back_replaced :
  [0xDC00] <> [] /\ [0xDC00] <> [0xFFFD]
  /\ forall (RT : Runtime) (path : jsstring) (w : World),
       writeSecureFile path [0xDC00] true w = (Return tt, written path [0xDC00] w)
       /\ readSecureFile path (written path [0xDC00] w)
          = (Return [0xFFFD], written path [0xDC00] w).
Proof.
  split; [discriminate|]. split; [discriminate|]. intros RT path w.
  split; [apply writeSecureFile_eq|].
  rewrite readSecureFile_eq. unfold written.
  cbn [w_files set_modes set_files w_identity use_random].
  rewrite lookup_insert_eq, read_secure_token_of. reflexivity.
Qed.

(** Both cases of C10 on the reference runtime: a non-empty well-formed
    string is read back, and for the empty string the token is. *)
Lemma C10_witness :
  let w' := written (RT := reference) cache_path sample world0 in
  let e := written (RT := reference) cache_path [] world0 in
  (sample <> [] /\ isWellFormed sample = true)
  /\ readSecureFile (RT := reference) cache_path w' = (Return sample, w')
  /\ readSecureFile (RT := reference) cache_path e
     = (Return (token_of (RT := reference) [] world0), e).
Proof.
  assert (N : sample <> []) by discriminate.
  assert (W : isWellFormed sample = true) by by_vm.
  destruct (C10_write_then_read_secure_file (RT := reference) cache_path sample
              world0) as (_ & R & _).
  destruct (C10_write_then_read_secure_file (RT := reference) cache_path []
              world0) as (_ & _ & E).
  split; [split; assumption|]. split; [exact (R N W)|].
  exact (proj1 (proj2 (E eq_refl))).
Defined.

(** * Further properties *)

(** X1: a row whose [type] is absent or empty is classified by its fields,
    cards before credentials before notes, and is a credential when it has
    none of the indicator fields. *)
Theorem classify_without_type (r : record) :
  truthy (prop r "type") = false ->
  classify r
  = if hasCreditCardFields r then Some (ItemCreditCard (parseCreditCard r))
    else if hasPasswordFields r then Some (ItemPassword (parsePassword r))
    else if hasSecureNoteFields r then Some (ItemSecureNote (parseSecureNote r))
    else Some (ItemPassword (parsePassword r)).
Proof.
  intros T. unfold classify, itemType.
  assert (E : js_or_str (toLowerCase <$> prop r "type") (inferItemType r)
              = inferItemType r).
  { destruct (prop r "type") as [[|c s]|]; try reflexivity. discriminate T. }
  rewrite E. unfold inferItemType.
  destruct (hasCreditCardFields r); [reflexivity|].
  destruct (hasPasswordFields r); [reflexivity|].
  destruct (hasSecureNoteFields r); reflexivity.
Qed.

(** A row with card and credential fields and no [type] is a card; a row
    with an empty [type] and no indicator field is a credential. *)
Lemma classify_without_type_witness :
  let r := row [("cardNumber", "4111111111111111"); ("password", "hunter2")]%string in
  let bare := row [("name", "Home"); ("type", "")]%string in
  (truthy (prop r "type") = false /\ truthy (prop bare "type") = false)
  /\ classify r = Some (ItemCreditCard (parseCreditCard r))
  /\ classify bare = Some (ItemPassword (parsePassword bare)).
Proof.
  cbv zeta.
  split; [split; reflexivity|]. split.
  - rewrite classify_without_type by reflexivity. reflexivity.
  - rewrite classify_without_type by reflexivity. reflexivity.
Defined.

(** [clearCache] always returns, whether or not there is a cache file. *)
Lemma clearCache_eq w :
  clearCache w
  = (Return tt, if bool_decide (is_Some (w_files w !! w_cache_path w))
                then set_files (delete (w_cache_path w)) w else w).
Proof.
  cbv [clearCache try_catch bind getCacheFilePath get_world ret existsSync
       unlinkSync modify throw].
  destruct (w_files w !! w_cache_path w) as [c|] eqn:E.
  - rewrite bool_decide_eq_true_2 by eauto. rewrite E. reflexivity.
  - rewrite bool_decide_eq_false_2 by (intros [? ?]; discriminate). reflexivity.
Qed.

(** X2: [clearCache] never throws; after it the cache file does not exist,
    every other file is as it was, and doing it again changes nothing. *)
Theorem clearCache_removes_the_cache (w : World) :
  let w' := (clearCache w).2 in
  (clearCache w).1 = Return tt
  /\ w_files w' !! w_cache_path w = None
  /\ (forall p, p <> w_cache_path w -> w_files w' !! p = w_files w !! p)
  /\ clearCache w' = (Return tt, w').
Proof.
  cbv zeta. rewrite !clearCache_eq. cbn [fst snd].
  destruct (w_files w !! w_cache_path w) as [c|] eqn:E.
  - rewrite bool_decide_eq_true_2 by eauto.
    cbn [w_files set_files w_cache_path]. rewrite lookup_delete_eq.
    rewrite bool_decide_eq_false_2 by (intros [? ?]; discriminate).
    repeat split. intros p N. apply lookup_delete_ne. congruence.
  - rewrite bool_decide_eq_false_2 by (intros [? ?]; discriminate).
    rewrite E. rewrite bool_decide_eq_false_2 by (intros [? ?]; discriminate).
    repeat split.
Qed.

(** The "hex" reading of [Buffer.from] and of [decipher.update] takes a
    letter in either case. *)
Lemma hex_value_upper c : hex_value (upper_hex c) = hex_value c.
Proof.
  unfold upper_hex.
  destruct ((97 <=? c) && (c <=? 102)) eqn:L; [|reflexivity].
  assert (H : c = 97 \/ c = 98 \/ c = 99 \/ c = 100 \/ c = 101 \/ c = 102) by lia.
  destruct H as [->|[->|[->|[->|[->| ->]]]]]; reflexivity.
Qed.

Lemma length_upper_at i s : length (upper_at i s) = length s.
Proof. apply length_alter. Qed.

Lemma upper_hex_one_bit c : upper_hex c = c \/ Z.lxor (upper_hex c) c = 32.
Proof.
  unfold upper_hex. destruct ((97 <=? c) && (c <=? 102)) eqn:L; [right|left; reflexivity].
  assert (H : c = 97 \/ c = 98 \/ c = 99 \/ c = 100 \/ c = 101 \/ c = 102) by lia.
  destruct H as [->|[->|[->|[->|[->| ->]]]]]; reflexivity.
Qed.

Lemma hex_decode_upper_at s : forall i, hex_decode (upper_at i s) = hex_decode s.
Proof.
  unfold upper_at. induction s as [s IH] using (induction_ltof1 _ (@length Z)).
  unfold ltof in IH. intros i.
  destruct s as [|c1 [|c2 s]]; [reflexivity | destruct i; reflexivity |].
  destruct i as [|[|i]]; cbn [alter list_alter hex_decode].
  - rewrite hex_value_upper. reflexivity.
  - rewrite hex_value_upper. reflexivity.
  - change (list_alter upper_hex i s) with (alter upper_hex i s).
    rewrite IH by (cbn [length]; lia). reflexivity.
Qed.

Lemma str_ok_upper_at i s : str_ok s -> str_ok (upper_at i s).
Proof.
  unfold str_ok, upper_at. intros H. apply Forall_alter; [exact H|].
  intros c _ R. unfold upper_hex. destruct ((97 <=? c) && (c <=? 102)) eqn:L; lia.
Qed.

Section HexCase.
Context `{RT : Runtime}.

(** X3: [decryptData] reads the hexadecimal fields of a token in either
    case: a token of a well-formed [x] in which a character of the [authTag]
    field and a character of the [encrypted] field are put in upper case (for
    a letter, a change of one bit of the text) still decrypts to [x]. *)
Theorem decryptData_reads_hex_in_either_case
    (x : jsstring) (w w' : World) (i j : nat) :
  isWellFormed x = true -> w_identity w' = w_identity w ->
  let key := key_of (w_identity w) in
  let iv := next_iv w in
  let c := gcm_encrypt key iv (utf8_encode x) in
  let changed :=
    JSON_stringify 0
      (token (hex_encode iv) (upper_at i (hex_encode c.2))
         (upper_at j (hex_encode c.1))) in
  encryptData x w
  = (Return (JSON_stringify 0
               (token (hex_encode iv) (hex_encode c.2) (hex_encode c.1))),
     use_random 16 w)
  /\ decryptData changed w' = (Return x, w').
Proof.
  intros W I key iv c changed. split; [reflexivity|].
  rewrite decryptData_eq, I. fold key. unfold changed.
  rewrite decrypt_with_fields
    by (try apply str_ok_upper_at; apply str_ok_hex).
  rewrite length_upper_at, even_length_hex_encode.
  rewrite !hex_decode_upper_at, !hex_decode_encode.
  unfold c. rewrite gcm_correct by (apply length_key_of || apply length_next_iv).
  cbn [fmap option_fmap option_map]. rewrite utf8_decode_encode by exact W.
  reflexivity.
Qed.

End HexCase.

(** On the reference runtime: the tag of the token has a letter at index 13
    and the ciphertext one at index 0. *)
Lemma decryptData_reads_hex_in_either_case_witness :
  let key := key_of (RT := reference) (w_identity world0) in
  let iv := next_iv world0 in
  let c := gcm_encrypt (Runtime := reference) key iv (utf8_encode sample) in
  let authTag := upper_at 13 (hex_encode c.2) in
  let encrypted := upper_at 0 (hex_encode c.1) in
  (authTag <> hex_encode c.2 /\ encrypted <> hex_encode c.1)
  /\ decryptData (RT := reference)
       (JSON_stringify (Runtime := reference) 0
          (token (hex_encode iv) authTag encrypted)) world1
     = (Return sample, world1).
Proof.
  cbv zeta. split; [split; vm_compute; discriminate|].
  assert (W : isWellFormed sample = true) by by_vm.
  assert (I : w_identity world1 = w_identity world0) by by_vm.
  exact (proj2 (decryptData_reads_hex_in_either_case (RT := reference) sample
                  world0 world1 13 0 W I)).
Defined.

(** ** parser.ts *)

(** X4: each array [parseExportFile] returns holds, in the order of the rows,
    the items of the rows classified as its kind; a row lands in at most one
    array, the three arrays together hold as many items as there are rows
    that are not dropped, and the arrays of two lists of rows put end to end
    are the arrays of each, put end to end. *)
Theorem parseRecords_selects_in_order (rows more : list record) :
  passwords (parseRecords rows) = omap as_password rows
  /\ creditCards (parseRecords rows) = omap as_creditCard rows
  /\ secureNotes (parseRecords rows) = omap as_secureNote rows
  /\ (length (passwords (parseRecords rows))
      + length (creditCards (parseRecords rows))
      + length (secureNotes (parseRecords rows))
      = length (filter (fun r => is_Some (classify r)) rows))%nat
  /\ passwords (parseRecords (rows ++ more))
     = passwords (parseRecords rows) ++ passwords (parseRecords more)
  /\ creditCards (parseRecords (rows ++ more))
     = creditCards (parseRecords rows) ++ creditCards (parseRecords more)
  /\ secureNotes (parseRecords (rows ++ more))
     = secureNotes (parseRecords rows) ++ secureNotes (parseRecords more).
Proof.
  unfold parseRecords. rewrite !fold_push. cbn [passwords creditCards secureNotes app].
  rewrite kept_count, !omap_app. repeat split.
Qed.

(** X5: a [type] that is, in any letter case, one of the names of the table
    decides the kind of the row, whatever other fields the row has. *)
Theorem explicit_type_decides (r : record) (t : jsstring) :
  r !! js "type" = Some t ->
  (is_one_of (toLowerCase t) ["password"; "login"]%string = true ->
   classify r = Some (ItemPassword (parsePassword r)))
  /\ (is_one_of (toLowerCase t) ["creditcard"; "credit_card"; "card"]%string = true ->
      classify r = Some (ItemCreditCard (parseCreditCard r)))
  /\ (is_one_of (toLowerCase t) ["note"; "securenote"; "secure_note"]%string = true ->
      classify r = Some (ItemSecureNote (parseSecureNote r))).
Proof.
  intros T. split; [|split]; typed_as r t.
Qed.

(** A card typed [Credit_Card] that has credential fields, and a note typed
    [NOTE] that has a URL. *)
Lemma explicit_type_decides_witness :
  let r := row [("type", "Credit_Card"); ("name", "Visa"); ("password", "hunter2");
                ("username", "alice")]%string in
  let n := row [("type", "NOTE"); ("url", "https://example.com")]%string in
  hasPasswordFields r = true /\ hasCreditCardFields r = false
  /\ classify r = Some (ItemCreditCard (parseCreditCard r))
  /\ classify n = Some (ItemSecureNote (parseSecureNote n)).
Proof.
  cbv zeta. split; [reflexivity|]. split; [reflexivity|]. split.
  - apply (explicit_type_decides _ (js "Credit_Card")); reflexivity.
  - apply (explicit_type_decides _ (js "NOTE")); reflexivity.
Defined.

(** X6: an optional field of a parsed item is [undefined] or a non-empty
    string, never the empty string. *)
Theorem optional_fields_are_never_empty (r : record) :
  let p := parsePassword r in
  let c := parseCreditCard r in
  let n := parseSecureNote r in
  (filled (pw_url p) /\ filled (pw_username p) /\ filled (pw_note p)
   /\ filled (pw_folder p))
  /\ (filled (cc_cardholderName c) /\ filled (cc_cardNumber c)
      /\ filled (cc_expiryDate c) /\ filled (cc_cvv c) /\ filled (cc_note c)
      /\ filled (cc_folder c))
  /\ filled (sn_folder n).
Proof. cbv zeta. repeat split; apply filled_or_None. Qed.

Section Fingerprint.
Context `{RT : Runtime}.

(** X7: [calculateFileHash] changes nothing; on a file that exists it
    returns the fingerprint of its text, which is one to six digits of
    [0-9a-z] after an optional minus sign; on a missing file it throws the
    error of [readFileSync]. *)
Theorem calculateFileHash_format (filePath : jsstring) (w : World) :
  (calculateFileHash filePath w).2 = w
  /\ match (calculateFileHash filePath w).1 with
     | Return h =>
         exists content sign digits,
           w_files w !! filePath = Some content
           /\ h = hash_of_text (utf8_decode content)
           /\ h = sign ++ digits /\ (sign = [] \/ sign = js "-")
           /\ digits <> [] /\ (length digits <= 6)%nat
           /\ Forall is_digit36 digits
     | Throw e => e = ENOENT filePath /\ w_files w !! filePath = None
     end.
Proof.
  unfold calculateFileHash, readFileSync. cbv [bind get_world ret throw].
  destruct (w_files w !! filePath) as [content|] eqn:E; cbn [fst snd].
  - split; [reflexivity|].
    destruct (toString36_format (hash_loop (utf8_decode content))
                (hash_loop_range _)) as (digits & E1 & N & L & F).
    exists content, (if hash_loop (utf8_decode content) <? 0 then [45] else []), digits.
    repeat split; try assumption.
    destruct (hash_loop (utf8_decode content) <? 0); [right|left]; reflexivity.
  - repeat split.
Qed.

End Fingerprint.

(** X8: two texts of the same length and the same fingerprint can be
    exchanged inside any text without changing its fingerprint. *)
Theorem fingerprint_collisions_spread (before a b after : jsstring) :
  length a = length b -> hash_of_text a = hash_of_text b ->
  hash_of_text (before ++ a ++ after) = hash_of_text (before ++ b ++ after).
Proof.
  unfold hash_of_text. intros L E%toString36_inj. f_equal.
  rewrite !app_assoc. unfold hash_loop.
  rewrite (fold_left_app _ (before ++ a) after), (fold_left_app _ (before ++ b) after).
  f_equal. apply (hash_loop_middle before a b L E).
Qed.

(** The passwords [Aa] and [BB] inside one row of an export. *)
Lemma fingerprint_collisions_spread_witness :
  js "Aa" <> js "BB"
  /\ hash_of_text (js "name,password" ++ [10] ++ js "Bank," ++ js "Aa" ++ js ",x")
     = hash_of_text (js "name,password" ++ [10] ++ js "Bank," ++ js "BB" ++ js ",x").
Proof.
  split; [discriminate|].
  rewrite !(app_assoc (js "name,password")), !(app_assoc (_ ++ [10])).
  apply fingerprint_collisions_spread; vm_compute; reflexivity.
Defined.

(** ** encryption.ts *)

Section SecureFiles.
Context `{RT : Runtime}.

(** X9: a well-formed text written with [writeSecureFile(path, data, false)]
    is read back by [readSecureFile] as it is when it does not have the shape
    of a token (in particular when it is not JSON); a text that has the shape
    of a token is decrypted instead. *)
Theorem plain_write_then_read (path data : jsstring) (w : World) :
  isWellFormed data = true ->
  let w' := set_modes <[path := 384]> (set_files <[path := utf8_encode data]> w) in
  writeSecureFile path data false w = (Return tt, w')
  /\ readSecureFile path w'
     = (if isEncrypted data then decryptData data w' else (Return data, w'))
  /\ (JSON_parse data = None -> readSecureFile path w' = (Return data, w')).
Proof.
  intros W w'. split; [apply writeSecureFile_plain_eq|].
  assert (R : readSecureFile path w'
              = if isEncrypted data then decryptData data w' else (Return data, w')).
  { unfold readSecureFile, readFileSync. cbv [bind get_world ret].
    subst w'. cbn [w_files set_modes set_files]. rewrite lookup_insert_eq.
    rewrite utf8_decode_encode by exact W.
    destruct (isEncrypted data); reflexivity. }
  split; [exact R|]. intros P. rewrite R. unfold isEncrypted. rewrite P. reflexivity.
Qed.

(** X10: when [writeSecureFile] returns, the file holds the text it was
    given, or a token of it when encrypting.  Whether it returns or not, no
    other file and no other mode has changed, the mode of the file is 0600
    or what it was (a change of mode that is refused is not an error), and
    16 bytes of the random source were used when encrypting, none
    otherwise. *)
Theorem writeSecureFile_effects (path data : jsstring) (encrypt : bool) (w : World) :
  let w' := (writeSecureFile path data encrypt w).2 in
  ((writeSecureFile path data encrypt w).1 = Return tt ->
   w_files w' !! path
   = Some (utf8_encode (if encrypt then token_of data w else data)))
  /\ (w_modes w' !! path = Some 384 \/ w_modes w' !! path = w_modes w !! path)
  /\ (forall q, q <> path ->
        w_files w' !! q = w_files w !! q /\ w_modes w' !! q = w_modes w !! q)
  /\ w_random_used w' = (w_random_used w + if encrypt then 16 else 0)%nat.
Proof.
  cbv zeta. destruct encrypt.
  - rewrite writeSecureFile_eq. unfold written.
    cbn [fst snd w_files w_modes set_modes set_files w_random_used use_random].
    rewrite !lookup_insert_eq. repeat split; eauto;
      apply lookup_insert_ne; congruence.
  - rewrite writeSecureFile_plain_eq.
    cbn [fst snd w_files w_modes set_modes set_files w_random_used].
    rewrite !lookup_insert_eq. repeat split; eauto; try lia;
      apply lookup_insert_ne; congruence.
Qed.

(** X11: [setSecureFilePermissions] and [secureExportFile] do the same, as
    best they can: they never throw and never change the content of a file;
    the one mode they can change is that of the file, to 0600; nothing
    changes when the file does not exist. *)
Theorem permissions_are_best_effort (filePath : jsstring) (w : World) :
  let w' := (setSecureFilePermissions filePath w).2 in
  secureExportFile filePath w = setSecureFilePermissions filePath w
  /\ (setSecureFilePermissions filePath w).1 = Return tt
  /\ w_files w' = w_files w
  /\ (forall q, q <> filePath -> w_modes w' !! q = w_modes w !! q)
  /\ (w_modes w' !! filePath = Some 384
      \/ w_modes w' !! filePath = w_modes w !! filePath)
  /\ (w_files w !! filePath = None -> w' = w).
Proof.
  cbv zeta. rewrite secureExportFile_effect, setSecureFilePermissions_eq. cbn [fst snd].
  split; [reflexivity|]. split; [reflexivity|].
  destruct (w_files w !! filePath) as [c|] eqn:E.
  - rewrite bool_decide_eq_true_2 by eauto. cbn [w_files w_modes set_modes].
    split; [reflexivity|]. split; [intros q N; apply lookup_insert_ne; congruence|].
    split; [left; apply lookup_insert_eq | discriminate].
  - rewrite bool_decide_eq_false_2 by (intros [? ?]; discriminate).
    split; [reflexivity|]. split; [reflexivity|].
    split; [right; reflexivity | reflexivity].
Qed.

End SecureFiles.

(** A text that is not JSON, on the reference runtime. *)
Lemma plain_write_then_read_witness :
  let data := js "legacy snapshot, not JSON" in
  let w' := set_modes <[cache_path := 384]>
              (set_files <[cache_path := utf8_encode data]> world0) in
  (isWellFormed data = true /\ JSON_parse (Runtime := reference) data = None)
  /\ readSecureFile (RT := reference) cache_path w' = (Return data, w').
Proof.
  cbv zeta.
  assert (W : isWellFormed (js "legacy snapshot, not JSON") = true) by by_vm.
  assert (P : JSON_parse (Runtime := reference) (js "legacy snapshot, not JSON") = None)
    by by_vm.
  split; [split; assumption|].
  exact (proj2 (proj2 (plain_write_then_read (RT := reference) cache_path _ world0 W)) P).
Defined.

(** ** storage.ts *)

Section Storage.
Context `{RT : Runtime}.

(** X12: [loadCachedData] never throws.  It changes nothing, or returns
    [null] after deleting the cache file; with no cache file it returns
    [null] and changes nothing; no other file is ever touched. *)
Theorem loadCachedData_never_throws (w : World) :
  let w' := (loadCachedData w).2 in
  exists cached,
    (loadCachedData w).1 = Return cached
    /\ (w' = w \/ (cached = JNull /\ w' = set_files (delete (w_cache_path w)) w))
    /\ (w_files w !! w_cache_path w = None -> cached = JNull /\ w' = w)
    /\ (forall q, q <> w_cache_path w -> w_files w' !! q = w_files w !! q).
Proof.
  cbv zeta. rewrite loadCachedData_eq.
  destruct (w_files w !! w_cache_path w) as [c|] eqn:E.
  - destruct (load_result (w_identity w) c) as [cached|].
    + exists cached. cbn [fst snd]. repeat split; auto. discriminate.
    + exists JNull. cbn [fst snd]. split; [reflexivity|]. split; [auto|].
      split; [discriminate|]. intros q N. cbn [w_files set_files].
      apply lookup_delete_ne. congruence.
  - exists JNull. cbn [fst snd]. repeat split; auto.
Qed.

(** X13: what [saveCachedData] saves, [loadCachedData] loads: when saving a
    snapshot returns, loading returns that snapshot and changes nothing.
    Saving changes no other file and no other mode, and the mode of the cache
    file is 0600 or what it was. *)
Theorem save_then_load (d : CachedData) (w : World) :
  CachedData_ok d ->
  let w' := (saveCachedData d w).2 in
  ((saveCachedData d w).1 = Return tt ->
   loadCachedData w' = (Return (CachedData_json d), w'))
  /\ (forall q, q <> w_cache_path w ->
        w_files w' !! q = w_files w !! q /\ w_modes w' !! q = w_modes w !! q)
  /\ (w_modes w' !! w_cache_path w = Some 384
      \/ w_modes w' !! w_cache_path w = w_modes w !! w_cache_path w).
Proof.
  intros Hd. cbv zeta. rewrite saveCachedData_eq. cbn [fst snd]. split.
  - intros _. rewrite loadCachedData_eq. unfold written.
    cbn [w_files w_cache_path w_identity set_modes set_files use_random].
    rewrite lookup_insert_eq, load_result_written by exact Hd. reflexivity.
  - unfold written. cbn [w_files w_modes set_modes set_files use_random].
    split; [|left; apply lookup_insert_eq].
    intros q N. split; apply lookup_insert_ne; congruence.
Qed.

(** A rebuild that returns has run the ingestion. *)
Lemma rebuild_returns_ingested w cached w' :
  rebuild w = (Return cached, w') -> w_ingestions w' = S (w_ingestions w).
Proof.
  rewrite rebuild_eq, refreshCache_eq.
  destruct (w_export_path w) as [p|]; [|discriminate].
  destruct (w_files w !! p) as [content|]; [|discriminate].
  destruct (csv_parse (utf8_decode content)); [discriminate|].
  intros [= _ <-]. reflexivity.
Qed.

(** [refreshCache] asks [getExportFilePath] for the path itself: its test of
    [existsSync] never fails. *)
Lemma refreshCache_found w p : (refreshCache w).1 <> Throw (ExportNotFoundAt p).
Proof.
  rewrite refreshCache_eq.
  destruct (w_export_path w) as [q|]; [|discriminate].
  destruct (w_files w !! q) as [content|]; [|discriminate].
  destruct (csv_parse (utf8_decode content)); discriminate.
Qed.

Lemma rebuild_found w p : (rebuild w).1 <> Throw (ExportNotFoundAt p).
Proof.
  rewrite rebuild_eq. pose proof (refreshCache_found w p) as H.
  destruct (refreshCache w) as [[d|e] w']; [discriminate|].
  cbn [fst] in *. intros [= ->]. apply H. reflexivity.
Qed.

(** X14: when no export can be found (no place is known, or no file is
    there), [refreshCache] and [getCachedData], forced or not, cache or no
    cache, throw the not-configured error and change nothing: no ingestion
    starts, and the cache file is neither read nor deleted.  The not-found
    error with the path is never thrown by either: [getExportFilePath] only
    returns the path of a file that exists. *)
Theorem missing_export_is_reported (w : World) (forceRefresh : bool) :
  ((w_export_path w = None
    \/ exists p, w_export_path w = Some p /\ w_files w !! p = None) ->
   refreshCache w = (Throw ExportNotConfigured, w)
   /\ getCachedData forceRefresh w = (Throw ExportNotConfigured, w))
  /\ (forall p, (refreshCache w).1 <> Throw (ExportNotFoundAt p))
  /\ (forall p, (getCachedData forceRefresh w).1 <> Throw (ExportNotFoundAt p)).
Proof.
  split; [|split].
  - intros [Hp | (p & Hp & He)].
    + rewrite refreshCache_eq, getCachedData_eq, Hp. split; reflexivity.
    + rewrite refreshCache_eq, getCachedData_eq, Hp, He. split; reflexivity.
  - apply refreshCache_found.
  - intros q. rewrite getCachedData_eq.
    destruct (w_export_path w) as [p|]; [|discriminate].
    destruct (w_files w !! p) as [source|] eqn:He; [|discriminate].
    destruct forceRefresh; [apply rebuild_found|].
    rewrite loadCachedData_eq.
    destruct (w_files w !! w_cache_path w) as [c|]; [|apply rebuild_found].
    destruct (load_result (w_identity w) c) as [cached|]; [|apply rebuild_found].
    destruct (js_truthy (Some cached)); [|apply rebuild_found].
    rewrite He.
    destruct (hash_differs _ _); [apply rebuild_found | discriminate].
Qed.

(** X15: [get(false)] returns a snapshot only when the export is found, and
    then the snapshot is that of a rebuild (the ingestion has run), or it is
    what the cache file holds, its fingerprint is the fingerprint of the
    export as it is now, and nothing has changed.  A cached snapshot is not
    served without the export. *)
Theorem cache_is_not_served_without_the_export
    (w w' : World) (cached : json) :
  getCachedData false w = (Return cached, w') ->
  exists p content,
    w_export_path w = Some p /\ w_files w !! p = Some content
    /\ ((getCachedData false w = rebuild (loadCachedData w).2
         /\ w_ingestions w' = S (w_ingestions w))
        \/ (w' = w
            /\ loadCachedData w = (Return cached, w)
            /\ get_prop cached "exportFileHash"
               = Some (Some (JStr (hash_of_text (utf8_decode content)))))).
Proof.
  intros G. pose proof G as G0. rewrite getCachedData_eq in G.
  destruct (w_export_path w) as [p|] eqn:Hp; [|discriminate].
  destruct (w_files w !! p) as [content|] eqn:He; [|discriminate].
  exists p, content. split; [reflexivity|]. split; [exact He|].
  rewrite loadCachedData_eq in G |- *.
  assert (R : forall w0, rebuild w0 = (Return cached, w') ->
                         getCachedData false w = rebuild w0
                         /\ w_ingestions w' = S (w_ingestions w0)).
  { intros w0 B. split; [rewrite G0, B; reflexivity|].
    exact (rebuild_returns_ingested _ _ _ B). }
  destruct (w_files w !! w_cache_path w) as [c|] eqn:Hc.
  - destruct (load_result (w_identity w) c) as [v|] eqn:Hl.
    + cbn [snd]. destruct (js_truthy (Some v)) eqn:T.
      * rewrite He in G. unfold hash_differs in G.
        destruct (get_prop v "exportFileHash") as [[[| | |h| |]|]|] eqn:Eh;
          try (left; exact (R _ G)).
        destruct (decide (h = hash_of_text (utf8_decode content))) as [->|N].
        -- rewrite bool_decide_eq_true_2 in G by reflexivity.
           injection G as <- <-. right. repeat split. exact Eh.
        -- rewrite bool_decide_eq_false_2 in G by exact N.
           left; exact (R _ G).
      * left; exact (R _ G).
    + cbn [snd]. left. exact (R _ G).
  - cbn [snd]. left. exact (R _ G).
Qed.

(** X16: a cached value whose [exportFileHash] is not a string (a cache
    written without a fingerprint) is never served while the export exists:
    [get(false)] is a rebuild. *)
Theorem cache_without_fingerprint_is_rebuilt
    (w : World) (p : jsstring) (c content : bytes) (cached : json) :
  w_export_path w = Some p ->
  w_files w !! w_cache_path w = Some c ->
  load_result (w_identity w) c = Some cached -> js_truthy (Some cached) = true ->
  w_files w !! p = Some content ->
  (forall h, get_prop cached "exportFileHash" <> Some (Some (JStr h))) ->
  getCachedData false w = rebuild w
  /\ w_ingestions (getCachedData false w).2 = S (w_ingestions w).
Proof.
  intros Hp Hc Hl T He H.
  assert (G : getCachedData false w = rebuild w).
  { rewrite getCachedData_eq, Hp, loadCachedData_eq, Hc, Hl, T, He.
    unfold hash_differs.
    destruct (get_prop cached "exportFileHash") as [[[]|]|] eqn:E;
      try reflexivity.
    exfalso. eapply H. reflexivity. }
  split; [exact G|]. rewrite G. apply (rebuild_ingests w p content Hp He).
Qed.

(** X17: [get(false)] accepts a cache file that is not encrypted: JSON in
    clear whose [exportFileHash] is the fingerprint of the export is returned
    as the snapshot, and nothing changes. *)
Theorem unencrypted_cache_is_accepted
    (w : World) (p text : jsstring) (content : bytes) (cached : json) :
  w_export_path w = Some p ->
  w_files w !! w_cache_path w = Some (utf8_encode text) ->
  isWellFormed text = true -> isEncrypted text = false ->
  JSON_parse text = Some cached -> js_truthy (Some cached) = true ->
  w_files w !! p = Some content ->
  get_prop cached "exportFileHash"
  = Some (Some (JStr (hash_of_text (utf8_decode content)))) ->
  getCachedData false w = (Return cached, w).
Proof.
  intros Hp Hc W N P T He H.
  apply (getCachedData_fresh w p cached content Hp); try assumption.
  rewrite loadCachedData_eq, Hc. unfold load_result, read_secure.
  rewrite utf8_decode_encode by exact W. rewrite N. cbn [mbind option_bind].
  rewrite P. reflexivity.
Qed.

(** X18: after [clearCache], [get(false)] is a rebuild, which runs the
    ingestion when the export exists. *)
Theorem clearCache_forces_a_rebuild (w : World) (p : jsstring) :
  w_export_path w = Some p ->
  let w' := (clearCache w).2 in
  getCachedData false w' = rebuild w'
  /\ (forall content, w_files w !! p = Some content -> p <> w_cache_path w ->
        w_ingestions (getCachedData false w').2 = S (w_ingestions w)).
Proof.
  intros Hp w'.
  assert (E : w' = if bool_decide (is_Some (w_files w !! w_cache_path w))
                   then set_files (delete (w_cache_path w)) w else w)
    by (subst w'; rewrite clearCache_eq; reflexivity).
  assert (Hp' : w_export_path w' = Some p)
    by (rewrite E; destruct (bool_decide _); exact Hp).
  assert (Hc : w_files w' !! w_cache_path w' = None).
  { rewrite E. destruct (w_files w !! w_cache_path w) as [c|] eqn:Ec.
    - rewrite bool_decide_eq_true_2 by eauto. apply lookup_delete_eq.
    - rewrite bool_decide_eq_false_2 by (intros [? ?]; discriminate). exact Ec. }
  assert (G : getCachedData false w' = rebuild w')
    by (apply (getCachedData_no_cache w' p Hp' Hc)).
  split; [exact G|]. intros content He N. rewrite G.
  assert (He' : w_files w' !! p = Some content).
  { rewrite E. destruct (bool_decide _); [|exact He].
    cbn [w_files set_files]. rewrite lookup_delete_ne by congruence. exact He. }
  rewrite (rebuild_ingests w' p content Hp' He').
  rewrite E. destruct (bool_decide _); reflexivity.
Qed.

(** X19: from a world with no cache and an export that parses,
    [getPasswords], [getCreditCards] and [getSecureNotes] called one after the
    other return the three arrays of the rows, and the ingestion runs once,
    in the first call. *)
Theorem accessors_share_one_ingestion
    (w : World) (p : jsstring) (content : bytes) (records : list record) :
  w_export_path w = Some p ->
  w_files w !! w_cache_path w = None ->
  w_files w !! p = Some content ->
  csv_parse (utf8_decode content) = inr records ->
  - 2 ^ 53 < w_now w < 2 ^ 53 ->
  let w1 := rebuilt w p (snapshot w (utf8_decode content) records) in
  getPasswords w
  = (Return (Some (JArr (map Password_json (omap as_password records)))), w1)
  /\ getCreditCards w1
     = (Return (Some (JArr (map CreditCard_json (omap as_creditCard records)))), w1)
  /\ getSecureNotes w1
     = (Return (Some (JArr (map SecureNote_json (omap as_secureNote records)))), w1)
  /\ w_ingestions w1 = S (w_ingestions w).
Proof.
  intros Hp Hc He C N w1.
  destruct (get_after_rebuild w p content records Hp Hc He C N) as [G1 G2].
  fold w1 in G1, G2.
  unfold getPasswords, getCreditCards, getSecureNotes.
  rewrite (bind_Return _ _ _ _ _ G1), !(bind_Return _ _ _ _ _ G2).
  unfold ret, read_prop, snapshot, parseRecords. rewrite !fold_push.
  repeat split.
Qed.

(** X29: the cache manager writes and deletes no file but the cache file:
    after [getCachedData], [refreshCache], [loadCachedData] or
    [saveCachedData], whatever the outcome, every other path holds what it
    held. *)
Theorem only_the_cache_file_is_written (forceRefresh : bool) (w : World) :
  (forall q, q <> w_cache_path w ->
     w_files (getCachedData forceRefresh w).2 !! q = w_files w !! q)
  /\ (forall q, q <> w_cache_path w ->
        w_files (refreshCache w).2 !! q = w_files w !! q)
  /\ (forall q, q <> w_cache_path w ->
        w_files (loadCachedData w).2 !! q = w_files w !! q)
  /\ (forall d q, q <> w_cache_path w ->
        w_files (saveCachedData d w).2 !! q = w_files w !! q).
Proof.
  split; [|split; [|split]].
  - intros q. apply getCachedData_files.
  - intros q. apply refreshCache_files.
  - intros q. apply loadCachedData_files.
  - intros d q N. rewrite saveCachedData_eq. unfold written.
    cbn [snd w_files set_modes set_files use_random].
    apply lookup_insert_ne. congruence.
Qed.

End Storage.

(** The snapshot of the first scenario. *)
Lemma save_then_load_witness :
  let w' := (saveCachedData (RT := reference) snapshot0 world0).2 in
  loadCachedData (RT := reference) w' = (Return (CachedData_json snapshot0), w').
Proof.
  assert (Hd : CachedData_ok snapshot0).
  { apply (snapshot_ok (RT := reference) world0 (utf8_encode export_text) records0).
    - by_vm.
    - vm_compute. split; reflexivity. }
  apply (proj1 (save_then_load (RT := reference) snapshot0 world0 Hd)).
  by_vm.
Defined.

(** The export is deleted after the first [get(false)]: the cache file is
    still there, and it is not served. *)
Lemma missing_export_is_reported_witness :
  w_files world1_gone !! export_path = None
  /\ loadCachedData (RT := reference) world1_gone
     = (Return (CachedData_json snapshot0), world1_gone)
  /\ refreshCache (RT := reference) world1_gone
     = (Throw ExportNotConfigured, world1_gone)
  /\ getCachedData (RT := reference) false world1_gone
     = (Throw ExportNotConfigured, world1_gone).
Proof.
  assert (He : w_files world1_gone !! export_path = None) by by_vm.
  split; [exact He|]. split; [by_vm|].
  apply (proj1 (missing_export_is_reported (RT := reference) world1_gone false)).
  right. exists export_path. split; [reflexivity | exact He].
Defined.

(** The second [get(false)] of the first scenario is served from the cache,
    whose fingerprint is that of the export. *)
Lemma cache_is_not_served_without_the_export_witness :
  getCachedData (RT := reference) false world1
  = (Return (CachedData_json snapshot0), world1)
  /\ exists p content,
       w_export_path world1 = Some p /\ w_files world1 !! p = Some content
       /\ get_prop (CachedData_json snapshot0) "exportFileHash"
          = Some (Some (JStr (hash_of_text (utf8_decode content)))).
Proof.
  assert (G : getCachedData (RT := reference) false world1
              = (Return (CachedData_json snapshot0), world1)) by by_vm.
  split; [exact G|].
  destruct (cache_is_not_served_without_the_export (RT := reference) world1 world1
              (CachedData_json snapshot0) G)
    as (p & content & Hp & He & [[_ I] | (_ & _ & H)]).
  - exfalso. vm_compute in I. discriminate I.
  - exists p, content. auto.
Defined.

(** A cache file in clear that holds an object with no fingerprint. *)
Lemma cache_without_fingerprint_is_rebuilt_witness :
  loadCachedData (RT := reference) world_legacy = (Return legacy, world_legacy)
  /\ getCachedData (RT := reference) false world_legacy
     = rebuild (RT := reference) world_legacy
  /\ w_ingestions (getCachedData (RT := reference) false world_legacy).2 = 1%nat.
Proof.
  assert (Hp : w_export_path world_legacy = Some export_path) by by_vm.
  assert (Hc : w_files world_legacy !! w_cache_path world_legacy
               = Some (utf8_encode legacy_text)) by by_vm.
  assert (Hl : load_result (RT := reference) (w_identity world_legacy)
                 (utf8_encode legacy_text) = Some legacy) by by_vm.
  assert (T : js_truthy (Some legacy) = true) by reflexivity.
  assert (He : w_files world_legacy !! export_path = Some (utf8_encode export_text))
    by by_vm.
  assert (L : loadCachedData (RT := reference) world_legacy
              = (Return legacy, world_legacy)) by by_vm.
  split; [exact L|].
  apply (cache_without_fingerprint_is_rebuilt (RT := reference) world_legacy
           export_path _ _ legacy Hp Hc Hl T He).
  intros h. discriminate.
Defined.

(** The snapshot of the first scenario, stored in clear. *)
Lemma unencrypted_cache_is_accepted_witness :
  isEncrypted (RT := reference) clear_text = false
  /\ getCachedData (RT := reference) false world_clear
     = (Return (CachedData_json snapshot0), world_clear).
Proof.
  assert (Hp : w_export_path world_clear = Some export_path) by by_vm.
  assert (Hc : w_files world_clear !! w_cache_path world_clear
               = Some (utf8_encode clear_text)) by by_vm.
  assert (W : isWellFormed clear_text = true) by by_vm.
  assert (N : isEncrypted (RT := reference) clear_text = false) by by_vm.
  assert (P : JSON_parse (Runtime := reference) clear_text
              = Some (CachedData_json snapshot0)) by by_vm.
  assert (T : js_truthy (Some (CachedData_json snapshot0)) = true) by reflexivity.
  assert (He : w_files world_clear !! export_path = Some (utf8_encode export_text))
    by by_vm.
  assert (H : get_prop (CachedData_json snapshot0) "exportFileHash"
              = Some (Some (JStr (hash_of_text (utf8_decode (utf8_encode export_text))))))
    by by_vm.
  split; [exact N|].
  exact (unencrypted_cache_is_accepted (RT := reference) world_clear export_path
           clear_text _ _ Hp Hc W N P T He H).
Defined.

(** Clearing the cache after the first [get(false)]: the next one is the
    second ingestion. *)
Lemma clearCache_forces_a_rebuild_witness :
  let w' := (clearCache world1).2 in
  w_files w' !! cache_path = None
  /\ getCachedData (RT := reference) false w' = rebuild (RT := reference) w'
  /\ w_ingestions (getCachedData (RT := reference) false w').2 = 2%nat.
Proof.
  cbv zeta.
  assert (Hp : w_export_path world1 = Some export_path) by by_vm.
  assert (He : w_files world1 !! export_path = Some (utf8_encode export_text)) by by_vm.
  assert (N : export_path <> w_cache_path world1) by (vm_compute; discriminate).
  assert (I : S (w_ingestions world1) = 2%nat) by by_vm.
  destruct (clearCache_forces_a_rebuild (RT := reference) world1 export_path Hp)
    as [G C].
  split; [by_vm|]. split; [exact G|]. rewrite <- I. exact (C _ He N).
Defined.

(** The export of the first scenario: one credential, no cards, no notes. *)
Lemma accessors_share_one_ingestion_witness :
  let w1 := rebuilt (RT := reference) world0 export_path snapshot0 in
  getPasswords (RT := reference) world0
  = (Return (Some (JArr (map Password_json (omap as_password records0)))), w1)
  /\ getCreditCards (RT := reference) w1 = (Return (Some (JArr [])), w1)
  /\ getSecureNotes (RT := reference) w1 = (Return (Some (JArr [])), w1)
  /\ w_ingestions w1 = 1%nat.
Proof.
  apply (accessors_share_one_ingestion (RT := reference) world0 export_path
           (utf8_encode export_text) records0).
  - reflexivity.
  - by_vm.
  - by_vm.
  - by_vm.
  - vm_compute. split; reflexivity.
Defined.

(** ** preferences.ts *)

(** X20: [expandTilde] leaves a path that does not start with [~/] as it is;
    it replaces the [~] of one that does with [HOME] when [HOME] holds no
    dollar sign, and with nothing when [HOME] is not set (the path then
    starts at the root). *)
Theorem expandTilde_replaces_the_tilde (env : Env) (filePath rest : jsstring) :
  (startsWith filePath (js "~/") = false ->
   Preferences.expandTilde env filePath = filePath)
  /\ (36 ∉ Preferences.HOME env ->
      Preferences.expandTilde env (js "~/" ++ rest)
      = Preferences.HOME env ++ js "/" ++ rest)
  /\ (e_HOME env = None \/ e_HOME env = Some [] ->
      Preferences.expandTilde env (js "~/" ++ rest) = js "/" ++ rest).
Proof.
  unfold Preferences.expandTilde. split; [intros ->; reflexivity|].
  rewrite (startsWith_app (js "~/") rest).
  change (drop 1 (js "~/" ++ rest)) with (js "/" ++ rest). split.
  - intros N. rewrite substitution_plain by exact N. reflexivity.
  - unfold Preferences.HOME. intros [-> | ->]; reflexivity.
Qed.

Section Resolve.
Variable path_join : list jsstring -> jsstring.
Variable env : Env.

(** X21: the scan of a directory returns the path of a file of the listing
    whose name looks like an export and whose modification time is not
    before that of any other such file; it returns nothing as soon as one
    such file cannot be examined; it returns a path when the directory
    exists, some file looks like an export and all of these can be examined. *)
Theorem scan_picks_the_most_recent (dirPath : jsstring) (files : list jsstring) :
  e_readdir env dirPath = Some files ->
  let found := Preferences.findNordPassExportInDirectory path_join env dirPath in
  let stat file := e_mtime env (path_join [dirPath; file]) in
  (forall p, found = Some p ->
     exists file t,
       file ∈ candidates files /\ p = path_join [dirPath; file] /\ stat file = Some t
       /\ forall g, g ∈ candidates files -> exists t', stat g = Some t' /\ t' <= t)
  /\ (forall g, g ∈ candidates files -> stat g = None -> found = None)
  /\ (e_exists env dirPath = true -> candidates files <> [] ->
      (forall g, g ∈ candidates files -> is_Some (stat g)) -> is_Some found).
Proof.
  intros R found stat. split; [|split].
  - intros p F. destruct (scan_found path_join env dirPath p F)
      as (files' & file & t & _ & R' & I & -> & T & Max).
    assert (files' = files) as -> by congruence.
    exists file, t. repeat split; assumption.
  - intros g I T. exact (scan_dangling path_join env dirPath files g R I T).
  - intros E N S. subst found. rewrite (scan_eq path_join env dirPath files E R).
    destruct (mapM _ (candidates files)) as [exportFiles|] eqn:M.
    + cbn [mbind option_bind].
      destruct (Preferences.sort_recent_first exportFiles) as [|first rest] eqn:So;
        [|eauto].
      exfalso. apply mapM_Some, Forall2_length in M.
      pose proof (Permutation_length (sort_recent_first_perm exportFiles)) as L.
      rewrite So in L. cbn [length] in L.
      destruct (candidates files); [congruence | cbn [length] in M; lia].
    + exfalso. assert (X : is_Some (mapM (M := option)
        (fun file => t ← e_mtime env (path_join [dirPath; file]);
                     Some (path_join [dirPath; file], t)) (candidates files))).
      { apply mapM_is_Some, Forall_forall. intros g Hg.
        destruct (S g Hg) as [t T]. unfold stat in T.
        unfold compose. rewrite T. eauto. }
      rewrite M in X. destruct X; discriminate.
Qed.

(** X22: on a file system where a file that can be examined exists,
    [getExportFilePath] only returns paths that exist; a configured path that
    exists is returned, tilde expanded; one that does not exist is ignored,
    as no preference or an empty one is: the result is the one of the
    detection. *)
Theorem resolved_export_exists :
  (forall q t, e_mtime env q = Some t -> e_exists env q = true) ->
  let resolved := Preferences.getExportFilePath path_join env in
  let detected := Preferences.getExportFilePath path_join (set_exportFilePath None env) in
  (forall p, resolved = Some p -> e_exists env p = true)
  /\ (forall configured,
        e_exportFilePath env = Some configured -> configured <> [] ->
        e_exists env (Preferences.expandTilde env configured) = true ->
        resolved = Some (Preferences.expandTilde env configured))
  /\ (forall configured,
        e_exportFilePath env = Some configured ->
        e_exists env (Preferences.expandTilde env configured) = false ->
        resolved = detected)
  /\ (e_exportFilePath env = None \/ e_exportFilePath env = Some [] ->
      resolved = detected).
Proof.
  intros Coh resolved detected. split; [|split; [|split]].
  - intros p. apply (getExportFilePath_exists path_join env), Coh.
  - intros c Hc N E. subst resolved. rewrite getExportFilePath_eq.
    unfold Preferences.getPreferences. rewrite Hc.
    destruct c as [|x c]; [contradiction|]. cbn [js_or_str truthy andb].
    rewrite E. reflexivity.
  - intros c Hc E. subst resolved. rewrite getExportFilePath_eq.
    unfold Preferences.getPreferences. rewrite Hc.
    destruct c as [|x c]; [reflexivity|]. cbn [js_or_str truthy andb].
    rewrite E. reflexivity.
  - intros H. subst resolved. rewrite getExportFilePath_eq.
    unfold Preferences.getPreferences. destruct H as [-> | ->]; reflexivity.
Qed.

(** X23: [exportFileExists()] says yes exactly when [getExportFilePath()]
    returns a path, provided that path does not itself start with [~/] (it
    is expanded a second time); an empty argument counts as none, and any
    other argument is expanded and looked up. *)
Theorem exportFileExists_agrees_with_resolution :
  (forall q t, e_mtime env q = Some t -> e_exists env q = true) ->
  e_exists env [] = false ->
  (forall p, Preferences.getExportFilePath path_join env = Some p ->
             startsWith p (js "~/") = false) ->
  Preferences.exportFileExists path_join env None
  = bool_decide (is_Some (Preferences.getExportFilePath path_join env))
  /\ Preferences.exportFileExists path_join env (Some [])
     = Preferences.exportFileExists path_join env None
  /\ (forall filePath, filePath <> [] ->
        Preferences.exportFileExists path_join env (Some filePath)
        = e_exists env (Preferences.expandTilde env filePath)).
Proof.
  intros Coh Nil Plain. split; [|split].
  - unfold Preferences.exportFileExists. cbn [truthy].
    destruct (Preferences.getExportFilePath path_join env) as [p|] eqn:G.
    + rewrite bool_decide_eq_true_2 by eauto.
      pose proof (getExportFilePath_exists path_join env p Coh G) as E.
      destruct p as [|c s]; [congruence|].
      unfold Preferences.expandTilde. rewrite (Plain _ eq_refl). exact E.
    + rewrite bool_decide_eq_false_2 by (intros [? ?]; discriminate). reflexivity.
  - reflexivity.
  - intros [|c s] N; [contradiction | reflexivity].
Qed.

End Resolve.

(** Of the four files of the listing two look like exports; the more recent
    one is found. *)
Lemma scan_picks_the_most_recent_witness :
  let found := Preferences.findNordPassExportInDirectory join (home None false)
                 nordpass_dir in
  candidates listing = [js "old-nordpass.csv"; js "NordPass-2024.CSV"]
  /\ found = Some (js "/Users/alice/.nordpass/NordPass-2024.CSV")
  /\ is_Some found.
Proof.
  cbv zeta. split; [by_vm|]. split; [by_vm|].
  assert (R : e_readdir (home None false) nordpass_dir = Some listing) by by_vm.
  assert (C : candidates listing = [js "old-nordpass.csv"; js "NordPass-2024.CSV"])
    by by_vm.
  destruct (scan_picks_the_most_recent join (home None false) nordpass_dir listing R)
    as (_ & _ & Live).
  apply Live.
  - by_vm.
  - rewrite C. discriminate.
  - rewrite C. intros g [->|[->|[]%elem_of_nil]%elem_of_cons]%elem_of_cons.
    + exists 1600000000000. by_vm.
    + exists 1700000000000. by_vm.
Defined.

(** The configured path wins when it exists; when it does not, the export in
    [.nordpass] is found. *)
Lemma resolved_export_exists_witness :
  Preferences.getExportFilePath join (home (Some (js "~/vault/export.csv")) true)
  = Some vault
  /\ e_exists (home (Some (js "~/vault/export.csv")) true) vault = true
  /\ Preferences.getExportFilePath join (home (Some (js "~/vault/export.csv")) false)
     = Some (js "/Users/alice/.nordpass/NordPass-2024.CSV").
Proof.
  destruct (resolved_export_exists join (home (Some (js "~/vault/export.csv")) true)
              (home_coherent _ _)) as (Ex & Conf & _).
  destruct (resolved_export_exists join (home (Some (js "~/vault/export.csv")) false)
              (home_coherent _ _)) as (_ & _ & Stale & _).
  assert (G : Preferences.getExportFilePath join
                (home (Some (js "~/vault/export.csv")) true) = Some vault).
  { rewrite (Conf (js "~/vault/export.csv") eq_refl); [by_vm | discriminate | by_vm]. }
  split; [exact G|]. split; [exact (Ex vault G)|].
  rewrite (Stale (js "~/vault/export.csv") eq_refl) by by_vm. by_vm.
Defined.

(** With the configured file in place, and with an argument that does not
    exist. *)
Lemma exportFileExists_agrees_with_resolution_witness :
  Preferences.exportFileExists join (home (Some (js "~/vault/export.csv")) true) None
  = true
  /\ Preferences.exportFileExists join (home None false) (Some (js "~/vault/export.csv"))
     = false.
Proof.
  assert (Nil : forall c v, e_exists (home c v) [] = false) by (intros c []; by_vm).
  assert (G1 : Preferences.getExportFilePath join
                 (home (Some (js "~/vault/export.csv")) true) = Some vault) by by_vm.
  assert (G2 : Preferences.getExportFilePath join (home None false)
               = Some (js "/Users/alice/.nordpass/NordPass-2024.CSV")) by by_vm.
  destruct (exportFileExists_agrees_with_resolution join
              (home (Some (js "~/vault/export.csv")) true)
              (home_coherent _ _) (Nil _ _)) as (A & _).
  { intros p. rewrite G1. intros [= <-]. by_vm. }
  destruct (exportFileExists_agrees_with_resolution join (home None false)
              (home_coherent _ _) (Nil _ _)) as (_ & _ & B).
  { intros p. rewrite G2. intros [= <-]. by_vm. }
  split.
  - rewrite A, G1. reflexivity.
  - rewrite B by discriminate. by_vm.
Defined.

(** ** The search commands *)


(** X25: [truncateNote] returns the note itself when it is not longer than
    [maxLength], and its first [maxLength] code units followed by three dots
    otherwise; the result is never longer than [maxLength + 3]. *)
Theorem truncateNote_keeps_a_prefix (note : jsstring) (maxLength : Z) :
  let shown := truncateNote note maxLength in
  (Z.of_nat (length shown) <= Z.max 0 maxLength + 3)
  /\ (Z.of_nat (length note) <= maxLength -> shown = note)
  /\ (maxLength < Z.of_nat (length note) ->
      shown = take (Z.to_nat maxLength) note ++ js "..."
      /\ Z.of_nat (length shown) = Z.max 0 maxLength + 3)
  /\ take (Z.to_nat maxLength) shown = take (Z.to_nat maxLength) note.
Proof.
  cbv zeta. unfold truncateNote.
  destruct (Z.leb_spec (Z.of_nat (length note)) maxLength) as [L|L].
  - repeat split; try lia.
  - rewrite length_app, length_take. change (length (js "...")) with 3%nat.
    repeat split; try lia.
    rewrite take_app_le by (rewrite length_take; lia).
    apply take_take_eq || (rewrite take_take; f_equal; lia).
Qed.

(** X26: for two valid times, the time elapsed is their difference as a
    double: the difference itself when it is at most [2 ^ 53] in size, and
    an even number at most one away from it otherwise.  [formatLastUpdated]
    shows [Just now] below one minute (also for a date in the future), then
    the whole minutes elapsed (1 to 59), then the whole hours (1 to 23),
    then the whole days; the number is written in decimal digits and reads
    back as itself. *)
Theorem formatLastUpdated_counts_whole_units (time now : Z) :
  valid_time time -> valid_time now ->
  let elapsed := to_double (now - time) in
  let shown := formatLastUpdated (Some (Some time)) now in
  (Z.abs (now - time) <= 2 ^ 53 -> elapsed = now - time)
  /\ (2 ^ 53 < Z.abs (now - time) ->
      Z.even elapsed = true /\ Z.abs (elapsed - (now - time)) <= 1
      /\ Z.abs elapsed < 2 ^ 54)
  /\ (elapsed < 60000 -> shown = js "Just now")
  /\ (60000 <= elapsed < 3600000 ->
      shown = toString10 (elapsed / 60000) ++ js "m ago"
      /\ 1 <= elapsed / 60000 <= 59)
  /\ (3600000 <= elapsed < 86400000 ->
      shown = toString10 (elapsed / 3600000) ++ js "h ago"
      /\ 1 <= elapsed / 3600000 <= 23)
  /\ (86400000 <= elapsed ->
      shown = toString10 (elapsed / 86400000) ++ js "d ago"
      /\ 1 <= elapsed / 86400000)
  /\ (forall n, 0 <= n ->
        read10 (toString10 n) 0 = n /\ Forall (fun c => 48 <= c <= 57) (toString10 n)).
Proof.
  intros Vt Vn. cbv zeta.
  split; [|split].
  { intros B. unfold to_double.
    destruct (Z.leb_spec (Z.abs (now - time)) (2 ^ 53)); [reflexivity | lia]. }
  { intros B. unfold valid_time in Vt, Vn. unfold to_double.
    destruct (Z.leb_spec (Z.abs (now - time)) (2 ^ 53)); [lia|].
    destruct (Z.even (now - time)) eqn:Ev; [split; [exact Ev | lia]|].
    assert (Od : Z.odd (now - time) = true)
      by (rewrite <- Z.negb_even, Ev; reflexivity).
    apply Z.odd_spec in Od. destruct Od as [k Ek].
    destruct (Z.eqb_spec ((now - time - 1) mod 4) 0) as [M|M].
    - split; [|lia]. apply Z.even_spec. exists k. lia.
    - split; [|lia]. apply Z.even_spec. exists (k + 1). lia. }
  unfold formatLastUpdated. set (d := to_double (now - time)).
  assert (H1 : d / 60000 / 60 = d / 3600000) by (rewrite Z.div_div by lia; reflexivity).
  assert (H2 : d / 60000 / 60 / 24 = d / 86400000)
    by (rewrite !Z.div_div by lia; reflexivity).
  rewrite H2, H1.
  assert (M : d / 60000 < 1 <-> d < 60000).
  { split; intros H.
    - apply Z.nle_gt. intros C. apply (Z.div_le_mono _ _ 60000) in C; [|lia].
      change (60000 / 60000) with 1 in C. lia.
    - apply Z.div_lt_upper_bound; lia. }
  assert (Hm : d / 60000 < 60 <-> d < 3600000).
  { split; intros H.
    - apply Z.nle_gt. intros C. apply (Z.div_le_mono _ _ 60000) in C; [|lia].
      change (3600000 / 60000) with 60 in C. lia.
    - apply Z.div_lt_upper_bound; lia. }
  assert (Hh : d / 3600000 < 24 <-> d < 86400000).
  { split; intros H.
    - apply Z.nle_gt. intros C. apply (Z.div_le_mono _ _ 3600000) in C; [|lia].
      change (86400000 / 3600000) with 24 in C. lia.
    - apply Z.div_lt_upper_bound; lia. }
  assert (Hd1 : 3600000 <= d -> 1 <= d / 3600000).
  { intros C. apply (Z.div_le_mono _ _ 3600000) in C; [|lia].
    change (3600000 / 3600000) with 1 in C. exact C. }
  assert (Hd2 : 86400000 <= d -> 1 <= d / 86400000).
  { intros C. apply (Z.div_le_mono _ _ 86400000) in C; [|lia].
    change (86400000 / 86400000) with 1 in C. exact C. }
  split; [|split; [|split; [|split]]].
  - intros H. destruct (Z.ltb_spec (d / 60000) 1); [reflexivity | lia].
  - intros H. destruct (Z.ltb_spec (d / 60000) 1); [lia|].
    destruct (Z.ltb_spec (d / 60000) 60); [|lia]. split; [reflexivity | lia].
  - intros H. destruct (Z.ltb_spec (d / 60000) 1); [lia|].
    destruct (Z.ltb_spec (d / 60000) 60); [lia|].
    destruct (Z.ltb_spec (d / 3600000) 24); [|lia].
    split; [reflexivity|]. split; [apply Hd1; lia | lia].
  - intros H. destruct (Z.ltb_spec (d / 60000) 1); [lia|].
    destruct (Z.ltb_spec (d / 60000) 60); [lia|].
    destruct (Z.ltb_spec (d / 3600000) 24); [lia|].
    split; [reflexivity | apply Hd2; lia].
  - apply toString10_value.
Qed.

(** The two ends of the range of a [Date], one millisecond short: the
    difference is odd and above [2 ^ 53], and the subtraction rounds it up
    to 200000000 days; and a date 90 seconds old. *)
Lemma formatLastUpdated_counts_whole_units_witness :
  (valid_time (- 8639999999999999) /\ valid_time 8640000000000000)
  /\ to_double (8640000000000000 - - 8639999999999999) = 17280000000000000
  /\ formatLastUpdated (Some (Some (- 8639999999999999))) 8640000000000000
     = js "200000000d ago"
  /\ formatLastUpdated (Some (Some 1700000000000)) 1700000090000 = js "1m ago".
Proof.
  assert (V1 : valid_time (- 8639999999999999)) by (vm_compute; discriminate).
  assert (V2 : valid_time 8640000000000000) by (vm_compute; discriminate).
  assert (V3 : valid_time 1700000000000) by (vm_compute; discriminate).
  assert (V4 : valid_time 1700000090000) by (vm_compute; discriminate).
  split; [split; assumption|]. split; [reflexivity|]. split.
  - destruct (formatLastUpdated_counts_whole_units _ _ V1 V2)
      as (_ & _ & _ & _ & _ & D & _).
    rewrite (proj1 (D ltac:(vm_compute; discriminate))). reflexivity.
  - destruct (formatLastUpdated_counts_whole_units _ _ V3 V4)
      as (_ & _ & _ & D & _).
    rewrite (proj1 (D ltac:(vm_compute; split; [discriminate | reflexivity]))).
    reflexivity.
Defined.

Section SearchProperties.
Variable lower : jsstring -> jsstring.

(** X27: when the lower-cased search text contains the lower-cased earlier
    one (more was typed), the filtered lists are sublists, in order, of the
    earlier filtered lists; every filtered list is a sublist of the items,
    and the empty search keeps them all. *)
Theorem typing_more_narrows_the_list
    (shorter longer : jsstring) (passwords : list Password)
    (creditCards : list CreditCard) (secureNotes : list SecureNote) :
  longer <> [] -> includes (lower longer) (lower shorter) = true ->
  filteredPasswords lower longer passwords
    `sublist_of` filteredPasswords lower shorter passwords
  /\ filteredCreditCards lower longer creditCards
       `sublist_of` filteredCreditCards lower shorter creditCards
  /\ filteredSecureNotes lower longer secureNotes
       `sublist_of` filteredSecureNotes lower shorter secureNotes
  /\ filteredPasswords lower shorter passwords `sublist_of` passwords
  /\ filteredPasswords lower [] passwords = passwords
  /\ filteredCreditCards lower [] creditCards = creditCards
  /\ filteredSecureNotes lower [] secureNotes = secureNotes.
Proof.
  intros N I.
  assert (T : truthy (Some longer) = true) by (destruct longer; [contradiction | reflexivity]).
  split; [|split; [|split; [|split; [|split; [|split]]]]].
  - apply filter_sublist_impl. intros p. unfold matchesPassword. rewrite T.
    cbn [negb]. destruct (negb (truthy (Some shorter))); [reflexivity|].
    rewrite !orb_true_iff.
    intros [[[H|H]|H]|H]; eauto using includes_trans, field_matches_narrow.
  - apply filter_sublist_impl. intros c. unfold matchesCreditCard. rewrite T.
    cbn [negb]. destruct (negb (truthy (Some shorter))); [reflexivity|].
    rewrite !orb_true_iff.
    intros [[[H|H]|H]|H]; eauto using includes_trans, field_matches_narrow.
  - apply filter_sublist_impl. intros n. unfold matchesSecureNote. rewrite T.
    cbn [negb]. destruct (negb (truthy (Some shorter))); [reflexivity|].
    rewrite !orb_true_iff. intros [H|H]; eauto using includes_trans.
  - apply sublist_filter.
  - apply list_filter_True || (induction passwords as [|p l IH]; [reflexivity|];
      unfold filteredPasswords in *; rewrite filter_cons, decide_True by reflexivity;
      f_equal; exact IH).
  - induction creditCards as [|p l IH]; [reflexivity|].
    unfold filteredCreditCards in *. rewrite filter_cons, decide_True by reflexivity.
    f_equal; exact IH.
  - induction secureNotes as [|p l IH]; [reflexivity|].
    unfold filteredSecureNotes in *. rewrite filter_cons, decide_True by reflexivity.
    f_equal; exact IH.
Qed.

(** X28: the filters look at names, user names, URLs, card holders, card
    numbers and notes only: two items that agree on these match the same
    searches, whatever their password, CVV, expiry date or folder. *)
Theorem search_never_reads_the_secrets (searchText : jsstring) :
  (forall p q : Password,
     pw_name p = pw_name q -> pw_username p = pw_username q ->
     pw_url p = pw_url q -> pw_note p = pw_note q ->
     matchesPassword lower searchText p = matchesPassword lower searchText q)
  /\ (forall c d : CreditCard,
        cc_name c = cc_name d -> cc_cardholderName c = cc_cardholderName d ->
        cc_cardNumber c = cc_cardNumber d -> cc_note c = cc_note d ->
        matchesCreditCard lower searchText c = matchesCreditCard lower searchText d)
  /\ (forall n m : SecureNote,
        sn_name n = sn_name m -> sn_note n = sn_note m ->
        matchesSecureNote lower searchText n = matchesSecureNote lower searchText m).
Proof.
  unfold matchesPassword, matchesCreditCard, matchesSecureNote.
  split; [|split].
  - intros p q H1 H2 H3 H4. rewrite H1, H2, H3, H4. reflexivity.
  - intros c d H1 H2 H3 H4. rewrite H1, H2, H3, H4. reflexivity.
  - intros n m H1 H2. rewrite H1, H2. reflexivity.
Qed.

End SearchProperties.

(** Typing [Exa] after [ex]: the credential named Example stays; the one
    whose password is [Exa] is not found. *)
Lemma typing_more_narrows_the_list_witness :
  filteredPasswords toLowerCase (js "Exa") items = take 1 items
  /\ filteredPasswords toLowerCase (js "ex") items = take 1 items
  /\ filteredPasswords toLowerCase (js "Exa") items
       `sublist_of` filteredPasswords toLowerCase (js "ex") items.
Proof.
  split; [by_vm|]. split; [by_vm|].
  assert (N : js "Exa" <> []) by discriminate.
  assert (I : includes (toLowerCase (js "Exa")) (toLowerCase (js "ex")) = true) by by_vm.
  exact (proj1 (typing_more_narrows_the_list toLowerCase (js "ex") (js "Exa")
                  items [] [] N I)).
Defined.
